(** * combo.c: fixed-point kernel, DDS beeps, FFT peak search, inter-core handshake

    A shallow embedding of [Lab_1/Combo/combo.c] (RP2040, two Cortex-M0+ cores,
    ILP32, two's complement) and the properties proved of it.

    - C integers are [Z] with every conversion and wrap-around written out.
    - Arrays are lists indexed by [Z]; loops are folds over their indices.
    - A timer callback is a state transformer on the record of the globals it
      touches, with the words it writes to the SPI kept as a trace.
    - The two heartbeat protothreads are a transition system, one event per
      statement, interleaved in any order.
    - Tables that [main] fills in floating point are parameters ([sin_table],
      [Sinewave], [window]); for the two tables of the FFT the values [main]
      computes are also listed, for the theorems about whole epochs.
    - The FFT epoch has a second, executable form on machine words and
      arrays, proved to compute what the list model computes; theorems about
      all bins are proved by evaluating it.

    The first part holds the model, the second the proofs. *)

From Stdlib Require Import ZArith Lia Bool QArith.
From Stdlib Require Import Uint63 Sint63 PArray.
From stdpp Require Import list.
Local Open Scope Z_scope.

(** ** Machine integers *)

(** Conversion to a signed type of [w] bits (what gcc does on this target:
    reduce modulo [2^w] into [[-2^(w-1), 2^(w-1))]). *)
Definition wrap_signed (w x : Z) : Z := (x + 2 ^ (w - 1)) mod 2 ^ w - 2 ^ (w - 1).

(** Conversion to an unsigned type of [w] bits. *)
Definition wrap_unsigned (w x : Z) : Z := x mod 2 ^ w.

(** [(int)], [(fix15)] *)
Definition to_int32 : Z -> Z := wrap_signed 32.
(** [(signed long long)] *)
Definition to_int64 : Z -> Z := wrap_signed 64.
(** [unsigned int] *)
Definition to_uint32 : Z -> Z := wrap_unsigned 32.
(** [unsigned short], [uint16_t] *)
Definition to_uint16 : Z -> Z := wrap_unsigned 16.

Definition int32_range (x : Z) : Prop := - 2 ^ 31 <= x < 2 ^ 31.
Definition uint32_range (x : Z) : Prop := 0 <= x < 2 ^ 32.

(** A 32-bit pattern [u] in [[0, 2^32)] read as a signed integer. *)
Definition signed_of_bits32 (u : Z) : Z := if u <? 2 ^ 31 then u else u - 2 ^ 32.

(** ** The fix15 macros (combo.c, lines 46-54) *)

(** What evaluating a C expression comes to: a value, a condition the code
    reports, or nothing the language defines (C11 6.5.5p5 for [/] with a zero
    divisor).  No macro of the file builds [Reported]. *)
Inductive condition : Type := DivideByZero.

Inductive outcome : Type :=
| Value (v : Z)
| Reported (c : condition)
| Undefined.

(** [#define multfix15(a,b) ((fix15)((((signed long long)(a))*((signed long long)(b)))>>15))] *)
Definition multfix15 (a b : Z) : Z :=
  to_int32 (Z.shiftr (to_int64 (to_int64 a * to_int64 b)) 15).

(** [#define float2fix15(a) ((fix15)((a)*32768.0))] at a decimal constant
    written as the fraction [num/den]: the cast truncates toward zero.  The
    program applies it to 0.5 and 0.4 only, where rounding the literal to a
    double does not move the product across an integer. *)
Definition float2fix15 (num den : Z) : Z := to_int32 (Z.quot (num * 32768) den).

(** [#define absfix15(a) abs(a)]; [abs(INT_MIN)] wraps to [INT_MIN]. *)
Definition absfix15 (a : Z) : Z := to_int32 (Z.abs a).

(** [#define int2fix15(a) ((fix15)(a << 15))] *)
Definition int2fix15 (a : Z) : Z := to_int32 (Z.shiftl a 15).

(** [#define fix2int15(a) ((int)(a >> 15))] *)
Definition fix2int15 (a : Z) : Z := to_int32 (Z.shiftr a 15).

(** The quotient of [divfix] where C defines it: the dividend is widened and
    shifted in 64 bits, [/] truncates toward zero, the cast keeps 32 bits. *)
Definition divfix_quot (a b : Z) : Z :=
  to_int32 (to_int64 (Z.quot (to_int64 (Z.shiftl (to_int64 a) 15)) (to_int64 b))).

(** [#define divfix(a,b) (fix15)( (((signed long long)(a)) << 15) / (b))]:
    the macro divides with no test of [b]. *)
Definition divfix (a b : Z) : outcome :=
  if b =? 0 then Undefined else Value (divfix_quot a b).

(** ** C arrays

    An array is the list of its cells; the program indexes every array inside
    its bounds (outside them C defines nothing; here a read gives 0 and a write
    is dropped). *)
Definition aget (a : list Z) (i : Z) : Z := default 0 (a !! Z.to_nat i).
Definition aset (a : list Z) (i v : Z) : list Z := <[Z.to_nat i := v]> a.

(** [for (i = i0; ...; i++)] run for [n] rounds. *)
Fixpoint for_loop {St : Type} (n : nat) (i : Z) (body : Z -> St -> St) (s : St) : St :=
  match n with
  | O => s
  | S n' => for_loop n' (i + 1) body (body i s)
  end.

(** ** Direct digital synthesis (combo.c, lines 56-238) *)

Definition two32 : Z := 4294967296.
Definition Fs_DDS : Z := 40000.
Definition sine_table_size : Z := 256.

(** [(2300.0*two32)/Fs_DDS] converted to [unsigned int]: the product and the
    quotient 246960619.52 are computed in double, the conversion truncates. *)
Definition phase_incr_init : Z := to_uint32 (Z.quot (2300 * two32) Fs_DDS).

Definition max_amplitude : Z := int2fix15 1.
(** [float2fix15(0.5)] *)
Definition scale_out : Z := float2fix15 1 2.

Definition ATTACK_TIME : Z := 3000.
Definition DECAY_TIME : Z := 3000.
Definition SUSTAIN_TIME : Z := 10000 - (ATTACK_TIME + DECAY_TIME).
Definition BEEP_DURATION : Z := ATTACK_TIME + SUSTAIN_TIME + DECAY_TIME.
Definition BEEP_REPEAT_INTERVAL : Z := 40000.
Definition CHIRP_CYCLE_TIME : Z := BEEP_DURATION + BEEP_REPEAT_INTERVAL.

(** [main] (lines 586-587) sets both increments before any timer starts; the
    divisors are non-zero, so the quotients are what [divfix] yields
    ([attack_inc_by_divfix] below). *)
Definition attack_inc : Z := divfix_quot max_amplitude (int2fix15 ATTACK_TIME).
Definition decay_inc : Z := divfix_quot max_amplitude (int2fix15 DECAY_TIME).

(** [0b0011000000000000] and [0b1011000000000000] *)
Definition DAC_config_chan_A : Z := 0x3000.
Definition DAC_config_chan_B : Z := 0xB000.

(** The core a callback runs on.  Core 0 owns the [_0]/[_L] globals and DAC
    channel B, core 1 the [_1]/[_R] globals and channel A. *)
Inductive core : Type := Core0 | Core1.

Definition DAC_config (c : core) : Z :=
  match c with Core0 => DAC_config_chan_B | Core1 => DAC_config_chan_A end.

(** [get_core_num()] *)
Definition get_core_num (c : core) : Z :=
  match c with Core0 => 0 | Core1 => 1 end.

(** The globals one timer callback reads and writes, and the 16-bit words it
    has handed to [spi_write16_blocking], latest first. *)
Record dds : Type := mkDds {
  phase_accum_main : Z;   (* volatile unsigned int *)
  phase_incr_main : Z;    (* volatile unsigned int *)
  DAC_output : Z;         (* int *)
  current_amplitude : Z;  (* fix15 *)
  STATE : Z;              (* volatile unsigned int: 0 while beeping *)
  count : Z;              (* volatile unsigned int *)
  DAC_data : Z;           (* uint16_t *)
  corenum : Z;            (* volatile int *)
  spi_out : list Z
}.

(** The globals as the C start-up code and their initialisers leave them. *)
Definition boot : dds :=
  mkDds 0 phase_incr_init 0 0 0 0 0 0 [].

Section DDS.

(** [fix15 sin_table[256]], filled by [main] from [sin] in floating point
    before the timers start, and read-only afterwards. *)
Variable sin_table : list Z.
Variable c : core.

(** [repeating_timer_callback_core_0] and [repeating_timer_callback_core_1]
    (lines 141-238): one body, over the globals and DAC channel of core [c]. *)
Definition repeating_timer_callback (s : dds) : dds :=
  let s' :=
    if STATE s =? 0 then
      (* DDS phase and sine table lookup *)
      let phase := to_uint32 (phase_accum_main s + phase_incr_main s) in
      let out :=
        to_int32
          (fix2int15
             (multfix15 (multfix15 (current_amplitude s) scale_out)
                (aget sin_table (Z.shiftr phase 24))) + 2048) in
      let amp :=
        if count s <? ATTACK_TIME then
          (* Ramp up amplitude *)
          to_int32 (current_amplitude s + attack_inc)
        else if BEEP_DURATION - DECAY_TIME <? count s then
          (* Ramp down amplitude *)
          to_int32 (current_amplitude s - decay_inc)
        else current_amplitude s in
      (* Mask with DAC control bits, SPI write *)
      let data := to_uint16 (Z.lor (DAC_config c) (Z.land out 0xffff)) in
      (* Increment the counter *)
      let cnt := to_uint32 (count s + 1) in
      (* State transition? *)
      if cnt =? BEEP_DURATION then
        mkDds phase (phase_incr_main s) out amp 1 0 data (corenum s)
          (data :: spi_out s)
      else
        mkDds phase (phase_incr_main s) out amp (STATE s) cnt data (corenum s)
          (data :: spi_out s)
    else
      let cnt := to_uint32 (count s + 1) in
      if cnt =? BEEP_REPEAT_INTERVAL then
        mkDds (phase_accum_main s) (phase_incr_main s) (DAC_output s) 0 0 0
          (DAC_data s) (corenum s) (spi_out s)
      else
        mkDds (phase_accum_main s) (phase_incr_main s) (DAC_output s)
          (current_amplitude s) (STATE s) cnt (DAC_data s) (corenum s)
          (spi_out s) in
  (* retrieve core number of execution *)
  mkDds (phase_accum_main s') (phase_incr_main s') (DAC_output s')
    (current_amplitude s') (STATE s') (count s') (DAC_data s')
    (get_core_num c) (spi_out s').

(** The states the globals of core [c] go through: [boot], then one callback
    per timer period. *)
Inductive reachable : dds -> Prop :=
| reach_boot : reachable boot
| reach_tick s : reachable s -> reachable (repeating_timer_callback s).

End DDS.

Definition repeating_timer_callback_core_0 (sin_table : list Z) : dds -> dds :=
  repeating_timer_callback sin_table Core0.
Definition repeating_timer_callback_core_1 (sin_table : list Z) : dds -> dds :=
  repeating_timer_callback sin_table Core1.

(** The envelope part of the state: state, elapsed ticks, amplitude. *)
Definition envelope (s : dds) : Z * Z * Z := (STATE s, count s, current_amplitude s).

(** The amplitude an ACTIVE phase that started from 0 has after [t] ticks. *)
Definition ramp (t : Z) : Z :=
  if t <=? ATTACK_TIME then attack_inc * t
  else if t <=? BEEP_DURATION - DECAY_TIME + 1 then attack_inc * ATTACK_TIME
  else attack_inc * ATTACK_TIME - decay_inc * (t - (BEEP_DURATION - DECAY_TIME + 1)).

(** The envelope [t] ticks after the start of an ACTIVE phase. *)
Definition envelope_at (t : Z) : Z * Z * Z :=
  if t <? BEEP_DURATION then (0, t, ramp t)
  else if t <? CHIRP_CYCLE_TIME then (1, t - BEEP_DURATION, ramp BEEP_DURATION)
  else (0, 0, 0).

(** ** Fixed-point FFT and peak search (combo.c, lines 332-539) *)

(** [#define max(a,b) ((a>b)?a:b)] and [#define min(a,b) ((a<b)?a:b)] *)
Definition max_macro (a b : Z) : Z := if a >? b then a else b.
Definition min_macro (a b : Z) : Z := if a <? b then a else b.

(** [abs] of [<stdlib.h>] on [int]; [abs(INT_MIN)] wraps to [INT_MIN]. *)
Definition abs_int (a : Z) : Z := to_int32 (Z.abs a).

(** [fix15 zero_point_4 = float2fix15(0.4)] *)
Definition zero_point_4 : Z := float2fix15 2 5.

(** The 16-bit reversal of lines 400-406; [m] and [mr] are [unsigned short]. *)
Definition reverse16 (m : Z) : Z :=
  (* swap odd and even bits *)
  let mr := to_uint16 (Z.lor (Z.land (Z.shiftr m 1) 0x5555) (Z.shiftl (Z.land m 0x5555) 1)) in
  (* swap consecutive pairs *)
  let mr := to_uint16 (Z.lor (Z.land (Z.shiftr mr 2) 0x3333) (Z.shiftl (Z.land mr 0x3333) 2)) in
  (* swap nibbles *)
  let mr := to_uint16 (Z.lor (Z.land (Z.shiftr mr 4) 0x0F0F) (Z.shiftl (Z.land mr 0x0F0F) 4)) in
  (* swap bytes *)
  to_uint16 (Z.lor (Z.land (Z.shiftr mr 8) 0x00FF) (Z.shiftl (Z.land mr 0x00FF) 8)).

(** One line of the reversal: the bits under [mask] move up by [k], the bits
    [k] above them move down. *)
Definition swap_stage (k mask x : Z) : Z :=
  to_uint16 (Z.lor (Z.land (Z.shiftr x k) mask) (Z.shiftl (Z.land x mask) k)).

(** The magnitude estimate of lines 525-529 for one bin, from its real and
    imaginary parts. *)
Definition approx_magnitude (re im : Z) : Z :=
  to_int32 (max_macro (abs_int re) (abs_int im)
            + multfix15 (min_macro (abs_int re) (abs_int im)) zero_point_4).

(** The variables of the peak search: the two arrays, [max_fr], [max_fr_dex]. *)
Record peak : Type := mkPeak {
  pk_fr : list Z;
  pk_fi : list Z;
  max_fr : Z;
  max_fr_dex : Z
}.

Section FFT.

(** [LOG2_NUM_SAMPLES].  combo.c fixes it to 10 and writes the three macros
    below as the numerals their comments derive from it: 1024, 1023 and 6
    ("length of short (16 bits) minus log2 number of samples"). *)
Variable LOG2_NUM_SAMPLES : Z.

Definition NUM_SAMPLES : Z := 2 ^ LOG2_NUM_SAMPLES.
Definition NUM_SAMPLES_M_1 : Z := NUM_SAMPLES - 1.
Definition SHIFT_AMOUNT : Z := 16 - LOG2_NUM_SAMPLES.

(** [mr] as line 408 leaves it. *)
Definition bit_reversed (m : Z) : Z := Z.shiftr (reverse16 m) SHIFT_AMOUNT.

(** One round of the loop of lines 398-418 on [(fr, fi)]. *)
Definition bit_reversal_step (m : Z) (a : list Z * list Z) : list Z * list Z :=
  let mr := bit_reversed m in
  (* don't swap that which has already been swapped *)
  if mr <=? m then a
  else
    (* swap the bit-reversed indices *)
    let tr := aget (fst a) m in
    let fr := aset (fst a) m (aget (fst a) mr) in
    let fr := aset fr mr tr in
    let ti := aget (snd a) m in
    let fi := aset (snd a) m (aget (snd a) mr) in
    let fi := aset fi mr ti in
    (fr, fi).

(** The bit-reversal phase of [FFTfix]: [for (m=1; m<NUM_SAMPLES_M_1; m++)]. *)
Definition FFTfix_bit_reversal (fr fi : list Z) : list Z * list Z :=
  for_loop (Z.to_nat (NUM_SAMPLES_M_1 - 1)) 1 bit_reversal_step (fr, fi).

(** One round of the magnitude loop of [protothread_fft] (lines 523-536). *)
Definition magnitude_step (i : Z) (p : peak) : peak :=
  (* get the approx magnitude *)
  let fr := aset (pk_fr p) i (abs_int (aget (pk_fr p) i)) in
  let fi := aset (pk_fi p) i (abs_int (aget (pk_fi p) i)) in
  (* reuse fr to hold magnitude *)
  let fr :=
    aset fr i
      (to_int32 (max_macro (aget fr i) (aget fi i)
                 + multfix15 (min_macro (aget fr i) (aget fi i)) zero_point_4)) in
  (* Keep track of maximum *)
  if (max_fr p <? aget fr i) && (4 <? i) then mkPeak fr fi (aget fr i) i
  else mkPeak fr fi (max_fr p) (max_fr_dex p).

(** Lines 512-513 and the loop [for (int i = 0; i < (NUM_SAMPLES>>1); i++)],
    on the arrays [FFTfix] returned. *)
Definition peak_search (fr fi : list Z) : peak :=
  for_loop (Z.to_nat (Z.shiftr NUM_SAMPLES 1)) 0 magnitude_step (mkPeak fr fi 0 0).

End FFT.

(** The exchange of cells [i] and [j] of an array, in the order the swap of
    lines 412-414 writes them. *)
Definition exchange (a : list Z) (i j : Z) : list Z :=
  aset (aset a i (aget a j)) j (aget a i).

(** Where cell [i] comes from once the rounds [1 .. M-1] of the bit reversal
    are done: from its mirror if one of the two is below [M], from itself
    otherwise. *)
Definition source_after (lg M i : Z) : Z :=
  if (i <? M) || (bit_reversed lg i <? M) then bit_reversed lg i else i.

(** The position the round at [m] reads cell [k] from. *)
Definition swapped_at (lg m k : Z) : Z :=
  if m <? bit_reversed lg m
  then (if k =? m then bit_reversed lg m else if k =? bit_reversed lg m then m else k)
  else k.

(** The arrays after the rounds [1 .. M-1], read through the arrays [fr] and
    [fi] the phase started from. *)
Definition reversal_invariant (lg : Z) (fr fi : list Z) (M : Z) (a : list Z * list Z) : Prop :=
  length (fst a) = length fr /\ length (snd a) = length fi /\
  forall i, 0 <= i < NUM_SAMPLES lg ->
    aget (fst a) i = aget fr (source_after lg M i) /\
    aget (snd a) i = aget fi (source_after lg M i).

(** The state of the peak search over [fr], [fi] when the bins below [I] are
    done. *)
Definition search_invariant (fr fi : list Z) (I : Z) (p : peak) : Prop :=
  let mag := fun j => approx_magnitude (aget fr j) (aget fi j) in
  length (pk_fr p) = length fr /\ length (pk_fi p) = length fi /\
  (forall j, 0 <= j < I ->
     aget (pk_fr p) j = mag j /\ aget (pk_fi p) j = abs_int (aget fi j)) /\
  (forall j, I <= j ->
     aget (pk_fr p) j = aget fr j /\ aget (pk_fi p) j = aget fi j) /\
  ((max_fr_dex p = 0 /\ max_fr p = 0 /\ forall j, 5 <= j < I -> mag j <= 0) \/
   (5 <= max_fr_dex p < I /\ max_fr p = mag (max_fr_dex p) /\ 0 < max_fr p /\
    (forall j, 5 <= j < max_fr_dex p -> mag j < max_fr p) /\
    (forall j, 5 <= j < I -> mag j <= max_fr p))).

(** [dex] indexes a largest of the magnitudes [mag] among the bins
    [[lowest, bins)]. *)
Definition peak_among (lowest bins : Z) (mag : Z -> Z) (dex : Z) : Prop :=
  lowest <= dex < bins /\ forall j, lowest <= j < bins -> mag j <= mag dex.

(** A 1024-bin spectrum, zero except for the real parts 2.0 at bin 4 and 1.0
    at bin 7. *)
Definition two_peaks_fr : list Z :=
  aset (aset (replicate 1024 0) 4 (int2fix15 2)) 7 (int2fix15 1).
Definition two_peaks_fi : list Z := replicate 1024 0.

(** ** The ping-pong handshake (combo.c, lines 130-138, 254-307, 597-598) *)

(** The statements of a heartbeat protothread, in program order:
    [PT_SEM_SAFE_WAIT] on the core's own semaphore; [global_counter++], which
    for a [volatile int] is a load and a store; the [printf]; [FFT_count = 0];
    [PT_YIELD_usec(1000000)]; [PT_SEM_SAFE_SIGNAL] of the other core's
    semaphore.  A protothread's [struct pt] holds the statement it resumes at. *)
Inductive stmt : Type := Wait | Load | Store | Print | Reset | Sleep | Signal.

Definition body_order : list stmt := [Wait; Load; Store; Print; Reset; Sleep; Signal].

Definition stmt_eqb (a b : stmt) : bool :=
  match a, b with
  | Wait, Wait | Load, Load | Store, Store | Print, Print
  | Reset, Reset | Sleep, Sleep | Signal, Signal => true
  | _, _ => false
  end.

Definition other (c : core) : core :=
  match c with Core0 => Core1 | Core1 => Core0 end.

(** One line of telemetry: ["Ping: Core 0: %d, ISR core: %d, Max F: % 5d, FFT
    count: %3d"] (["Pong: Core 1: ..."] on core 1). *)
Record line : Type := mkLine {
  line_core : core;
  line_counter : Z;
  line_isr_core : Z;
  line_max_f : Z;
  line_fft_count : Z
}.

(** The globals the two heartbeat threads share, the continuation and the
    register holding the loaded counter of each thread, the register of
    [protothread_fft] while it is between the load and the store of its
    [FFT_count++], and the console. *)
Record handshake : Type := mkHandshake {
  core_0_go : Z;        (* struct pt_sem: its count *)
  core_1_go : Z;
  global_counter : Z;   (* volatile int *)
  FFT_count : Z;        (* volatile int *)
  fr_max : Z;           (* volatile float, as [(int)fr_max] prints it *)
  corenum_0 : Z;        (* volatile int *)
  corenum_1 : Z;
  pt_0 : stmt;          (* protothread_core_0 resumes here *)
  pt_1 : stmt;          (* protothread_core_1 resumes here *)
  reg_0 : Z;
  reg_1 : Z;
  reg_fft : option Z;
  console : list line
}.

(** The semaphore core [c] waits on. *)
Definition go (c : core) (s : handshake) : Z :=
  match c with Core0 => core_0_go s | Core1 => core_1_go s end.
Definition pt (c : core) (s : handshake) : stmt :=
  match c with Core0 => pt_0 s | Core1 => pt_1 s end.
Definition reg (c : core) (s : handshake) : Z :=
  match c with Core0 => reg_0 s | Core1 => reg_1 s end.
Definition isr_core (c : core) (s : handshake) : Z :=
  match c with Core0 => corenum_0 s | Core1 => corenum_1 s end.

Definition set_go (c : core) (v : Z) (s : handshake) : handshake :=
  match c with
  | Core0 => mkHandshake v (core_1_go s) (global_counter s) (FFT_count s) (fr_max s)
               (corenum_0 s) (corenum_1 s) (pt_0 s) (pt_1 s) (reg_0 s) (reg_1 s) (reg_fft s) (console s)
  | Core1 => mkHandshake (core_0_go s) v (global_counter s) (FFT_count s) (fr_max s)
               (corenum_0 s) (corenum_1 s) (pt_0 s) (pt_1 s) (reg_0 s) (reg_1 s) (reg_fft s) (console s)
  end.

Definition set_pt (c : core) (l : stmt) (s : handshake) : handshake :=
  match c with
  | Core0 => mkHandshake (core_0_go s) (core_1_go s) (global_counter s) (FFT_count s) (fr_max s)
               (corenum_0 s) (corenum_1 s) l (pt_1 s) (reg_0 s) (reg_1 s) (reg_fft s) (console s)
  | Core1 => mkHandshake (core_0_go s) (core_1_go s) (global_counter s) (FFT_count s) (fr_max s)
               (corenum_0 s) (corenum_1 s) (pt_0 s) l (reg_0 s) (reg_1 s) (reg_fft s) (console s)
  end.

Definition set_reg (c : core) (v : Z) (s : handshake) : handshake :=
  match c with
  | Core0 => mkHandshake (core_0_go s) (core_1_go s) (global_counter s) (FFT_count s) (fr_max s)
               (corenum_0 s) (corenum_1 s) (pt_0 s) (pt_1 s) v (reg_1 s) (reg_fft s) (console s)
  | Core1 => mkHandshake (core_0_go s) (core_1_go s) (global_counter s) (FFT_count s) (fr_max s)
               (corenum_0 s) (corenum_1 s) (pt_0 s) (pt_1 s) (reg_0 s) v (reg_fft s) (console s)
  end.

Definition set_isr_core (c : core) (v : Z) (s : handshake) : handshake :=
  match c with
  | Core0 => mkHandshake (core_0_go s) (core_1_go s) (global_counter s) (FFT_count s) (fr_max s)
               v (corenum_1 s) (pt_0 s) (pt_1 s) (reg_0 s) (reg_1 s) (reg_fft s) (console s)
  | Core1 => mkHandshake (core_0_go s) (core_1_go s) (global_counter s) (FFT_count s) (fr_max s)
               (corenum_0 s) v (pt_0 s) (pt_1 s) (reg_0 s) (reg_1 s) (reg_fft s) (console s)
  end.

Definition set_global_counter (v : Z) (s : handshake) : handshake :=
  mkHandshake (core_0_go s) (core_1_go s) v (FFT_count s) (fr_max s)
    (corenum_0 s) (corenum_1 s) (pt_0 s) (pt_1 s) (reg_0 s) (reg_1 s) (reg_fft s) (console s).

Definition set_FFT_count (v : Z) (s : handshake) : handshake :=
  mkHandshake (core_0_go s) (core_1_go s) (global_counter s) v (fr_max s)
    (corenum_0 s) (corenum_1 s) (pt_0 s) (pt_1 s) (reg_0 s) (reg_1 s) (reg_fft s) (console s).

Definition set_fr_max (v : Z) (s : handshake) : handshake :=
  mkHandshake (core_0_go s) (core_1_go s) (global_counter s) (FFT_count s) v
    (corenum_0 s) (corenum_1 s) (pt_0 s) (pt_1 s) (reg_0 s) (reg_1 s) (reg_fft s) (console s).

Definition set_reg_fft (v : option Z) (s : handshake) : handshake :=
  mkHandshake (core_0_go s) (core_1_go s) (global_counter s) (FFT_count s) (fr_max s)
    (corenum_0 s) (corenum_1 s) (pt_0 s) (pt_1 s) (reg_0 s) (reg_1 s) v (console s).

Definition printf (l : line) (s : handshake) : handshake :=
  mkHandshake (core_0_go s) (core_1_go s) (global_counter s) (FFT_count s) (fr_max s)
    (corenum_0 s) (corenum_1 s) (pt_0 s) (pt_1 s) (reg_0 s) (reg_1 s) (reg_fft s) (console s ++ [l]).

(** What can happen next: a heartbeat thread runs the statement it stands at;
    [protothread_fft] loads [FFT_count], stores it incremented (line 520:
    [FFT_count++] on a [volatile int] is a load and a store, like
    [global_counter++]) or, between two increments, stores [fr_max] (line
    539); a timer callback stores its core number (lines 185 and 235).  Any
    interleaving of the three threads and the callbacks is allowed, also those
    the cooperative scheduler of core 0 rules out between [protothread_fft]
    and [protothread_core_0]. *)
Inductive event : Type :=
| Beat (c : core) (a : stmt)
| FftLoad
| FftStore
| FftMax (f : Z)
| Isr (c : core).

(** Modelled from the spec: [PT_SEM_SAFE_WAIT] and [PT_SEM_SAFE_SIGNAL] of
    pt_cornell_rp2040_v1.h, which is not among the sources.  A wait suspends
    the thread until the semaphore is signaled and takes the signal; a signal
    adds one to the semaphore. *)
Definition PT_SEM_SAFE_WAIT (c : core) (s : handshake) : option handshake :=
  if 0 <? go c s then Some (set_go c (go c s - 1) s) else None.
Definition PT_SEM_SAFE_SIGNAL (c : core) (s : handshake) : handshake :=
  set_go c (go c s + 1) s.

(** The state after event [e], when [e] can happen in [s]. *)
Definition fire (e : event) (s : handshake) : option handshake :=
  match e with
  | Beat c a =>
      if stmt_eqb (pt c s) a then
        match a with
        | Wait => set_pt c Load <$> PT_SEM_SAFE_WAIT c s
        | Load => Some (set_pt c Store (set_reg c (global_counter s) s))
        | Store => Some (set_pt c Print (set_global_counter (to_int32 (reg c s + 1)) s))
        | Print =>
            Some (set_pt c Reset
                    (printf (mkLine c (global_counter s) (isr_core c s) (fr_max s)
                               (FFT_count s)) s))
        | Reset => Some (set_pt c Sleep (set_FFT_count 0 s))
        | Sleep => Some (set_pt c Signal s)
        | Signal => Some (set_pt c Wait (PT_SEM_SAFE_SIGNAL (other c) s))
        end
      else None
  | FftLoad =>
      match reg_fft s with
      | None => Some (set_reg_fft (Some (FFT_count s)) s)
      | Some _ => None
      end
  | FftStore =>
      match reg_fft s with
      | Some r => Some (set_reg_fft None (set_FFT_count (to_int32 (r + 1)) s))
      | None => None
      end
  | FftMax f =>
      match reg_fft s with
      | None => Some (set_fr_max f s)
      | Some _ => None
      end
  | Isr c => Some (set_isr_core c (get_core_num c) s)
  end.

(** The state a sequence of events leads to, if each can happen in turn. *)
Fixpoint run (tr : list event) (s : handshake) : option handshake :=
  match tr with
  | [] => Some s
  | e :: tr' => match fire e s with Some s' => run tr' s' | None => None end
  end.

(** [main]: [PT_SEM_SAFE_INIT(&core_0_go, 1)], [PT_SEM_SAFE_INIT(&core_1_go, 0)],
    zeroed globals, both threads at their first statement. *)
Definition handshake_boot : handshake :=
  mkHandshake 1 0 0 0 0 0 0 Wait Wait 0 0 None [].

(** The heartbeat statements of a trace, each with the core that ran it. *)
Definition beats (tr : list event) : list (core * stmt) :=
  omap (fun e => match e with Beat c a => Some (c, a) | _ => None end) tr.

(** How often statement [a] was run. *)
Definition times (a : stmt) (tr : list event) : nat :=
  length (filter (fun b => stmt_eqb (snd b) a = true) (beats tr)).

(** Whose turn the [i]-th heartbeat body is: core 0 first, then alternating. *)
Definition turn (i : nat) : core := if Nat.even i then Core0 else Core1.

(** One whole heartbeat body on core [c], and [q] bodies, each core in turn. *)
Definition heartbeat_body (c : core) : list (core * stmt) := map (pair c) body_order.
Definition rounds (q : nat) : list (core * stmt) :=
  flat_map (fun i => heartbeat_body (turn i)) (seq 0 q).

(** The [r]-th statement of a body. *)
Definition stmt_at (r : nat) : stmt := nth r body_order Wait.

(** What relates a trace to the state it leads to: [q] whole bodies are
    done and [r] statements of the next one, which core [turn q] runs. *)
Definition ping_pong_invariant (tr : list event) (s : handshake) : Prop :=
  exists q r, (r < 7)%nat /\
    beats tr = rounds q ++ take r (heartbeat_body (turn q)) /\
    pt (turn q) s = stmt_at r /\ pt (other (turn q)) s = Wait /\
    go (turn q) s = (if (r =? 0)%nat then 1 else 0) /\ go (other (turn q)) s = 0 /\
    global_counter s = to_int32 (Z.of_nat (q + (if (3 <=? r)%nat then 1 else 0))) /\
    (r = 2%nat -> reg (turn q) s = global_counter s) /\
    length (console s) = (q + (if (4 <=? r)%nat then 1 else 0))%nat /\
    (forall i l, console s !! i = Some l ->
       line_core l = turn i /\ line_counter l = to_int32 (Z.of_nat i + 1)).

(** What a trace says of the transform counter, read off the events alone:
    the increments stored since the last [FFT_count = 0], whether an increment
    is under way (loaded, not yet stored), and whether a reset ever fell
    between the load and the store of an increment. *)
Definition fft_step (v : nat * bool * bool) (e : event) : nat * bool * bool :=
  let '(n, pending, torn) := v in
  match e with
  | FftLoad => (n, true, torn)
  | FftStore => (S n, false, torn)
  | Beat _ Reset => (O, pending, torn || pending)
  | _ => v
  end.
Definition fft_view (tr : list event) : nat * bool * bool :=
  foldl fft_step (O, false, false) tr.
Definition transforms_since_reset (tr : list event) : nat := fst (fst (fft_view tr)).
Definition increment_pending (tr : list event) : bool := snd (fst (fft_view tr)).
Definition torn (tr : list event) : bool := snd (fft_view tr).

(** The frequency [protothread_fft] published last, 0 before the first. *)
Definition published (tr : list event) : Z :=
  foldl (fun f e => match e with FftMax f' => f' | _ => f end) 0 tr.

(** One round trip: core 0's body, then core 1's, with a transform published
    and a timer callback in between. *)
Definition one_round_trip : list event :=
  map (Beat Core0) [Wait; Load; Store] ++ [FftLoad; FftStore; FftMax 1953; Isr Core1]
  ++ map (Beat Core0) [Print; Reset; Sleep; Signal]
  ++ map (Beat Core1) body_order.

(** A 256-entry table of full-scale fix15 values (a square wave between
    +2047.0 and -2047.0), used where a statement is run on concrete data. *)
Definition square_table : list Z :=
  replicate 128 (2047 * 32768) ++ replicate 128 (- (2047 * 32768)).

(** The state at the end of the first beep: SILENT, counter 0. *)
Definition end_of_first_beep : dds :=
  Nat.iter (Z.to_nat BEEP_DURATION) (repeating_timer_callback_core_0 square_table) boot.

(** ** The rest of [FFTfix] and of an FFT epoch (combo.c, lines 420-460, 500-553) *)

(** [for (i = lo; i < hi; i += step)]: at most [fuel] rounds. *)
Fixpoint for_stride {St : Type} (fuel : nat) (i hi step : Z)
    (body : Z -> St -> St) (s : St) : St :=
  match fuel with
  | O => s
  | S fuel' =>
      if i <? hi then for_stride fuel' (i + step) hi step body (body i s) else s
  end.

(** The body of the innermost loop (lines 444-455): the elements [i] and
    [j = i + L] are combined with the halved trigonometric values [wr], [wi]. *)
Definition butterfly (L wr wi i : Z) (a : list Z * list Z) : list Z * list Z :=
  (* j gets the index of the FFT element being combined with i *)
  let j := i + L in
  (* compute the trig terms *)
  let tr := to_int32 (multfix15 wr (aget (fst a) j) - multfix15 wi (aget (snd a) j)) in
  let ti := to_int32 (multfix15 wr (aget (snd a) j) + multfix15 wi (aget (fst a) j)) in
  (* divide ith index elements by two *)
  let qr := Z.shiftr (aget (fst a) i) 1 in
  let qi := Z.shiftr (aget (snd a) i) 1 in
  (* compute the new values at each index *)
  let fr := aset (fst a) j (to_int32 (qr - tr)) in
  let fi := aset (snd a) j (to_int32 (qi - ti)) in
  let fr := aset fr i (to_int32 (qr + tr)) in
  let fi := aset fi i (to_int32 (qi + ti)) in
  (fr, fi).

Section Transform.

Variable LOG2_NUM_SAMPLES : Z.

(** [fix15 Sinewave[NUM_SAMPLES]] and [fix15 window[NUM_SAMPLES]], filled by
    [main] from [sin] and [cos] in floating point, read-only afterwards. *)
Variable Sinewave : list Z.
Variable window : list Z.

(** The body of the loop over [m] (lines 434-457), its inner loop run on at
    most [inner] rounds. *)
Definition butterfly_group (inner : nat) (L k m : Z) (a : list Z * list Z)
    : list Z * list Z :=
  (* Lookup the trig values for that element *)
  let j := to_int32 (Z.shiftl m k) in
  let wr := aget Sinewave (j + Z.quot (NUM_SAMPLES LOG2_NUM_SAMPLES) 4) in
  let wi := to_int32 (- aget Sinewave j) in
  let wr := Z.shiftr wr 1 in
  let wi := Z.shiftr wi 1 in
  for_stride inner m (NUM_SAMPLES LOG2_NUM_SAMPLES) (to_int32 (Z.shiftl L 1))
    (butterfly L wr wi) a.

(** [while (L < NUM_SAMPLES) { ... --k ; L = istep ; }] on at most [passes]
    passes. *)
Fixpoint danielson_lanczos (inner passes : nat) (L k : Z) (a : list Z * list Z)
    : list Z * list Z :=
  match passes with
  | O => a
  | S passes' =>
      if L <? NUM_SAMPLES LOG2_NUM_SAMPLES then
        let istep := to_int32 (Z.shiftl L 1) in
        let a := for_loop (Z.to_nat L) 0 (butterfly_group inner L k) a in
        danielson_lanczos inner passes' istep (k - 1) a
      else a
  end.

(** [FFTfix] (lines 378-461): the bit reversal, then the passes from [L = 1]
    and [k = LOG2_NUM_SAMPLES - 1].  [NUM_SAMPLES] rounds are enough for every
    inner loop and [LOG2_NUM_SAMPLES] passes for the outer one
    ([FFTfix_enough_fuel]). *)
Definition FFTfix (fr fi : list Z) : list Z * list Z :=
  danielson_lanczos (Z.to_nat (NUM_SAMPLES LOG2_NUM_SAMPLES))
    (Z.to_nat LOG2_NUM_SAMPLES) 1 (LOG2_NUM_SAMPLES - 1)
    (FFTfix_bit_reversal LOG2_NUM_SAMPLES fr fi).

(** Lines 506-509: copy and window the samples into [fr], clear [fi]. *)
Definition window_copy (sample_array fr fi : list Z) : list Z * list Z :=
  for_loop (Z.to_nat (NUM_SAMPLES LOG2_NUM_SAMPLES)) 0
    (fun i a =>
       (aset (fst a) i (multfix15 (int2fix15 (aget sample_array i)) (aget window i)),
        aset (snd a) i 0))
    (fr, fi).

(** One pass of the loop of [protothread_fft] as far as the peak (lines
    506-536): windowed copy, transform, magnitudes and peak search.  [fr] and
    [fi] are the arrays as the previous pass left them. *)
Definition fft_epoch (sample_array fr fi : list Z) : peak :=
  let a := window_copy sample_array fr fi in
  let a := FFTfix (fst a) (snd a) in
  peak_search LOG2_NUM_SAMPLES (fst a) (snd a).

End Transform.

(** The height of a spectrum bar (line 551):
    [fix2int15(multfix15(fr[i], int2fix15(36)))]. *)
Definition bar_height (mag : Z) : Z := fix2int15 (multfix15 mag (int2fix15 36)).

(** Every cell of an array is zero. *)
Definition all_zero (a : list Z) : Prop := Forall (fun v => v = 0) a.

(** The bound [main] gives the DDS sine table: [float2fix15(2047*sin(...))]. *)
Definition sine_bounded (tbl : list Z) : Prop :=
  Forall (fun v => - (2047 * 32768) <= v <= 2047 * 32768) tbl.

(** Every cell of an array is at most [B] in absolute value. *)
Definition cells_within (B : Z) (a : list Z) : Prop :=
  Forall (fun v => Z.abs v <= B) a.

(** What one pass of butterflies can make of a bound [B] on the cells: a
    halved cell plus two halved products, each rounded. *)
Definition butterfly_growth (B : Z) : Z := 3 * ((B + 1) / 2).

(** ** The tables of [main] (combo.c, lines 667-670)

    [Sinewave[ii] = float2fix15(sin(6.283 * ((float) ii) / (float)NUM_SAMPLES))]
    and
    [window[ii] = float2fix15(0.5 * (1.0 - cos(6.283 * ((float) ii) / ((float)NUM_SAMPLES))))]
    for [ii] from 0 to 1023. The argument, the sine and the cosine are
    double-precision numbers, and [float2fix15(a)] is [(fix15)(a * 32768.0)],
    which drops the fraction. The model has no floating point: the 1024 values
    each loop stores are listed. No product [a * 32768.0] beyond entry 0 lies
    within 0.00003 of a whole number, so the values do not hang on the last
    bits of the library's [sin] and [cos]. *)
Definition Sinewave_table : list Z :=
  [
   0; 201; 402; 603; 804; 1005; 1206; 1406; 1607; 1808; 2009; 2209;
   2410; 2610; 2811; 3011; 3211; 3411; 3611; 3811; 4011; 4210; 4409; 4608;
   4807; 5006; 5205; 5403; 5601; 5799; 5997; 6195; 6392; 6589; 6786; 6982;
   7179; 7375; 7571; 7766; 7961; 8156; 8351; 8545; 8739; 8932; 9126; 9319;
   9511; 9703; 9895; 10087; 10278; 10469; 10659; 10849; 11038; 11227; 11416; 11604;
   11792; 11980; 12166; 12353; 12539; 12724; 12909; 13094; 13278; 13462; 13645; 13827;
   14009; 14191; 14372; 14552; 14732; 14911; 15090; 15268; 15446; 15623; 15799; 15975;
   16150; 16325; 16499; 16672; 16845; 17017; 17189; 17360; 17530; 17699; 17868; 18036;
   18204; 18371; 18537; 18702; 18867; 19031; 19194; 19357; 19519; 19680; 19840; 20000;
   20159; 20317; 20474; 20631; 20787; 20942; 21096; 21250; 21402; 21554; 21705; 21855;
   22005; 22153; 22301; 22448; 22594; 22739; 22883; 23027; 23169; 23311; 23452; 23592;
   23731; 23869; 24007; 24143; 24278; 24413; 24547; 24679; 24811; 24942; 25072; 25201;
   25329; 25456; 25582; 25707; 25831; 25955; 26077; 26198; 26318; 26438; 26556; 26673;
   26790; 26905; 27019; 27132; 27245; 27356; 27466; 27575; 27683; 27790; 27896; 28001;
   28105; 28208; 28310; 28410; 28510; 28609; 28706; 28802; 28898; 28992; 29085; 29177;
   29268; 29358; 29447; 29534; 29621; 29706; 29791; 29874; 29956; 30037; 30117; 30195;
   30273; 30349; 30424; 30498; 30571; 30643; 30714; 30783; 30852; 30919; 30985; 31050;
   31113; 31176; 31237; 31297; 31356; 31414; 31471; 31526; 31580; 31633; 31685; 31736;
   31785; 31833; 31880; 31926; 31971; 32014; 32057; 32098; 32138; 32176; 32214; 32250;
   32285; 32319; 32351; 32383; 32413; 32442; 32469; 32496; 32521; 32545; 32568; 32589;
   32610; 32629; 32647; 32663; 32679; 32693; 32706; 32717; 32728; 32737; 32745; 32752;
   32758; 32762; 32765; 32767; 32767; 32767; 32765; 32762; 32758; 32752; 32745; 32737;
   32728; 32718; 32706; 32693; 32679; 32663; 32647; 32629; 32610; 32590; 32568; 32545;
   32521; 32496; 32470; 32442; 32413; 32383; 32352; 32319; 32285; 32250; 32214; 32177;
   32138; 32098; 32057; 32015; 31972; 31927; 31881; 31834; 31786; 31736; 31686; 31634;
   31581; 31527; 31471; 31415; 31357; 31298; 31238; 31177; 31114; 31051; 30986; 30920;
   30853; 30784; 30715; 30644; 30572; 30500; 30425; 30350; 30274; 30196; 30118; 30038;
   29957; 29875; 29792; 29708; 29622; 29536; 29448; 29359; 29270; 29179; 29087; 28993;
   28899; 28804; 28708; 28610; 28512; 28412; 28311; 28209; 28107; 28003; 27898; 27792;
   27685; 27577; 27468; 27357; 27246; 27134; 27021; 26907; 26791; 26675; 26558; 26440;
   26320; 26200; 26079; 25957; 25833; 25709; 25584; 25458; 25331; 25203; 25074; 24944;
   24813; 24681; 24549; 24415; 24280; 24145; 24009; 23871; 23733; 23594; 23454; 23313;
   23172; 23029; 22886; 22741; 22596; 22450; 22303; 22155; 22007; 21857; 21707; 21556;
   21404; 21252; 21098; 20944; 20789; 20633; 20477; 20319; 20161; 20002; 19843; 19682;
   19521; 19359; 19197; 19034; 18870; 18705; 18539; 18373; 18206; 18039; 17871; 17702;
   17532; 17362; 17191; 17020; 16848; 16675; 16502; 16328; 16153; 15978; 15802; 15626;
   15448; 15271; 15093; 14914; 14735; 14555; 14374; 14193; 14012; 13830; 13647; 13464;
   13281; 13097; 12912; 12727; 12542; 12356; 12169; 11982; 11795; 11607; 11419; 11230;
   11041; 10852; 10662; 10472; 10281; 10090; 9898; 9706; 9514; 9322; 9129; 8935;
   8742; 8548; 8354; 8159; 7964; 7769; 7574; 7378; 7182; 6985; 6789; 6592;
   6395; 6198; 6000; 5802; 5604; 5406; 5208; 5009; 4810; 4611; 4412; 4213;
   4014; 3814; 3614; 3414; 3214; 3014; 2814; 2613; 2413; 2212; 2012; 1811;
   1610; 1409; 1209; 1008; 807; 606; 405; 204; 3; (-198); (-399); (-600);
   (-801); (-1002); (-1203); (-1403); (-1604); (-1805); (-2006); (-2206); (-2407); (-2607); (-2808); (-3008);
   (-3208); (-3408); (-3608); (-3808); (-4008); (-4207); (-4406); (-4605); (-4804); (-5003); (-5202); (-5400);
   (-5598); (-5796); (-5994); (-6192); (-6389); (-6586); (-6783); (-6980); (-7176); (-7372); (-7568); (-7763);
   (-7958); (-8153); (-8348); (-8542); (-8736); (-8930); (-9123); (-9316); (-9508); (-9701); (-9892); (-10084);
   (-10275); (-10466); (-10656); (-10846); (-11036); (-11225); (-11413); (-11602); (-11789); (-11977); (-12164); (-12350);
   (-12536); (-12722); (-12907); (-13091); (-13275); (-13459); (-13642); (-13824); (-14006); (-14188); (-14369); (-14549);
   (-14729); (-14909); (-15087); (-15266); (-15443); (-15620); (-15797); (-15972); (-16148); (-16322); (-16496); (-16670);
   (-16843); (-17015); (-17186); (-17357); (-17527); (-17697); (-17866); (-18034); (-18201); (-18368); (-18534); (-18700);
   (-18865); (-19029); (-19192); (-19355); (-19516); (-19678); (-19838); (-19998); (-20157); (-20315); (-20472); (-20629);
   (-20784); (-20939); (-21094); (-21247); (-21400); (-21552); (-21703); (-21853); (-22002); (-22151); (-22299); (-22446);
   (-22592); (-22737); (-22881); (-23025); (-23167); (-23309); (-23450); (-23590); (-23729); (-23867); (-24005); (-24141);
   (-24276); (-24411); (-24545); (-24677); (-24809); (-24940); (-25070); (-25199); (-25327); (-25454); (-25580); (-25705);
   (-25830); (-25953); (-26075); (-26196); (-26317); (-26436); (-26554); (-26672); (-26788); (-26903); (-27017); (-27131);
   (-27243); (-27354); (-27464); (-27573); (-27682); (-27789); (-27895); (-28000); (-28103); (-28206); (-28308); (-28409);
   (-28509); (-28607); (-28705); (-28801); (-28896); (-28991); (-29084); (-29176); (-29267); (-29357); (-29445); (-29533);
   (-29620); (-29705); (-29789); (-29873); (-29955); (-30036); (-30115); (-30194); (-30272); (-30348); (-30423); (-30497);
   (-30570); (-30642); (-30713); (-30782); (-30851); (-30918); (-30984); (-31049); (-31112); (-31175); (-31236); (-31296);
   (-31355); (-31413); (-31470); (-31525); (-31579); (-31632); (-31684); (-31735); (-31784); (-31833); (-31880); (-31926);
   (-31970); (-32014); (-32056); (-32097); (-32137); (-32176); (-32213); (-32249); (-32284); (-32318); (-32351); (-32382);
   (-32412); (-32441); (-32469); (-32495); (-32521); (-32545); (-32567); (-32589); (-32609); (-32628); (-32646); (-32663);
   (-32678); (-32693); (-32706); (-32717); (-32728); (-32737); (-32745); (-32752); (-32758); (-32762); (-32765); (-32767);
   (-32767); (-32767); (-32765); (-32762); (-32758); (-32752); (-32745); (-32737); (-32728); (-32718); (-32706); (-32693);
   (-32679); (-32664); (-32647); (-32629); (-32610); (-32590); (-32568); (-32546); (-32522); (-32496); (-32470); (-32442);
   (-32414); (-32383); (-32352); (-32320); (-32286); (-32251); (-32215); (-32177); (-32139); (-32099); (-32058); (-32016);
   (-31972); (-31928); (-31882); (-31835); (-31787); (-31737); (-31687); (-31635); (-31582); (-31528); (-31472); (-31416);
   (-31358); (-31299); (-31239); (-31178); (-31115); (-31052); (-30987); (-30921); (-30854); (-30785); (-30716); (-30645);
   (-30574); (-30501); (-30427); (-30351); (-30275); (-30198); (-30119); (-30039); (-29958); (-29876); (-29793); (-29709);
   (-29624); (-29537); (-29449); (-29361); (-29271); (-29180); (-29088); (-28995); (-28901); (-28805); (-28709); (-28612);
   (-28513); (-28413); (-28313); (-28211); (-28108); (-28004); (-27899); (-27793); (-27686); (-27578); (-27469); (-27359);
   (-27248); (-27136); (-27023); (-26908); (-26793); (-26677); (-26560); (-26441); (-26322); (-26202); (-26081); (-25958);
   (-25835); (-25711); (-25586); (-25460); (-25333); (-25205); (-25076); (-24946); (-24815); (-24683); (-24551); (-24417);
   (-24283); (-24147); (-24011); (-23873); (-23735); (-23596); (-23456); (-23315); (-23174); (-23031); (-22888); (-22743);
   (-22598); (-22452); (-22305); (-22158); (-22009); (-21860); (-21710); (-21559); (-21407); (-21254); (-21101); (-20946);
   (-20791); (-20636); (-20479); (-20322); (-20164); (-20005); (-19845); (-19685); (-19524); (-19362); (-19199); (-19036);
   (-18872); (-18707); (-18542); (-18376); (-18209); (-18042); (-17873); (-17704); (-17535); (-17365); (-17194); (-17022);
   (-16850); (-16678); (-16504); (-16330); (-16156); (-15980); (-15805); (-15628); (-15451); (-15274); (-15095); (-14917);
   (-14737); (-14558); (-14377); (-14196); (-14015); (-13833); (-13650); (-13467); (-13284); (-13100); (-12915); (-12730);
   (-12545); (-12359); (-12172); (-11985); (-11798); (-11610); (-11422); (-11233); (-11044); (-10855); (-10665); (-10474);
   (-10284); (-10093); (-9901); (-9709); (-9517); (-9325); (-9132); (-8938); (-8745); (-8551); (-8357); (-8162);
   (-7967); (-7772); (-7577); (-7381); (-7185); (-6988); (-6792); (-6595); (-6398); (-6201); (-6003); (-5805);
   (-5607); (-5409); (-5211); (-5012); (-4813); (-4614); (-4415); (-4216); (-4017); (-3817); (-3617); (-3417);
   (-3217); (-3017); (-2817); (-2617); (-2416); (-2215); (-2015); (-1814); (-1613); (-1413); (-1212); (-1011);
   (-810); (-609); (-408); (-207) ].

Definition window_table : list Z :=
  [
   0; 0; 1; 2; 4; 7; 11; 15; 19; 24; 30; 37;
   44; 52; 60; 69; 78; 89; 99; 111; 123; 135; 149; 162;
   177; 192; 208; 224; 241; 258; 276; 295; 314; 334; 355; 376;
   398; 420; 443; 466; 490; 515; 541; 566; 593; 620; 648; 676;
   705; 734; 764; 795; 826; 858; 891; 924; 957; 991; 1026; 1061;
   1097; 1134; 1171; 1208; 1247; 1285; 1325; 1365; 1405; 1446; 1488; 1530;
   1572; 1616; 1660; 1704; 1749; 1794; 1840; 1887; 1934; 1982; 2030; 2079;
   2128; 2178; 2228; 2279; 2330; 2382; 2435; 2488; 2541; 2595; 2650; 2705;
   2761; 2817; 2873; 2930; 2988; 3046; 3105; 3164; 3224; 3284; 3344; 3405;
   3467; 3529; 3592; 3655; 3718; 3782; 3847; 3912; 3977; 4043; 4109; 4176;
   4244; 4311; 4379; 4448; 4517; 4587; 4657; 4727; 4798; 4869; 4941; 5013;
   5086; 5159; 5232; 5306; 5380; 5455; 5530; 5606; 5682; 5758; 5835; 5912;
   5989; 6067; 6145; 6224; 6303; 6383; 6462; 6543; 6623; 6704; 6785; 6867;
   6949; 7031; 7114; 7197; 7281; 7364; 7448; 7533; 7618; 7703; 7788; 7874;
   7960; 8046; 8133; 8220; 8307; 8395; 8483; 8571; 8660; 8748; 8838; 8927;
   9017; 9107; 9197; 9287; 9378; 9469; 9560; 9652; 9744; 9836; 9928; 10020;
   10113; 10206; 10299; 10393; 10486; 10580; 10674; 10769; 10863; 10958; 11053; 11148;
   11244; 11339; 11435; 11531; 11627; 11723; 11820; 11916; 12013; 12110; 12207; 12304;
   12402; 12499; 12597; 12695; 12793; 12891; 12990; 13088; 13186; 13285; 13384; 13483;
   13582; 13681; 13780; 13879; 13979; 14078; 14178; 14277; 14377; 14477; 14577; 14677;
   14777; 14877; 14977; 15077; 15177; 15278; 15378; 15478; 15579; 15679; 15780; 15880;
   15981; 16081; 16182; 16282; 16383; 16483; 16584; 16684; 16785; 16885; 16986; 17086;
   17187; 17287; 17387; 17488; 17588; 17688; 17788; 17889; 17989; 18089; 18189; 18288;
   18388; 18488; 18588; 18687; 18787; 18886; 18985; 19085; 19184; 19283; 19382; 19480;
   19579; 19678; 19776; 19874; 19972; 20070; 20168; 20266; 20364; 20461; 20558; 20655;
   20752; 20849; 20946; 21042; 21139; 21235; 21331; 21426; 21522; 21617; 21713; 21807;
   21902; 21997; 22091; 22185; 22279; 22373; 22466; 22560; 22653; 22745; 22838; 22930;
   23022; 23114; 23205; 23297; 23388; 23478; 23569; 23659; 23749; 23839; 23928; 24017;
   24106; 24195; 24283; 24371; 24458; 24546; 24633; 24719; 24806; 24892; 24978; 25063;
   25148; 25233; 25317; 25401; 25485; 25569; 25652; 25734; 25817; 25899; 25980; 26062;
   26143; 26223; 26303; 26383; 26463; 26542; 26620; 26699; 26777; 26854; 26931; 27008;
   27084; 27160; 27236; 27311; 27385; 27460; 27534; 27607; 27680; 27753; 27825; 27897;
   27968; 28039; 28109; 28179; 28249; 28318; 28387; 28455; 28522; 28590; 28657; 28723;
   28789; 28854; 28919; 28984; 29048; 29111; 29174; 29237; 29299; 29361; 29422; 29482;
   29543; 29602; 29661; 29720; 29778; 29836; 29893; 29950; 30006; 30061; 30116; 30171;
   30225; 30278; 30331; 30384; 30436; 30487; 30538; 30589; 30638; 30688; 30736; 30785;
   30832; 30879; 30926; 30972; 31018; 31062; 31107; 31151; 31194; 31237; 31279; 31320;
   31361; 31402; 31442; 31481; 31520; 31558; 31596; 31633; 31669; 31705; 31740; 31775;
   31809; 31843; 31876; 31908; 31940; 31971; 32002; 32032; 32062; 32091; 32119; 32147;
   32174; 32200; 32226; 32251; 32276; 32300; 32324; 32347; 32369; 32391; 32412; 32432;
   32452; 32472; 32490; 32509; 32526; 32543; 32559; 32575; 32590; 32604; 32618; 32631;
   32644; 32656; 32668; 32678; 32688; 32698; 32707; 32715; 32723; 32730; 32737; 32742;
   32748; 32752; 32756; 32760; 32763; 32765; 32766; 32767; 32767; 32767; 32766; 32765;
   32763; 32760; 32756; 32752; 32748; 32743; 32737; 32730; 32723; 32716; 32707; 32698;
   32689; 32679; 32668; 32656; 32644; 32632; 32619; 32605; 32590; 32575; 32560; 32543;
   32527; 32509; 32491; 32472; 32453; 32433; 32413; 32391; 32370; 32347; 32325; 32301;
   32277; 32252; 32227; 32201; 32174; 32147; 32120; 32091; 32062; 32033; 32003; 31972;
   31941; 31909; 31877; 31844; 31810; 31776; 31741; 31706; 31670; 31634; 31597; 31559;
   31521; 31482; 31443; 31403; 31363; 31322; 31280; 31238; 31195; 31152; 31108; 31064;
   31019; 30973; 30927; 30881; 30834; 30786; 30738; 30689; 30640; 30590; 30540; 30489;
   30437; 30386; 30333; 30280; 30227; 30173; 30118; 30063; 30007; 29951; 29895; 29837;
   29780; 29722; 29663; 29604; 29544; 29484; 29424; 29362; 29301; 29239; 29176; 29113;
   29050; 28986; 28921; 28856; 28791; 28725; 28659; 28592; 28525; 28457; 28389; 28320;
   28251; 28181; 28111; 28041; 27970; 27899; 27827; 27755; 27682; 27609; 27536; 27462;
   27388; 27313; 27238; 27162; 27087; 27010; 26934; 26856; 26779; 26701; 26623; 26544;
   26465; 26386; 26306; 26226; 26145; 26064; 25983; 25901; 25819; 25737; 25654; 25571;
   25488; 25404; 25320; 25235; 25151; 25066; 24980; 24894; 24808; 24722; 24635; 24548;
   24461; 24373; 24285; 24197; 24109; 24020; 23931; 23841; 23752; 23662; 23572; 23481;
   23390; 23299; 23208; 23117; 23025; 22933; 22841; 22748; 22655; 22562; 22469; 22376;
   22282; 22188; 22094; 22000; 21905; 21810; 21715; 21620; 21525; 21429; 21334; 21238;
   21142; 21045; 20949; 20852; 20755; 20658; 20561; 20464; 20367; 20269; 20171; 20073;
   19975; 19877; 19779; 19681; 19582; 19483; 19385; 19286; 19187; 19088; 18988; 18889;
   18790; 18690; 18591; 18491; 18391; 18291; 18192; 18092; 17992; 17892; 17791; 17691;
   17591; 17491; 17390; 17290; 17190; 17089; 16989; 16888; 16788; 16687; 16587; 16486;
   16386; 16285; 16185; 16084; 15984; 15883; 15783; 15682; 15582; 15481; 15381; 15281;
   15181; 15080; 14980; 14880; 14780; 14680; 14580; 14480; 14380; 14281; 14181; 14081;
   13982; 13882; 13783; 13684; 13585; 13486; 13387; 13288; 13189; 13091; 12993; 12894;
   12796; 12698; 12600; 12502; 12405; 12307; 12210; 12113; 12016; 11919; 11823; 11726;
   11630; 11534; 11438; 11342; 11246; 11151; 11056; 10961; 10866; 10772; 10677; 10583;
   10489; 10396; 10302; 10209; 10116; 10023; 9931; 9838; 9746; 9655; 9563; 9472;
   9381; 9290; 9199; 9109; 9019; 8930; 8840; 8751; 8662; 8574; 8486; 8398;
   8310; 8223; 8136; 8049; 7963; 7877; 7791; 7705; 7620; 7535; 7451; 7367;
   7283; 7200; 7117; 7034; 6952; 6870; 6788; 6707; 6626; 6545; 6465; 6385;
   6306; 6227; 6148; 6070; 5992; 5914; 5837; 5760; 5684; 5608; 5532; 5457;
   5383; 5308; 5234; 5161; 5088; 5015; 4943; 4871; 4800; 4729; 4659; 4589;
   4519; 4450; 4382; 4313; 4246; 4178; 4111; 4045; 3979; 3914; 3849; 3784;
   3720; 3657; 3594; 3531; 3469; 3407; 3346; 3286; 3225; 3166; 3107; 3048;
   2990; 2932; 2875; 2818; 2762; 2707; 2652; 2597; 2543; 2489; 2436; 2384;
   2332; 2280; 2230; 2179; 2129; 2080; 2031; 1983; 1935; 1888; 1842; 1796;
   1750; 1705; 1661; 1617; 1574; 1531; 1489; 1447; 1406; 1366; 1326; 1287;
   1248; 1210; 1172; 1135; 1098; 1062; 1027; 992; 958; 925; 892; 859;
   827; 796; 765; 735; 706; 677; 649; 621; 594; 567; 541; 516;
   491; 467; 444; 421; 398; 376; 355; 335; 315; 296; 277; 259;
   241; 224; 208; 192; 177; 163; 149; 136; 123; 111; 100; 89;
   79; 69; 60; 52; 44; 37; 31; 25; 19; 15; 11; 7;
   5; 2; 1; 0 ].

(** Modelled from the spec: the "synthetic buffer containing a pure sine at
    bin k". Sample [i] is the mid-scale count 128 plus [amplitude] times the
    sine of [2 pi k i / 1024], rounded to the nearest count; [amplitude] is a
    fix15 number of counts and the sine is read off the program's own table,
    whose period is the 1024 samples of the buffer (the table takes 6.283 for
    [2 pi], which moves a sample by less than 0.03 counts before rounding). *)
Definition pure_tone (amplitude k : Z) : list Z :=
  map (fun i =>
         128 + Z.shiftr (amplitude * aget Sinewave_table ((k * i) mod 1024) + 2 ^ 29) 30)
      (seqZ 0 1024).

(** [#define Fs_FFT 10000.0] and line 538,
    [max_frequency = max_fr_dex * (Fs_FFT / NUM_SAMPLES)]: the quotient is
    9.765625 and its product with an index below 512 has at most 19
    significant bits, so the floating-point operations are exact and the
    rationals give the same number. *)
Definition Fs_FFT : Q := 10000.
Definition max_frequency (dex : Z) : Q := inject_Z dex * (Fs_FFT / inject_Z (NUM_SAMPLES 10)).

(** ** Machine words: an executable mirror of the FFT epoch

    The same epoch on 63-bit machine integers and primitive arrays, operation
    by operation; it is proved to compute what the model computes
    ([fft_epoch_w_correct]) and serves to evaluate the model on whole
    families of inputs. *)

(** A word read as a signed integer. *)
Definition sem (x : int) : Z := Sint63.to_Z x.

(** [to_int32]: sign extension from bit 31. *)
Definition wrap32 (x : int) : int :=
  PrimInt63.asr (PrimInt63.lsl x 31%uint63) 31%uint63.

(** [multfix15] *)
Definition mul15 (a b : int) : int :=
  wrap32 (PrimInt63.asr (PrimInt63.mul a b) 15%uint63).

(** [abs_int] *)
Definition abs32 (x : int) : int :=
  wrap32 (if PrimInt63.ltsb x 0%uint63 then PrimInt63.sub 0%uint63 x else x).

(** A write whose value is computed before it is stored. *)
Definition put (t : array int) (i v : int) : array int :=
  if PrimInt63.eqb v v then PArray.set t i v else t.

(** [for_loop] and [for_stride] with a word for the index. *)
Fixpoint word_loop {St : Type} (n : nat) (i : int) (body : int -> St -> St) (s : St) : St :=
  match n with
  | O => s
  | S n' => word_loop n' (PrimInt63.add i 1%uint63) body (body i s)
  end.

Fixpoint word_stride {St : Type} (fuel : nat) (i hi step : int)
    (body : int -> St -> St) (s : St) : St :=
  match fuel with
  | O => s
  | S fuel' =>
      if PrimInt63.ltsb i hi
      then word_stride fuel' (PrimInt63.add i step) hi step body (body i s)
      else s
  end.

(** The array holding the cells of a list, from index [i] on. *)
Fixpoint fill (l : list Z) (i : int) (t : array int) : array int :=
  match l with
  | [] => t
  | x :: l' => fill l' (PrimInt63.add i 1%uint63) (put t i (Uint63.of_Z x))
  end.
Definition word_array (l : list Z) : array int :=
  fill l 0%uint63 (PArray.make (Uint63.of_Z (Z.of_nat (length l))) 0%uint63).

(** A list and the array that holds it: same length, cells that fit [int],
    and the same cell at every index. *)
Definition rep (t : array int) (l : list Z) : Prop :=
  sem (PArray.length t) = Z.of_nat (length l) /\
  PArray.default t = 0%uint63 /\
  Forall int32_range l /\
  forall i, 0 <= sem i -> sem (PArray.get t i) = aget l (sem i).

(** Two arrays of words hold the two arrays of the model. *)
Definition rep2 (a : array int * array int) (b : list Z * list Z) : Prop :=
  rep (fst a) (fst b) /\ rep (snd a) (snd b).

(** [bit_reversal_step], the reversed index read from the table [R] of
    [bit_reversed 10]. *)
Definition bit_reversal_step_w (R : array int) (m : int) (a : array int * array int)
    : array int * array int :=
  let mr := PArray.get R m in
  if PrimInt63.lesb mr m then a
  else
    let tr := PArray.get (fst a) m in
    let fr := put (fst a) m (PArray.get (fst a) mr) in
    let fr := put fr mr tr in
    let ti := PArray.get (snd a) m in
    let fi := put (snd a) m (PArray.get (snd a) mr) in
    let fi := put fi mr ti in
    (fr, fi).

Definition FFTfix_bit_reversal_w (R fr fi : array int) : array int * array int :=
  word_loop (Z.to_nat 1022) 1%uint63 (bit_reversal_step_w R) (fr, fi).

(** [butterfly] *)
Definition butterfly_w (L wr wi i : int) (a : array int * array int)
    : array int * array int :=
  let j := PrimInt63.add i L in
  let tr := wrap32 (PrimInt63.sub (mul15 wr (PArray.get (fst a) j))
                      (mul15 wi (PArray.get (snd a) j))) in
  let ti := wrap32 (PrimInt63.add (mul15 wr (PArray.get (snd a) j))
                      (mul15 wi (PArray.get (fst a) j))) in
  let qr := PrimInt63.asr (PArray.get (fst a) i) 1%uint63 in
  let qi := PrimInt63.asr (PArray.get (snd a) i) 1%uint63 in
  let fr := put (fst a) j (wrap32 (PrimInt63.sub qr tr)) in
  let fi := put (snd a) j (wrap32 (PrimInt63.sub qi ti)) in
  let fr := put fr i (wrap32 (PrimInt63.add qr tr)) in
  let fi := put fi i (wrap32 (PrimInt63.add qi ti)) in
  (fr, fi).

(** [butterfly_group], [danielson_lanczos] and [FFTfix] at
    [LOG2_NUM_SAMPLES = 10]. *)
Definition butterfly_group_w (S : array int) (inner : nat) (L k m : int)
    (a : array int * array int) : array int * array int :=
  let j := PrimInt63.lsl m k in
  let wr := PArray.get S (PrimInt63.add j 256%uint63) in
  let wi := wrap32 (PrimInt63.sub 0%uint63 (PArray.get S j)) in
  let wr := PrimInt63.asr wr 1%uint63 in
  let wi := PrimInt63.asr wi 1%uint63 in
  word_stride inner m 1024%uint63 (PrimInt63.lsl L 1%uint63) (butterfly_w L wr wi) a.

Fixpoint danielson_lanczos_w (S : array int) (inner passes : nat) (L k : int)
    (a : array int * array int) : array int * array int :=
  match passes with
  | O => a
  | Datatypes.S passes' =>
      if PrimInt63.ltsb L 1024%uint63 then
        let istep := PrimInt63.lsl L 1%uint63 in
        let a := word_loop (Z.to_nat (sem L)) 0%uint63 (butterfly_group_w S inner L k) a in
        danielson_lanczos_w S inner passes' istep (PrimInt63.sub k 1%uint63) a
      else a
  end.

Definition FFTfix_w (S R fr fi : array int) : array int * array int :=
  danielson_lanczos_w S (Z.to_nat 1024) (Z.to_nat 10) 1%uint63 9%uint63
    (FFTfix_bit_reversal_w R fr fi).

(** [window_copy] into two fresh arrays. *)
Definition window_copy_w (W sample_array : array int) : array int * array int :=
  word_loop (Z.to_nat 1024) 0%uint63
    (fun i a =>
       (put (fst a) i
          (mul15 (wrap32 (PrimInt63.lsl (PArray.get sample_array i) 15%uint63))
             (PArray.get W i)),
        put (snd a) i 0%uint63))
    (PArray.make 1024%uint63 0%uint63, PArray.make 1024%uint63 0%uint63).

(** [magnitude_step] and [peak_search] on the arrays, [max_fr] and
    [max_fr_dex]. *)
Definition magnitude_step_w (i : int) (p : array int * array int * int * int)
    : array int * array int * int * int :=
  let '(fr0, fi0, mx, dex) := p in
  let fr := put fr0 i (abs32 (PArray.get fr0 i)) in
  let fi := put fi0 i (abs32 (PArray.get fi0 i)) in
  let fr :=
    put fr i
      (wrap32
         (PrimInt63.add
            (if PrimInt63.ltsb (PArray.get fi i) (PArray.get fr i)
             then PArray.get fr i else PArray.get fi i)
            (mul15 (if PrimInt63.ltsb (PArray.get fr i) (PArray.get fi i)
                    then PArray.get fr i else PArray.get fi i) 13107%uint63))) in
  if PrimInt63.ltsb mx (PArray.get fr i) && PrimInt63.ltsb 4%uint63 i
  then (fr, fi, PArray.get fr i, i)
  else (fr, fi, mx, dex).

Definition peak_search_w (fr fi : array int) : array int * array int * int * int :=
  word_loop (Z.to_nat 512) 0%uint63 magnitude_step_w (fr, fi, 0%uint63, 0%uint63).

Definition fft_epoch_w (S W R sample_array : array int) : array int * array int * int * int :=
  let a := window_copy_w W sample_array in
  let a := FFTfix_w S R (fst a) (snd a) in
  peak_search_w (fst a) (snd a).

(** The words of the peak search hold the record of the model. *)
Definition rep_peak (w : array int * array int * int * int) (p : peak) : Prop :=
  rep (fst (fst (fst w))) (pk_fr p) /\ rep (snd (fst (fst w))) (pk_fi p) /\
  sem (snd (fst w)) = max_fr p /\ sem (snd w) = max_fr_dex p.

(** The tables as arrays, and bit reversal tabulated. *)
Definition Sinewave_w : array int := Eval vm_compute in word_array Sinewave_table.
Definition window_w : array int := Eval vm_compute in word_array window_table.
Definition reversed_w : array int :=
  Eval vm_compute in word_array (map (bit_reversed 10) (seqZ 0 1024)).

(** [pure_tone] *)
Definition pure_tone_w (amplitude k : int) : array int :=
  word_loop (Z.to_nat 1024) 0%uint63
    (fun i t =>
       put t i
         (PrimInt63.add 128%uint63
            (PrimInt63.asr
               (PrimInt63.add
                  (PrimInt63.mul amplitude
                     (PArray.get Sinewave_w
                        (PrimInt63.mod (PrimInt63.mul k i) 1024%uint63)))
                  536870912%uint63)
               30%uint63)))
    (PArray.make 1024%uint63 0%uint63).

(** The bin an epoch reports for a tone. *)
Definition tone_peak_w (amplitude k : int) : int :=
  snd (fft_epoch_w Sinewave_w window_w reversed_w (pure_tone_w amplitude k)).

(** [peak] maps bin [k] to itself; [f] holds of [n] words from [k] on. *)
Definition found_by (peak : int -> int) (k : int) : bool := PrimInt63.eqb (peak k) k.

Fixpoint all_from (f : int -> bool) (n : nat) (k : int) : bool :=
  match n with
  | O => true
  | S n' => f k && all_from f n' (PrimInt63.add k 1%uint63)
  end.

(** * Properties *)

(** ** Tactics *)

(** Turns the named constants into numerals and boolean tests into
    (in)equalities, for [lia]. *)
Ltac dds_consts :=
  change attack_inc with 10 in *;
  change decay_inc with 10 in *;
  change CHIRP_CYCLE_TIME with 50000 in *;
  change BEEP_REPEAT_INTERVAL with 40000 in *;
  change BEEP_DURATION with 10000 in *;
  change ATTACK_TIME with 3000 in *;
  change DECAY_TIME with 3000 in *.

Ltac bool_to_prop :=
  repeat match goal with
  | H : (_ =? _) = true |- _ => apply Z.eqb_eq in H
  | H : (_ =? _) = false |- _ => apply Z.eqb_neq in H
  | H : (_ <? _) = true |- _ => apply Z.ltb_lt in H
  | H : (_ <? _) = false |- _ => apply Z.ltb_ge in H
  | H : (_ <=? _) = true |- _ => apply Z.leb_le in H
  | H : (_ <=? _) = false |- _ => apply Z.leb_gt in H
  end.

Ltac split_ifs :=
  repeat match goal with
  | |- context [if ?b then _ else _] => destruct b eqn:?
  end; bool_to_prop.

Ltac triple_eq :=
  apply (f_equal2 pair); [apply (f_equal2 pair) |]; lia.

Ltac inv_some :=
  match goal with
  | H : Some _ = Some _ |- _ => injection H as <-
  | H : None = Some _ |- _ => discriminate H
  end.

Ltac hs_fields :=
  cbn [pt go reg isr_core other set_pt set_go set_reg set_isr_core
       set_global_counter set_FFT_count set_fr_max set_reg_fft printf
       core_0_go core_1_go global_counter FFT_count fr_max corenum_0 corenum_1
       pt_0 pt_1 reg_0 reg_1 reg_fft console stmt_at nth body_order Nat.eqb Nat.leb] in *.

Ltac hs_close Hlines :=
  repeat split; try assumption; try lia; try discriminate; try reflexivity;
  try (match goal with
       | H : _ !! _ = Some _ |- _ => destruct (Hlines _ _ H); assumption
       end).

(** ** Machine integers *)

Lemma wrap_signed_small w x :
  0 < w -> - 2 ^ (w - 1) <= x < 2 ^ (w - 1) -> wrap_signed w x = x.
Proof.
  intros Hw Hx. unfold wrap_signed.
  assert (Hp : 2 ^ w = 2 * 2 ^ (w - 1)).
  { rewrite <- Z.pow_succ_r by lia. f_equal. lia. }
  rewrite Z.mod_small by lia. lia.
Qed.

Lemma to_int32_small x : int32_range x -> to_int32 x = x.
Proof. intros H. apply wrap_signed_small; [lia | exact H]. Qed.

Lemma to_int64_small x : - 2 ^ 63 <= x < 2 ^ 63 -> to_int64 x = x.
Proof. intros H. apply wrap_signed_small; [lia | exact H]. Qed.

Lemma to_int32_range x : int32_range (to_int32 x).
Proof.
  unfold int32_range, to_int32, wrap_signed.
  change (2 ^ (32 - 1)) with (2 ^ 31).
  pose proof (Z.mod_pos_bound (x + 2 ^ 31) (2 ^ 32) ltac:(lia)). lia.
Qed.

(** The cast to [fix15] is reduction modulo [2^32] read as signed. *)
Lemma to_int32_bits x : to_int32 x = signed_of_bits32 (x mod 2 ^ 32).
Proof.
  unfold to_int32, wrap_signed, signed_of_bits32.
  change (2 ^ (32 - 1)) with (2 ^ 31).
  destruct (Z.ltb_spec (x mod 2 ^ 32) (2 ^ 31)); Z.div_mod_to_equations; lia.
Qed.

(** ** C1: [multfix15] *)

Lemma int32_product_fits a b :
  int32_range a -> int32_range b -> - 2 ^ 63 <= a * b < 2 ^ 63.
Proof. unfold int32_range. intros Ha Hb. nia. Qed.

(** On 32-bit operands the 64-bit product is exact, so only the final cast
    to [fix15] can lose anything. *)
Lemma multfix15_floor a b :
  int32_range a -> int32_range b -> multfix15 a b = to_int32 (a * b / 2 ^ 15).
Proof.
  intros Ha Hb. unfold multfix15.
  rewrite (to_int64_small a), (to_int64_small b)
    by (unfold int32_range in *; lia).
  rewrite to_int64_small by (apply int32_product_fits; assumption).
  rewrite Z.shiftr_div_pow2 by lia. reflexivity.
Qed.

(** C1. For all 32-bit [a] and [b], [multfix15 a b] is the exact product
    shifted right by 15 bits (floor), reduced modulo [2^32] and read as a
    signed 32-bit integer. *)
Theorem multfix15_exact_shift_wrap (a b : Z) :
  int32_range a -> int32_range b ->
  multfix15 a b = signed_of_bits32 ((a * b / 2 ^ 15) mod 2 ^ 32).
Proof.
  intros Ha Hb. rewrite multfix15_floor by assumption.
  apply to_int32_bits.
Qed.

Lemma multfix15_exact_shift_wrap_witness :
  multfix15 (2 ^ 23) (2 ^ 23) = signed_of_bits32 ((2 ^ 23 * 2 ^ 23 / 2 ^ 15) mod 2 ^ 32).
Proof.
  apply (multfix15_exact_shift_wrap (2 ^ 23) (2 ^ 23)); unfold int32_range; lia.
Defined.

(** Overflow wraps: 256.0 * 256.0 is [-65536.0], where a saturating product
    would give [2^31 - 1]. *)
Example multfix15_overflow_wraps :
  multfix15 (int2fix15 256) (int2fix15 256) = - 2 ^ 31.
Proof. reflexivity. Qed.

(** ** C2: [divfix] *)

(** C2, as the spec states it, fails: with divisor zero the macro reports
    nothing. *)
Lemma divfix_zero_not_reported : divfix (int2fix15 1) 0 <> Reported DivideByZero.
Proof. unfold divfix. simpl. discriminate. Qed.

(** C2 (amended). [divfix a 0] is the unguarded C division by zero: no
    condition is reported for any [a]; for a non-zero 32-bit divisor the macro
    yields the quotient of [a * 2^15] by [b], truncated toward zero, reduced
    modulo [2^32] and read as signed. *)
Theorem divfix_unguarded (a b : Z) :
  int32_range a -> int32_range b ->
  divfix a 0 = Undefined /\
  (forall c, divfix a 0 <> Reported c) /\
  (b <> 0 ->
   divfix a b = Value (signed_of_bits32 (Z.quot (a * 2 ^ 15) b mod 2 ^ 32))).
Proof.
  intros Ha Hb. unfold int32_range in Ha, Hb.
  split; [reflexivity |]. split; [intros c; discriminate |].
  intros Hnz. unfold divfix.
  destruct (Z.eqb_spec b 0) as [? | _]; [contradiction |].
  f_equal. unfold divfix_quot.
  rewrite (to_int64_small a), (to_int64_small b) by lia.
  rewrite Z.shiftl_mul_pow2 by lia.
  rewrite (to_int64_small (a * 2 ^ 15)) by lia.
  assert (Hq : Z.abs (Z.quot (a * 2 ^ 15) b) <= Z.abs (a * 2 ^ 15)).
  { rewrite <- Z.quot_abs by assumption.
    transitivity (Z.quot (Z.abs (a * 2 ^ 15)) 1).
    - apply Z.quot_le_compat_l; lia.
    - rewrite Z.quot_1_r. lia. }
  rewrite to_int64_small by lia.
  apply to_int32_bits.
Qed.

Lemma divfix_unguarded_witness :
  divfix (int2fix15 1) 0 = Undefined /\
  (forall c, divfix (int2fix15 1) 0 <> Reported c) /\
  (int2fix15 3000 <> 0 ->
   divfix (int2fix15 1) (int2fix15 3000) =
   Value (signed_of_bits32 (Z.quot (int2fix15 1 * 2 ^ 15) (int2fix15 3000) mod 2 ^ 32))).
Proof.
  apply (divfix_unguarded (int2fix15 1) (int2fix15 3000));
    apply to_int32_range.
Defined.

(** ** The envelope state machine *)

Lemma attack_inc_by_divfix :
  divfix max_amplitude (int2fix15 ATTACK_TIME) = Value attack_inc /\
  divfix max_amplitude (int2fix15 DECAY_TIME) = Value decay_inc.
Proof. split; reflexivity. Qed.

Lemma attack_inc_eq : attack_inc = 10.
Proof. reflexivity. Qed.

Lemma decay_inc_eq : decay_inc = 10.
Proof. reflexivity. Qed.

Lemma scale_out_eq : scale_out = 16384.
Proof. reflexivity. Qed.

Lemma to_uint32_small x : uint32_range x -> to_uint32 x = x.
Proof. intros H. apply Z.mod_small. exact H. Qed.

Lemma div_pow15_range x :
  - 2 ^ 46 <= x < 2 ^ 46 -> int32_range (x / 2 ^ 15).
Proof.
  intros Hx. unfold int32_range. split.
  - apply Z.div_le_lower_bound; lia.
  - apply Z.div_lt_upper_bound; lia.
Qed.

Lemma aget_range (a : list Z) i : Forall int32_range a -> int32_range (aget a i).
Proof.
  intros Ha. unfold aget. destruct (a !! Z.to_nat i) as [v |] eqn:Hv; cbn.
  - exact (proj1 (Forall_lookup _ _) Ha _ _ Hv).
  - unfold int32_range. lia.
Qed.

(** The callback scales the amplitude before it multiplies by the sine value.
    For an even amplitude below 1.0 and the scale 0.5 the order of the two
    products does not show in the result. *)
Lemma amplitude_scale_commute h sine :
  0 <= h <= 15000 -> int32_range sine ->
  multfix15 (multfix15 (2 * h) scale_out) sine =
  multfix15 (multfix15 (2 * h) sine) scale_out.
Proof.
  intros Hh Hs. rewrite scale_out_eq. unfold int32_range in Hs.
  assert (Hhalf : multfix15 (2 * h) 16384 = h).
  { rewrite multfix15_floor by (unfold int32_range; lia).
    replace (2 * h * 16384) with (h * 2 ^ 15) by lia.
    rewrite Z.div_mul by lia. apply to_int32_small. unfold int32_range. lia. }
  rewrite Hhalf.
  assert (Hq : int32_range (2 * h * sine / 2 ^ 15)) by (apply div_pow15_range; nia).
  rewrite (multfix15_floor (2 * h) sine) by (unfold int32_range; lia).
  rewrite (to_int32_small _ Hq).
  rewrite (multfix15_floor h) by (unfold int32_range; lia).
  rewrite multfix15_floor by (assumption || unfold int32_range; lia).
  f_equal. symmetry.
  replace (2 * h * sine / 2 ^ 15 * 16384 / 2 ^ 15)
    with (2 * h * sine / 2 ^ 15 / 2).
  - rewrite Z.div_div by lia.
    replace (2 * h * sine) with (h * sine * 2) by lia.
    apply (Z.div_mul_cancel_r (h * sine) (2 ^ 15) 2); lia.
  - set (q := 2 * h * sine / 2 ^ 15).
    change (2 ^ 15) with (2 * 16384).
    rewrite (Z.div_mul_cancel_r q 2 16384) by lia. reflexivity.
Qed.

(** [x & 0xffff] keeps the low 16 bits, and or-ing 16-bit words stays within
    16 bits. *)
Lemma dac_word cfg out :
  0 <= cfg < 2 ^ 16 ->
  to_uint16 (Z.lor cfg (Z.land out 0xffff)) = Z.lor cfg (out mod 2 ^ 16).
Proof.
  intros Hc. unfold to_uint16, wrap_unsigned.
  change 0xffff with (Z.ones 16).
  rewrite (Z.land_ones out 16) by lia.
  rewrite <- (Z.land_ones (Z.lor _ _) 16) by lia.
  rewrite Z.land_lor_distr_l, !Z.land_ones by lia.
  rewrite Z.mod_mod by lia. rewrite (Z.mod_small cfg) by lia. reflexivity.
Qed.

Lemma DAC_config_range c : 0 <= DAC_config c < 2 ^ 16.
Proof.
  destruct c; unfold DAC_config, DAC_config_chan_A, DAC_config_chan_B; lia.
Qed.

Lemma multfix15_range a b : int32_range (multfix15 a b).
Proof. apply to_int32_range. Qed.

Lemma fix2int15_range x : int32_range x -> - 2 ^ 16 <= fix2int15 x < 2 ^ 16.
Proof.
  unfold int32_range, fix2int15. intros Hx.
  rewrite Z.shiftr_div_pow2 by lia.
  assert (- 2 ^ 16 <= x / 2 ^ 15 < 2 ^ 16).
  { split; [apply Z.div_le_lower_bound | apply Z.div_lt_upper_bound]; lia. }
  rewrite to_int32_small by (unfold int32_range; lia). assumption.
Qed.

Lemma square_table_range : Forall int32_range square_table.
Proof.
  apply Forall_app; split; apply Forall_replicate; unfold int32_range; lia.
Qed.

Lemma envelope_proj s st cnt amp :
  envelope s = (st, cnt, amp) ->
  STATE s = st /\ count s = cnt /\ current_amplitude s = amp.
Proof. unfold envelope. intros H. injection H as H1 H2 H3. auto. Qed.

Section Envelope.

Variable sin_table : list Z.
Variable c : core.

Local Abbreviation tick := (repeating_timer_callback sin_table c).

(** The envelope evolves on its own: state, counter and amplitude after a
    callback depend on those three alone. *)
Lemma envelope_tick s :
  envelope (tick s) =
  let cnt := to_uint32 (count s + 1) in
  if STATE s =? 0 then
    let amp :=
      if count s <? ATTACK_TIME then to_int32 (current_amplitude s + attack_inc)
      else if BEEP_DURATION - DECAY_TIME <? count s
           then to_int32 (current_amplitude s - decay_inc)
           else current_amplitude s in
    if cnt =? BEEP_DURATION then (1, 0, amp) else (STATE s, cnt, amp)
  else if cnt =? BEEP_REPEAT_INTERVAL then (0, 0, 0)
       else (STATE s, cnt, current_amplitude s).
Proof.
  unfold envelope, repeating_timer_callback. cbv zeta.
  destruct (STATE s =? 0) eqn:Hst.
  - destruct (to_uint32 (count s + 1) =? BEEP_DURATION); reflexivity.
  - destruct (to_uint32 (count s + 1) =? BEEP_REPEAT_INTERVAL); reflexivity.
Qed.

Lemma ramp_range t : 0 <= t <= BEEP_DURATION -> 0 <= ramp t <= 30000.
Proof. unfold ramp. dds_consts. intros Ht. split_ifs; lia. Qed.

(** One callback moves the envelope one tick along the cycle. *)
Lemma envelope_at_step s t :
  0 <= t < CHIRP_CYCLE_TIME ->
  envelope s = envelope_at t -> envelope (tick s) = envelope_at (t + 1).
Proof.
  intros Ht He. rewrite envelope_tick. cbv zeta.
  unfold envelope, envelope_at in *.
  destruct (t <? BEEP_DURATION) eqn:H1; [| destruct (t <? CHIRP_CYCLE_TIME) eqn:H2];
    injection He as Hs Hc Ha; rewrite Hs, Hc, Ha; clear Hs Hc Ha; bool_to_prop.
  - (* ACTIVE *)
    pose proof (ramp_range t) as Hr. dds_consts.
    change (0 =? 0) with true. cbv iota.
    rewrite (to_uint32_small (t + 1)) by (unfold uint32_range; lia).
    rewrite (to_int32_small (ramp t + 10)), (to_int32_small (ramp t - 10))
      by (unfold int32_range; lia).
    clear Hr. unfold ramp. dds_consts.
    split_ifs; try lia; triple_eq.
  - (* SILENT *)
    dds_consts. change (1 =? 0) with false. cbv iota.
    rewrite (to_uint32_small (t - 10000 + 1)) by (unfold uint32_range; lia).
    unfold ramp. dds_consts.
    split_ifs; try lia; triple_eq.
  - dds_consts. lia.
Qed.

(** [n] callbacks after the start of an ACTIVE phase, for up to one cycle. *)
Lemma envelope_closed_form s0 n :
  envelope s0 = envelope_at 0 ->
  Z.of_nat n <= CHIRP_CYCLE_TIME ->
  envelope (Nat.iter n tick s0) = envelope_at (Z.of_nat n).
Proof.
  intros H0. induction n as [| n IH]; intros Hn.
  - exact H0.
  - rewrite Nat2Z.inj_succ, <- Z.add_1_r. cbn [Nat.iter].
    apply envelope_at_step; [lia | apply IH; lia].
Qed.

Lemma reachable_iter n : reachable sin_table c (Nat.iter n tick boot).
Proof.
  induction n as [| n IH]; cbn [Nat.iter]; [apply reach_boot | apply reach_tick, IH].
Qed.

(** Every reachable state sits somewhere on the cycle. *)
Lemma reachable_envelope s :
  reachable sin_table c s ->
  exists t, 0 <= t < CHIRP_CYCLE_TIME /\ envelope s = envelope_at t.
Proof.
  induction 1 as [| s _ [t [Ht He]]].
  - exists 0. split; [dds_consts; lia | reflexivity].
  - destruct (Z.eq_dec (t + 1) CHIRP_CYCLE_TIME) as [Hc | Hc].
    + exists 0. split; [dds_consts; lia |].
      rewrite (envelope_at_step s t Ht He), Hc. reflexivity.
    + exists (t + 1). split; [lia | apply envelope_at_step; assumption].
Qed.

(** Once a callback has run, [corenum] holds the number of its core. *)
Lemma reachable_corenum s :
  reachable sin_table c s -> s = boot \/ corenum s = get_core_num c.
Proof. destruct 1; [left | right]; reflexivity. Qed.

(** While beeping the amplitude is an even number below 1.0. *)
Lemma reachable_active_amplitude s :
  reachable sin_table c s -> STATE s = 0 ->
  exists h, current_amplitude s = 2 * h /\ 0 <= h <= 15000.
Proof.
  intros Hr Hs. destruct (reachable_envelope s Hr) as [t [Ht He]].
  unfold envelope, envelope_at in He. dds_consts.
  destruct (t <? 10000) eqn:H1; [| destruct (t <? 50000) eqn:H2];
    injection He as Hst Hc Ha; bool_to_prop; try lia.
  rewrite Ha. unfold ramp. dds_consts.
  split_ifs; [exists (5 * t) | exists 15000 | exists (15000 - 5 * (t - 7001))]; lia.
Qed.

(** C6. On every timer tick of a running program that finds the state ACTIVE,
    the phase accumulator is incremented modulo [2^32], the sine value is
    [sin_table[phase_accum >> 24]] for the incremented accumulator, the output
    sample is [fix2int15 (multfix15 (multfix15 amplitude sine) scale_out) + 2048]
    for the amplitude the tick found, and the word sent to the DAC is the
    channel configuration or-ed with the sample truncated to its low 16 bits.
    (The callback multiplies by [scale_out] first; on the amplitudes a running
    program reaches the two orders agree, [amplitude_scale_commute].) *)
Theorem dds_active_output_sample (s : dds) :
  Forall int32_range sin_table ->
  reachable sin_table c s ->
  STATE s = 0 ->
  let s' := repeating_timer_callback sin_table c s in
  let sine_value := aget sin_table (Z.shiftr (phase_accum_main s') 24) in
  phase_accum_main s' = (phase_accum_main s + phase_incr_main s) mod 2 ^ 32 /\
  DAC_output s' =
    fix2int15 (multfix15 (multfix15 (current_amplitude s) sine_value) scale_out) + 2048 /\
  DAC_data s' = Z.lor (DAC_config c) (DAC_output s' mod 2 ^ 16) /\
  spi_out s' = DAC_data s' :: spi_out s.
Proof.
  intros Htbl Hr Hs.
  destruct (reachable_active_amplitude s Hr Hs) as [h [Ha Hh]].
  unfold repeating_timer_callback. rewrite Hs. change (0 =? 0) with true.
  cbv zeta iota.
  set (phase := to_uint32 (phase_accum_main s + phase_incr_main s)).
  set (sine := aget sin_table (Z.shiftr phase 24)).
  assert (Hsine : int32_range sine) by (apply aget_range; assumption).
  assert (Hout :
    to_int32 (fix2int15 (multfix15 (multfix15 (current_amplitude s) scale_out) sine) + 2048)
    = fix2int15 (multfix15 (multfix15 (current_amplitude s) sine) scale_out) + 2048).
  { rewrite Ha, amplitude_scale_commute by assumption.
    pose proof (fix2int15_range _ (multfix15_range (multfix15 (2 * h) sine) scale_out)).
    apply to_int32_small. unfold int32_range. lia. }
  destruct (to_uint32 (count s + 1) =? BEEP_DURATION);
    cbn [phase_accum_main DAC_output DAC_data spi_out];
    fold phase; fold sine; rewrite Hout;
    (split; [reflexivity |]); (split; [reflexivity |]);
    (split; [apply dac_word, DAC_config_range | reflexivity]).
Qed.

(** The three envelope fields [n] callbacks into a cycle. *)
Lemma envelope_fields s0 n :
  envelope s0 = envelope_at 0 ->
  Z.of_nat n <= CHIRP_CYCLE_TIME ->
  (STATE (Nat.iter n tick s0), count (Nat.iter n tick s0),
   current_amplitude (Nat.iter n tick s0)) = envelope_at (Z.of_nat n).
Proof. exact (envelope_closed_form s0 n). Qed.

(** C7 (amended). In every reachable SILENT state the counter is below
    [BEEP_REPEAT_INTERVAL]; a callback whose increment does not reach the
    interval stays SILENT and leaves the amplitude as it found it; the
    callback whose increment reaches the interval sets the amplitude to
    exactly 0, switches to ACTIVE and resets the counter to 0. *)
Theorem silent_amplitude_reset_on_restart (s : dds) :
  reachable sin_table c s ->
  STATE s <> 0 ->
  let s' := repeating_timer_callback sin_table c s in
  STATE s = 1 /\ 0 <= count s < BEEP_REPEAT_INTERVAL /\
  (count s + 1 <> BEEP_REPEAT_INTERVAL ->
   STATE s' = 1 /\ count s' = count s + 1 /\
   current_amplitude s' = current_amplitude s) /\
  (count s + 1 = BEEP_REPEAT_INTERVAL ->
   STATE s' = 0 /\ count s' = 0 /\ current_amplitude s' = 0).
Proof.
  intros Hr Hs. cbv zeta.
  destruct (reachable_envelope s Hr) as [t [Ht He]].
  pose proof (envelope_at_step s t Ht He) as He'.
  unfold envelope_at in He, He'. dds_consts.
  destruct (t <? 10000) eqn:H1; [| destruct (t <? 50000) eqn:H2];
    apply envelope_proj in He; destruct He as (Hst & Hc & Ha);
    bool_to_prop; try lia.
  destruct (t + 1 <? 10000) eqn:H3; [bool_to_prop; lia |].
  destruct (t + 1 <? 50000) eqn:H4;
    apply envelope_proj in He'; destruct He' as (Hst' & Hc' & Ha');
    bool_to_prop; rewrite Hst', Hc', Ha', Hst, Hc, Ha;
    repeat split; intros; lia.
Qed.

(** C8. From amplitude 0 at the start of an ACTIVE phase: the amplitude does
    not decrease over the callbacks at elapsed counts in [[0, ATTACK_TIME)],
    is constant over those at counts in [[ATTACK_TIME, BEEP_DURATION - DECAY_TIME]],
    does not increase over those at counts above; the state is ACTIVE for the
    first [BEEP_DURATION] ticks (the counter being the number of ticks), SILENT
    for the next [BEEP_REPEAT_INTERVAL], and after exactly
    [BEEP_DURATION + BEEP_REPEAT_INTERVAL] ticks it is ACTIVE again with
    counter and amplitude 0. *)
Theorem envelope_shape_and_cycle (s0 : dds) :
  STATE s0 = 0 -> count s0 = 0 -> current_amplitude s0 = 0 ->
  let after n := Nat.iter n (repeating_timer_callback sin_table c) s0 in
  (forall n, Z.of_nat n < ATTACK_TIME ->
     current_amplitude (after n) <= current_amplitude (after (S n))) /\
  (forall n, ATTACK_TIME <= Z.of_nat n <= BEEP_DURATION - DECAY_TIME ->
     current_amplitude (after (S n)) = current_amplitude (after n)) /\
  (forall n, BEEP_DURATION - DECAY_TIME < Z.of_nat n < BEEP_DURATION ->
     current_amplitude (after (S n)) <= current_amplitude (after n)) /\
  (forall n, Z.of_nat n < BEEP_DURATION ->
     STATE (after n) = 0 /\ count (after n) = Z.of_nat n) /\
  (forall n, BEEP_DURATION <= Z.of_nat n < BEEP_DURATION + BEEP_REPEAT_INTERVAL ->
     STATE (after n) = 1) /\
  envelope (after (Z.to_nat (BEEP_DURATION + BEEP_REPEAT_INTERVAL))) = (0, 0, 0).
Proof.
  intros Hs Hc Ha. cbv zeta.
  assert (H0 : envelope s0 = envelope_at 0).
  { unfold envelope. rewrite Hs, Hc, Ha. reflexivity. }
  assert (Hamp : forall n, Z.of_nat n <= CHIRP_CYCLE_TIME ->
            current_amplitude (Nat.iter n tick s0) = snd (envelope_at (Z.of_nat n))).
  { intros n Hn. rewrite <- (envelope_fields s0 n H0 Hn). reflexivity. }
  assert (Hst : forall n, Z.of_nat n <= CHIRP_CYCLE_TIME ->
            STATE (Nat.iter n tick s0) = fst (fst (envelope_at (Z.of_nat n)))).
  { intros n Hn. rewrite <- (envelope_fields s0 n H0 Hn). reflexivity. }
  assert (Hcnt : forall n, Z.of_nat n <= CHIRP_CYCLE_TIME ->
            count (Nat.iter n tick s0) = snd (fst (envelope_at (Z.of_nat n)))).
  { intros n Hn. rewrite <- (envelope_fields s0 n H0 Hn). reflexivity. }
  dds_consts.
  repeat split; try intros n Hn.
  - rewrite !Hamp, Nat2Z.inj_succ by lia.
    unfold envelope_at, ramp. dds_consts. split_ifs; cbn [snd]; lia.
  - rewrite !Hamp, Nat2Z.inj_succ by lia.
    unfold envelope_at, ramp. dds_consts. split_ifs; cbn [snd]; lia.
  - rewrite !Hamp, Nat2Z.inj_succ by lia.
    unfold envelope_at, ramp. dds_consts. split_ifs; cbn [snd]; lia.
  - rewrite Hst by lia. unfold envelope_at. dds_consts. split_ifs; cbn [fst]; lia.
  - rewrite Hcnt by lia. unfold envelope_at. dds_consts.
    split_ifs; cbn [fst snd]; lia.
  - rewrite Hst by lia. unfold envelope_at. dds_consts. split_ifs; cbn [fst]; lia.
  - rewrite envelope_closed_form by (assumption || rewrite Z2Nat.id; dds_consts; lia).
    rewrite Z2Nat.id by lia. reflexivity.
Qed.

(** C10. For every tick of a running program that finds the state SILENT and
    whose increment does not bring the counter to [BEEP_REPEAT_INTERVAL], the
    callback yields the state it found with the counter incremented: phase
    accumulator, amplitude, [DAC_output], [DAC_data] are unchanged and nothing
    is written to the SPI. *)
Theorem silent_tick_only_counts (s : dds) :
  reachable sin_table c s ->
  STATE s <> 0 ->
  count s + 1 <> BEEP_REPEAT_INTERVAL ->
  repeating_timer_callback sin_table c s =
  mkDds (phase_accum_main s) (phase_incr_main s) (DAC_output s)
    (current_amplitude s) (STATE s) (count s + 1) (DAC_data s) (corenum s)
    (spi_out s).
Proof.
  intros Hr Hs Hc.
  destruct (reachable_envelope s Hr) as [t [Ht He]].
  assert (Hcnt : 0 <= count s < BEEP_REPEAT_INTERVAL).
  { unfold envelope, envelope_at in He. dds_consts.
    destruct (t <? 10000) eqn:H1; [| destruct (t <? 50000) eqn:H2];
      injection He as Hst Hcn Ha; bool_to_prop; lia. }
  assert (Hcore : corenum s = get_core_num c).
  { destruct (reachable_corenum s Hr) as [-> | Hcore]; [| exact Hcore].
    contradiction Hs. reflexivity. }
  unfold repeating_timer_callback.
  destruct (Z.eqb_spec (STATE s) 0) as [? | _]; [contradiction |].
  cbv zeta.
  rewrite to_uint32_small by (unfold uint32_range; dds_consts; lia).
  destruct (Z.eqb_spec (count s + 1) BEEP_REPEAT_INTERVAL) as [? | _];
    [contradiction |].
  cbn [phase_accum_main phase_incr_main DAC_output current_amplitude STATE
       count DAC_data corenum spi_out].
  rewrite Hcore. reflexivity.
Qed.

End Envelope.

Lemma dds_active_output_sample_witness :
  let s := Nat.iter 5 (repeating_timer_callback_core_0 square_table) boot in
  let s' := repeating_timer_callback_core_0 square_table s in
  let sine_value := aget square_table (Z.shiftr (phase_accum_main s') 24) in
  phase_accum_main s' = (phase_accum_main s + phase_incr_main s) mod 2 ^ 32 /\
  DAC_output s' =
    fix2int15 (multfix15 (multfix15 (current_amplitude s) sine_value) scale_out) + 2048 /\
  DAC_data s' = Z.lor (DAC_config Core0) (DAC_output s' mod 2 ^ 16) /\
  spi_out s' = DAC_data s' :: spi_out s.
Proof.
  apply (dds_active_output_sample square_table Core0
           (Nat.iter 5 (repeating_timer_callback square_table Core0) boot)).
  - apply square_table_range.
  - apply reachable_iter.
  - reflexivity.
Defined.

(** C7, as the spec states it, fails: some reachable SILENT state has a
    non-zero amplitude (at the end of the first beep the decay ramp has
    brought it down to [decay_inc], and SILENT ticks do not touch it). *)
Lemma end_of_first_beep_envelope :
  STATE end_of_first_beep = 1 /\ count end_of_first_beep = 0 /\
  current_amplitude end_of_first_beep = 10.
Proof.
  apply envelope_proj. unfold end_of_first_beep, repeating_timer_callback_core_0.
  rewrite envelope_closed_form; rewrite ?Z2Nat.id; dds_consts; try lia; reflexivity.
Qed.

Lemma silent_amplitude_not_zero :
  ~ (forall (tbl : list Z) (c : core) (s : dds),
       reachable tbl c s -> STATE s <> 0 -> current_amplitude s = 0).
Proof.
  intros H. destruct end_of_first_beep_envelope as (Hst & _ & Ha).
  specialize (H square_table Core0 end_of_first_beep
                (reachable_iter square_table Core0 (Z.to_nat BEEP_DURATION))).
  rewrite Hst, Ha in H. specialize (H ltac:(lia)). discriminate H.
Qed.

Lemma silent_amplitude_reset_on_restart_witness :
  let s := end_of_first_beep in
  let s' := repeating_timer_callback_core_0 square_table s in
  STATE s = 1 /\ 0 <= count s < BEEP_REPEAT_INTERVAL /\
  (count s + 1 <> BEEP_REPEAT_INTERVAL ->
   STATE s' = 1 /\ count s' = count s + 1 /\
   current_amplitude s' = current_amplitude s) /\
  (count s + 1 = BEEP_REPEAT_INTERVAL ->
   STATE s' = 0 /\ count s' = 0 /\ current_amplitude s' = 0).
Proof.
  apply (silent_amplitude_reset_on_restart square_table Core0 end_of_first_beep).
  - apply reachable_iter.
  - rewrite (proj1 end_of_first_beep_envelope). discriminate.
Defined.

Lemma envelope_shape_and_cycle_witness :
  let after n := Nat.iter n (repeating_timer_callback_core_1 square_table) boot in
  (forall n, Z.of_nat n < ATTACK_TIME ->
     current_amplitude (after n) <= current_amplitude (after (S n))) /\
  (forall n, ATTACK_TIME <= Z.of_nat n <= BEEP_DURATION - DECAY_TIME ->
     current_amplitude (after (S n)) = current_amplitude (after n)) /\
  (forall n, BEEP_DURATION - DECAY_TIME < Z.of_nat n < BEEP_DURATION ->
     current_amplitude (after (S n)) <= current_amplitude (after n)) /\
  (forall n, Z.of_nat n < BEEP_DURATION ->
     STATE (after n) = 0 /\ count (after n) = Z.of_nat n) /\
  (forall n, BEEP_DURATION <= Z.of_nat n < BEEP_DURATION + BEEP_REPEAT_INTERVAL ->
     STATE (after n) = 1) /\
  envelope (after (Z.to_nat (BEEP_DURATION + BEEP_REPEAT_INTERVAL))) = (0, 0, 0).
Proof.
  apply (envelope_shape_and_cycle square_table Core1 boot); reflexivity.
Defined.

Lemma silent_tick_only_counts_witness :
  let s := end_of_first_beep in
  repeating_timer_callback_core_0 square_table s =
  mkDds (phase_accum_main s) (phase_incr_main s) (DAC_output s)
    (current_amplitude s) (STATE s) (count s + 1) (DAC_data s) (corenum s)
    (spi_out s).
Proof.
  apply (silent_tick_only_counts square_table Core0 end_of_first_beep).
  - apply reachable_iter.
  - rewrite (proj1 end_of_first_beep_envelope). discriminate.
  - rewrite (proj1 (proj2 end_of_first_beep_envelope)). discriminate.
Defined.

(** ** Arrays and loops *)

Lemma length_aset a i v : length (aset a i v) = length a.
Proof. apply length_insert. Qed.

Lemma aget_aset_eq a i v :
  0 <= i < Z.of_nat (length a) -> aget (aset a i v) i = v.
Proof.
  intros Hi. unfold aget, aset.
  rewrite list_lookup_insert_eq by lia. reflexivity.
Qed.

Lemma aget_aset_ne a i j v :
  0 <= i -> 0 <= j -> i <> j -> aget (aset a i v) j = aget a j.
Proof.
  intros Hi Hj Hne. unfold aget, aset.
  rewrite list_lookup_insert_ne by lia. reflexivity.
Qed.

Lemma length_exchange a i j : length (exchange a i j) = length a.
Proof. unfold exchange. rewrite !length_aset. reflexivity. Qed.

(** Reading an array after an exchange of two of its cells. *)
Lemma aget_exchange a i j k :
  0 <= i < Z.of_nat (length a) -> 0 <= j < Z.of_nat (length a) -> 0 <= k ->
  aget (exchange a i j) k =
  if k =? j then aget a i else if k =? i then aget a j else aget a k.
Proof.
  intros Hi Hj Hk. unfold exchange.
  destruct (Z.eqb_spec k j) as [-> | Hkj].
  - apply aget_aset_eq. rewrite length_aset. lia.
  - rewrite aget_aset_ne by lia.
    destruct (Z.eqb_spec k i) as [-> | Hki].
    + apply aget_aset_eq. lia.
    + apply aget_aset_ne; lia.
Qed.

(** Invariant rule for a counted loop. *)
Lemma for_loop_invariant {St : Type} (P : Z -> St -> Prop) (body : Z -> St -> St) n :
  forall i0 s,
  P i0 s ->
  (forall i t, i0 <= i < i0 + Z.of_nat n -> P i t -> P (i + 1) (body i t)) ->
  P (i0 + Z.of_nat n) (for_loop n i0 body s).
Proof.
  induction n as [| n IH]; intros i0 s H0 Hstep.
  - cbn. rewrite Z.add_0_r. exact H0.
  - cbn [for_loop]. replace (i0 + Z.of_nat (S n)) with (i0 + 1 + Z.of_nat n) by lia.
    apply IH.
    + apply Hstep; [lia | exact H0].
    + intros i t Hi. apply Hstep. lia.
Qed.

(** A counted loop is the left fold of its body over the indices in order. *)
Lemma for_loop_foldl {St : Type} (body : Z -> St -> St) n :
  forall i0 s,
  for_loop n i0 body s = foldl (fun t i => body i t) s (seqZ i0 (Z.of_nat n)).
Proof.
  induction n as [| n IH]; intros i0 s; [reflexivity |].
  rewrite Nat2Z.inj_succ, seqZ_cons by lia. cbn [for_loop foldl].
  rewrite IH. do 2 f_equal. lia.
Qed.

(** ** The bit-reversal phase of [FFTfix] *)

Lemma reverse16_stages m :
  reverse16 m =
  swap_stage 8 0x00FF (swap_stage 4 0x0F0F (swap_stage 2 0x3333 (swap_stage 1 0x5555 m))).
Proof. reflexivity. Qed.

Lemma swap_stage_bit k mask x i up down bup bdown :
  0 < k -> 0 <= i < 16 ->
  i + k = up -> i - k = down ->
  Z.testbit mask i = bup -> Z.testbit mask down = bdown ->
  Z.testbit (swap_stage k mask x) i =
  (Z.testbit x up && bup) || (Z.testbit x down && bdown).
Proof.
  intros Hk Hi <- <- <- <-. unfold swap_stage, to_uint16, wrap_unsigned.
  rewrite Z.mod_pow2_bits_low by lia.
  rewrite Z.lor_spec, Z.land_spec, Z.shiftr_spec, Z.shiftl_spec, Z.land_spec by lia.
  reflexivity.
Qed.

(** Bit [i] of [reverse16 m] is bit [15 - i] of [m]. *)
Lemma reverse16_bit m i :
  0 <= i < 16 -> Z.testbit (reverse16 m) i = Z.testbit m (15 - i).
Proof.
  intros Hi. rewrite reverse16_stages.
  assert (Hcases : i = 0 \/ i = 1 \/ i = 2 \/ i = 3 \/ i = 4 \/ i = 5 \/ i = 6 \/ i = 7 \/
                   i = 8 \/ i = 9 \/ i = 10 \/ i = 11 \/ i = 12 \/ i = 13 \/ i = 14 \/ i = 15)
    by lia.
  repeat (destruct Hcases as [-> | Hcases]); try subst i;
    do 4 (erewrite swap_stage_bit by (lia || (vm_compute; reflexivity));
          rewrite ?Bool.andb_true_r, ?Bool.andb_false_r, ?Bool.orb_false_r,
            ?Bool.orb_false_l);
    reflexivity.
Qed.

Lemma reverse16_range m : 0 <= reverse16 m < 2 ^ 16.
Proof. unfold reverse16, to_uint16, wrap_unsigned. apply Z.mod_pos_bound. lia. Qed.

Lemma testbit_above x n i : 0 <= x < 2 ^ n -> 0 <= n <= i -> Z.testbit x i = false.
Proof.
  intros Hx Hi. rewrite <- (Z.mod_small x (2 ^ n)) by lia.
  apply Z.mod_pow2_bits_high. lia.
Qed.

Section BitReversal.

Variable lg : Z.
Hypothesis lg_range : 1 <= lg <= 16.

Local Abbreviation N := (NUM_SAMPLES lg).
Local Abbreviation rev := (bit_reversed lg).

Lemma NUM_SAMPLES_pos : 2 <= N.
Proof.
  unfold NUM_SAMPLES. change 2 with (2 ^ 1) at 1.
  apply Z.pow_le_mono_r; lia.
Qed.

(** [bit_reversed m] has the low [lg] bits of [m] in reverse order and no
    other bit. *)
Lemma bit_reversed_bit m i :
  0 <= i ->
  Z.testbit (rev m) i = if i <? lg then Z.testbit m (lg - 1 - i) else false.
Proof.
  intros Hi. unfold bit_reversed, SHIFT_AMOUNT.
  rewrite Z.shiftr_spec by lia.
  destruct (Z.ltb_spec i lg).
  - rewrite reverse16_bit by lia. f_equal. lia.
  - apply (testbit_above _ 16); [apply reverse16_range | lia].
Qed.

Lemma bit_reversed_range m : 0 <= rev m < N.
Proof.
  unfold bit_reversed, SHIFT_AMOUNT, NUM_SAMPLES.
  pose proof (reverse16_range m) as Hr.
  rewrite Z.shiftr_div_pow2 by lia. split.
  - apply Z.div_pos; lia.
  - apply Z.div_lt_upper_bound; [lia |].
    rewrite <- Z.pow_add_r by lia. replace (16 - lg + lg) with 16 by lia. lia.
Qed.

(** Reversing twice gives the index back. *)
Lemma bit_reversed_involutive m : 0 <= m < N -> rev (rev m) = m.
Proof.
  intros Hm. apply Z.bits_inj'. intros i Hi.
  rewrite bit_reversed_bit by assumption.
  destruct (Z.ltb_spec i lg).
  - rewrite bit_reversed_bit by lia.
    destruct (Z.ltb_spec (lg - 1 - i) lg); [f_equal; lia | lia].
  - symmetry. apply (testbit_above _ lg); [exact Hm | lia].
Qed.

Lemma bit_reversed_0 : rev 0 = 0.
Proof. unfold bit_reversed. change (reverse16 0) with 0. apply Z.shiftr_0_l. Qed.

Lemma bit_reversal_step_exchange m a :
  bit_reversal_step lg m a =
  if rev m <=? m then a
  else (exchange (fst a) m (rev m), exchange (snd a) m (rev m)).
Proof. reflexivity. Qed.

(** One round on one array of [N] cells. *)
Lemma exchange_swapped_at (a : list Z) m k :
  Z.of_nat (length a) = N -> 0 <= m < N -> 0 <= k < N ->
  aget (if rev m <=? m then a else exchange a m (rev m)) k = aget a (swapped_at lg m k).
Proof.
  intros Hlen Hm Hk. unfold swapped_at.
  pose proof (bit_reversed_range m) as Hr.
  destruct (Z.leb_spec (rev m) m); destruct (Z.ltb_spec m (rev m)); try lia.
  rewrite aget_exchange by lia.
  destruct (Z.eqb_spec k (rev m)); destruct (Z.eqb_spec k m); subst;
    reflexivity || lia.
Qed.

Lemma source_after_step M i :
  1 <= M < N -> 0 <= i < N ->
  source_after lg M (swapped_at lg M i) = source_after lg (M + 1) i.
Proof.
  intros HM Hi. unfold source_after, swapped_at.
  pose proof (bit_reversed_range i) as Hri.
  pose proof (bit_reversed_range M) as HrM.
  pose proof (bit_reversed_involutive i Hi) as Hii.
  pose proof (bit_reversed_involutive M ltac:(lia)) as HMM.
  assert (E1 : rev i = M -> i = rev M) by (intros E; rewrite <- E, Hii; reflexivity).
  assert (E2 : i = rev M -> rev i = M) by (intros ->; exact HMM).
  assert (E3 : i = M -> rev i = rev M) by (intros ->; reflexivity).
  destruct (Z.ltb_spec M (rev M)).
  - destruct (Z.eqb_spec i M) as [-> | Hne1].
    + rewrite HMM. clear E1 E2 E3 Hii Hri.
      generalize dependent (rev M). intros rM; intros.
      destruct (Z.ltb_spec rM M), (Z.ltb_spec M M), (Z.ltb_spec M (M + 1)); cbn; lia.
    + destruct (Z.eqb_spec i (rev M)) as [-> | Hne2].
      * rewrite HMM in *. clear E1 E2 E3 Hii Hri.
        generalize dependent (rev M). intros rM; intros.
        destruct (Z.ltb_spec M M), (Z.ltb_spec rM M), (Z.ltb_spec rM (M + 1)),
          (Z.ltb_spec M (M + 1)); cbn; lia.
      * clear Hii HMM. generalize dependent (rev i). intros ri; intros.
        generalize dependent (rev M). intros rM; intros.
        destruct (Z.ltb_spec i M), (Z.ltb_spec ri M), (Z.ltb_spec i (M + 1)),
          (Z.ltb_spec ri (M + 1)); cbn; lia.
  - clear Hii HMM. generalize dependent (rev i). intros ri; intros.
    generalize dependent (rev M). intros rM; intros.
    destruct (Z.ltb_spec i M), (Z.ltb_spec ri M), (Z.ltb_spec i (M + 1)),
      (Z.ltb_spec ri (M + 1)); cbn; lia.
Qed.

Lemma swapped_at_range m k : 0 <= m < N -> 0 <= k < N -> 0 <= swapped_at lg m k < N.
Proof.
  intros Hm Hk. unfold swapped_at. pose proof (bit_reversed_range m).
  split_ifs; lia.
Qed.

Lemma reversal_invariant_step fr fi M a :
  Z.of_nat (length fr) = N -> Z.of_nat (length fi) = N ->
  1 <= M < N ->
  reversal_invariant lg fr fi M a ->
  reversal_invariant lg fr fi (M + 1) (bit_reversal_step lg M a).
Proof.
  intros Hfr Hfi HM (Hl1 & Hl2 & Hcells).
  rewrite bit_reversal_step_exchange. split; [| split].
  - destruct (rev M <=? M); cbn [fst]; rewrite ?length_exchange; exact Hl1.
  - destruct (rev M <=? M); cbn [snd]; rewrite ?length_exchange; exact Hl2.
  - intros i Hi.
    pose proof (swapped_at_range M i ltac:(lia) Hi) as Hsw.
    rewrite <- source_after_step by assumption.
    destruct (Hcells _ Hsw) as [<- <-].
    rewrite <- !exchange_swapped_at by (lia || congruence).
    destruct (rev M <=? M); split; reflexivity.
Qed.

Lemma reversal_invariant_start fr fi : reversal_invariant lg fr fi 1 (fr, fi).
Proof.
  split; [reflexivity | split; [reflexivity |]]. intros i Hi.
  assert (Hsrc : source_after lg 1 i = i).
  { unfold source_after.
    pose proof (bit_reversed_range i) as Hri.
    pose proof (bit_reversed_involutive i Hi) as Hii.
    destruct (Z.ltb_spec i 1); destruct (Z.ltb_spec (rev i) 1); cbn; try reflexivity.
    - replace i with 0 by lia. apply bit_reversed_0.
    - replace i with 0 by lia. apply bit_reversed_0.
    - rewrite <- Hii at 2. replace (rev i) with 0 by lia. rewrite bit_reversed_0.
      lia. }
  rewrite Hsrc. split; reflexivity.
Qed.

Lemma source_after_end i : 0 <= i < N -> source_after lg (N - 1) i = rev i.
Proof.
  intros Hi. unfold source_after. pose proof (bit_reversed_range i).
  split_ifs; [reflexivity |].
  apply orb_false_elim in Heqb. destruct Heqb. bool_to_prop. lia.
Qed.

(** C5. The bit-reversal phase of [FFTfix] runs its round at every
    [m = 1, ..., N-2] in order; the index [mr] of a round has the low
    [log2 N] bits of [m] reversed and no other bit; a round exchanges cells
    [m] and [mr] of both arrays when [mr > m] and changes no cell otherwise;
    after the phase cell [i] of each array holds what cell [mr(i)] held
    before; on 8 cells the permutation is [[0,4,2,6,1,5,3,7]]. *)
Theorem bit_reversal_phase (fr fi : list Z) :
  Z.of_nat (length fr) = NUM_SAMPLES lg ->
  Z.of_nat (length fi) = NUM_SAMPLES lg ->
  FFTfix_bit_reversal lg fr fi =
    foldl (fun a m => bit_reversal_step lg m a) (fr, fi) (seqZ 1 (NUM_SAMPLES lg - 2)) /\
  (forall m i, 1 <= m <= NUM_SAMPLES lg - 2 -> 0 <= i ->
     Z.testbit (bit_reversed lg m) i =
     if i <? lg then Z.testbit m (lg - 1 - i) else false) /\
  (forall m k, 1 <= m <= NUM_SAMPLES lg - 2 -> 0 <= k < NUM_SAMPLES lg ->
     let a := bit_reversal_step lg m (fr, fi) in
     let from := if m <? bit_reversed lg m
                 then (if k =? m then bit_reversed lg m
                       else if k =? bit_reversed lg m then m else k)
                 else k in
     aget (fst a) k = aget fr from /\ aget (snd a) k = aget fi from) /\
  (forall i, 0 <= i < NUM_SAMPLES lg ->
     aget (fst (FFTfix_bit_reversal lg fr fi)) i = aget fr (bit_reversed lg i) /\
     aget (snd (FFTfix_bit_reversal lg fr fi)) i = aget fi (bit_reversed lg i)) /\
  fst (FFTfix_bit_reversal 3 [0; 1; 2; 3; 4; 5; 6; 7] [0; 0; 0; 0; 0; 0; 0; 0])
    = [0; 4; 2; 6; 1; 5; 3; 7].
Proof.
  intros Hfr Hfi. pose proof NUM_SAMPLES_pos as HN.
  assert (Hcount : Z.of_nat (Z.to_nat (NUM_SAMPLES_M_1 lg - 1)) = N - 2).
  { unfold NUM_SAMPLES_M_1. lia. }
  split; [| split; [| split; [| split]]].
  - unfold FFTfix_bit_reversal. rewrite for_loop_foldl, Hcount. reflexivity.
  - intros m i _ Hi. apply bit_reversed_bit. exact Hi.
  - intros m k Hm Hk. cbv zeta. rewrite bit_reversal_step_exchange.
    fold (swapped_at lg m k).
    rewrite <- !exchange_swapped_at by lia.
    destruct (rev m <=? m); split; reflexivity.
  - pose proof (for_loop_invariant (reversal_invariant lg fr fi) (bit_reversal_step lg)
                  (Z.to_nat (NUM_SAMPLES_M_1 lg - 1)) 1 (fr, fi)
                  (reversal_invariant_start fr fi)) as Hloop.
    rewrite Hcount in Hloop.
    destruct Hloop as (_ & _ & Hcells).
    { intros i t Hi. apply reversal_invariant_step; assumption || lia. }
    intros i Hi. fold (FFTfix_bit_reversal lg fr fi) in Hcells.
    replace (1 + (N - 2)) with (N - 1) in Hcells by lia.
    rewrite <- (source_after_end i Hi). apply Hcells. exact Hi.
  - reflexivity.
Qed.

End BitReversal.

Lemma bit_reversal_phase_witness :
  let fr := [0; 1; 2; 3; 4; 5; 6; 7] in
  let fi := [0; 0; 0; 0; 0; 0; 0; 0] in
  FFTfix_bit_reversal 3 fr fi =
    foldl (fun a m => bit_reversal_step 3 m a) (fr, fi) (seqZ 1 (NUM_SAMPLES 3 - 2)) /\
  (forall m i, 1 <= m <= NUM_SAMPLES 3 - 2 -> 0 <= i ->
     Z.testbit (bit_reversed 3 m) i =
     if i <? 3 then Z.testbit m (3 - 1 - i) else false) /\
  (forall m k, 1 <= m <= NUM_SAMPLES 3 - 2 -> 0 <= k < NUM_SAMPLES 3 ->
     let a := bit_reversal_step 3 m (fr, fi) in
     let from := if m <? bit_reversed 3 m
                 then (if k =? m then bit_reversed 3 m
                       else if k =? bit_reversed 3 m then m else k)
                 else k in
     aget (fst a) k = aget fr from /\ aget (snd a) k = aget fi from) /\
  (forall i, 0 <= i < NUM_SAMPLES 3 ->
     aget (fst (FFTfix_bit_reversal 3 fr fi)) i = aget fr (bit_reversed 3 i) /\
     aget (snd (FFTfix_bit_reversal 3 fr fi)) i = aget fi (bit_reversed 3 i)) /\
  fst (FFTfix_bit_reversal 3 [0; 1; 2; 3; 4; 5; 6; 7] [0; 0; 0; 0; 0; 0; 0; 0])
    = [0; 4; 2; 6; 1; 5; 3; 7].
Proof.
  apply (bit_reversal_phase 3 ltac:(lia)); reflexivity.
Defined.

(** ** Magnitudes and peak search *)

Lemma zero_point_4_eq : zero_point_4 = 13107.
Proof. reflexivity. Qed.

Lemma abs_int_small x : Z.abs x <= 2 ^ 30 -> abs_int x = Z.abs x.
Proof. intros Hx. apply to_int32_small. unfold int32_range. lia. Qed.

(** Away from overflow the estimate is max + 0.4 min on the absolute values,
    0.4 being 13107/32768 and the product rounded down. *)
Lemma approx_magnitude_alpha_max_beta_min re im :
  Z.abs re <= 2 ^ 30 -> Z.abs im <= 2 ^ 30 ->
  approx_magnitude re im =
  Z.max (Z.abs re) (Z.abs im) + Z.min (Z.abs re) (Z.abs im) * 13107 / 2 ^ 15.
Proof.
  intros Hre Him. unfold approx_magnitude.
  rewrite !abs_int_small, zero_point_4_eq by assumption.
  assert (Hmax : max_macro (Z.abs re) (Z.abs im) = Z.max (Z.abs re) (Z.abs im)).
  { unfold max_macro. rewrite Z.gtb_ltb. destruct (Z.ltb_spec (Z.abs im) (Z.abs re)); lia. }
  assert (Hmin : min_macro (Z.abs re) (Z.abs im) = Z.min (Z.abs re) (Z.abs im)).
  { unfold min_macro. destruct (Z.ltb_spec (Z.abs re) (Z.abs im)); lia. }
  rewrite Hmax, Hmin.
  set (lo := Z.min (Z.abs re) (Z.abs im)).
  assert (Hlo : 0 <= lo <= 2 ^ 30) by lia.
  assert (Hq : 0 <= lo * 13107 / 2 ^ 15 <= 2 ^ 29).
  { split; [apply Z.div_pos; lia |].
    apply Z.lt_succ_r, Z.div_lt_upper_bound; lia. }
  rewrite multfix15_floor by (unfold int32_range; lia).
  rewrite (to_int32_small (lo * 13107 / 2 ^ 15)) by (unfold int32_range; lia).
  apply to_int32_small. unfold int32_range. lia.
Qed.

Section PeakSearch.

Variable lg : Z.
Hypothesis lg_pos : 1 <= lg.
Variables fr fi : list Z.
Hypothesis fr_length : Z.of_nat (length fr) = NUM_SAMPLES lg.
Hypothesis fi_length : Z.of_nat (length fi) = NUM_SAMPLES lg.

Local Abbreviation bins := (Z.shiftr (NUM_SAMPLES lg) 1).
Local Abbreviation mag := (fun j => approx_magnitude (aget fr j) (aget fi j)).

Lemma bins_below_samples : 0 < bins < NUM_SAMPLES lg.
Proof.
  unfold NUM_SAMPLES. rewrite Z.shiftr_div_pow2 by lia.
  assert (E : 2 ^ lg = 2 ^ (lg - 1) * 2 ^ 1).
  { rewrite <- Z.pow_add_r by lia. f_equal. lia. }
  rewrite E, Z.div_mul by lia.
  assert (0 < 2 ^ (lg - 1)) by (apply Z.pow_pos_nonneg; lia). lia.
Qed.

(** One round at an index inside both arrays: cell [i] of [fi] gets its
    absolute value, cell [i] of [fr] the magnitude estimate of the bin, and
    the running maximum moves when the estimate is larger and [i > 4]. *)
Lemma magnitude_step_fields p i :
  0 <= i < Z.of_nat (length (pk_fr p)) ->
  0 <= i < Z.of_nat (length (pk_fi p)) ->
  let m := approx_magnitude (aget (pk_fr p) i) (aget (pk_fi p) i) in
  magnitude_step i p =
  mkPeak (aset (aset (pk_fr p) i (abs_int (aget (pk_fr p) i))) i m)
         (aset (pk_fi p) i (abs_int (aget (pk_fi p) i)))
         (if (max_fr p <? m) && (4 <? i) then m else max_fr p)
         (if (max_fr p <? m) && (4 <? i) then i else max_fr_dex p).
Proof.
  intros Hr Hi. cbv zeta. unfold magnitude_step. cbv zeta.
  rewrite !aget_aset_eq by (rewrite ?length_aset; lia).
  fold (approx_magnitude (aget (pk_fr p) i) (aget (pk_fi p) i)).
  destruct ((max_fr p <? _) && (4 <? i)); reflexivity.
Qed.

Lemma search_invariant_start : search_invariant fr fi 0 (mkPeak fr fi 0 0).
Proof.
  repeat split; cbn; intros; try lia.
  left. repeat split; intros; lia.
Qed.

Lemma search_invariant_step I p :
  0 <= I < bins ->
  search_invariant fr fi I p -> search_invariant fr fi (I + 1) (magnitude_step I p).
Proof.
  intros HI (Hl1 & Hl2 & Hdone & Htodo & Hbest).
  pose proof bins_below_samples as Hb.
  rewrite magnitude_step_fields by lia. cbv zeta.
  destruct (Htodo I ltac:(lia)) as [-> ->].
  set (m := approx_magnitude (aget fr I) (aget fi I)).
  assert (Hm : m = mag I) by reflexivity.
  split; [cbn; rewrite !length_aset; exact Hl1 |].
  split; [cbn; rewrite !length_aset; exact Hl2 |].
  split; [| split]; cbn [pk_fr pk_fi max_fr max_fr_dex].
  - intros j Hj. destruct (Z.eq_dec j I) as [-> | Hne].
    + rewrite !aget_aset_eq by (rewrite ?length_aset; lia). split; reflexivity.
    + rewrite !aget_aset_ne by lia. apply Hdone. lia.
  - intros j Hj. rewrite !aget_aset_ne by lia. apply Htodo. lia.
  - destruct (Z.ltb_spec (max_fr p) m) as [Hlt | Hge];
      destruct (Z.ltb_spec 4 I) as [H4 | H4]; cbn [andb].
    + (* a new maximum *)
      right. repeat split; try lia.
      * intros j Hj. destruct Hbest as [(_ & H0 & Hle) | (_ & _ & _ & _ & Hle)];
          specialize (Hle j ltac:(lia)); lia.
      * intros j Hj. destruct (Z.eq_dec j I) as [-> | Hne]; [lia |].
        destruct Hbest as [(_ & H0 & Hle) | (_ & _ & _ & _ & Hle)];
          specialize (Hle j ltac:(lia)); lia.
    + (* larger, but one of the bins 0..4 *)
      destruct Hbest as [(Hd & H0 & Hle) | (Hd & _)]; [| lia].
      left. repeat split; try assumption. intros j Hj. lia.
    + (* not larger *)
      destruct Hbest as [(Hd & H0 & Hle) | (Hd & He & Hp & Hfirst & Hle)].
      * left. repeat split; try assumption. intros j Hj.
        destruct (Z.eq_dec j I) as [-> | Hne]; [lia | apply Hle; lia].
      * right. repeat split; try assumption; try lia. intros j Hj.
        destruct (Z.eq_dec j I) as [-> | Hne]; [lia | apply Hle; lia].
    + destruct Hbest as [(Hd & H0 & Hle) | (Hd & _)]; [| lia].
      left. repeat split; try assumption. intros j Hj. lia.
Qed.

Lemma search_invariant_end : search_invariant fr fi bins (peak_search lg fr fi).
Proof.
  pose proof bins_below_samples as Hb.
  pose proof (for_loop_invariant (search_invariant fr fi) magnitude_step
                (Z.to_nat bins) 0 (mkPeak fr fi 0 0) search_invariant_start) as Hloop.
  rewrite Z2Nat.id, Z.add_0_l in Hloop by lia.
  apply Hloop. intros i t Hi. apply search_invariant_step. lia.
Qed.

(** C4 (amended). For arrays of [NUM_SAMPLES] cells the search leaves in
    [fr], for each of the first [NUM_SAMPLES/2] bins, the estimate
    [approx_magnitude] of the bin, which away from overflow is
    max(|re|,|im|) + 0.4 min(|re|,|im|) in fix15; it excludes the lowest 5
    bins (indices 0 to 4): when some bin from 5 on has a positive estimate,
    [max_fr_dex] is the first bin in [[5, NUM_SAMPLES/2)] whose estimate is
    largest there and [max_fr] is that estimate; when none has, both stay 0. *)
Theorem peak_search_excludes_lowest_five :
  let p := peak_search lg fr fi in
  let bins := Z.shiftr (NUM_SAMPLES lg) 1 in
  let mag := fun j => approx_magnitude (aget fr j) (aget fi j) in
  (forall j, 0 <= j < bins -> aget (pk_fr p) j = mag j) /\
  (forall j, Z.abs (aget fr j) <= 2 ^ 30 -> Z.abs (aget fi j) <= 2 ^ 30 ->
     mag j = Z.max (Z.abs (aget fr j)) (Z.abs (aget fi j))
             + Z.min (Z.abs (aget fr j)) (Z.abs (aget fi j)) * 13107 / 2 ^ 15) /\
  ((exists j, 5 <= j < bins /\ 0 < mag j) ->
     peak_among 5 bins mag (max_fr_dex p) /\
     max_fr p = mag (max_fr_dex p) /\
     forall j, 5 <= j < max_fr_dex p -> mag j < mag (max_fr_dex p)) /\
  ((forall j, 5 <= j < bins -> mag j <= 0) ->
     max_fr_dex p = 0 /\ max_fr p = 0).
Proof.
  cbv zeta.
  destruct search_invariant_end as (_ & _ & Hdone & _ & Hbest).
  split; [| split; [| split]].
  - intros j Hj. apply Hdone. exact Hj.
  - intros j Hre Him. apply approx_magnitude_alpha_max_beta_min; assumption.
  - intros [j [Hj Hpos]].
    destruct Hbest as [(_ & _ & Hle) | (Hd & He & _ & Hfirst & Hle)].
    + specialize (Hle j Hj). cbv beta in Hle. lia.
    + unfold peak_among. cbv beta. rewrite <- He.
      repeat split; try lia; assumption.
  - intros Hnone.
    destruct Hbest as [(Hd & H0 & _) | (Hd & He & Hp & _)]; [split; assumption |].
    specialize (Hnone _ Hd). cbv beta in Hnone. lia.
Qed.

End PeakSearch.

(** C4, as the spec states it, fails: with energy 2.0 in bin 4 and 1.0 in
    bin 7 the search returns bin 7, which is not a largest bin once only the
    lowest 4 bins (0 to 3) are set aside. *)
Lemma peak_search_skips_bin_four :
  ~ peak_among 4 (Z.shiftr (NUM_SAMPLES 10) 1)
      (fun j => approx_magnitude (aget two_peaks_fr j) (aget two_peaks_fi j))
      (max_fr_dex (peak_search 10 two_peaks_fr two_peaks_fi)).
Proof.
  assert (Hdex : max_fr_dex (peak_search 10 two_peaks_fr two_peaks_fi) = 7)
    by (vm_compute; reflexivity).
  rewrite Hdex. change (Z.shiftr (NUM_SAMPLES 10) 1) with 512.
  intros [_ Hmax]. specialize (Hmax 4 ltac:(lia)). cbv beta in Hmax.
  change (aget two_peaks_fr 4) with 65536 in Hmax.
  change (aget two_peaks_fr 7) with 32768 in Hmax.
  change (aget two_peaks_fi 4) with 0 in Hmax.
  change (aget two_peaks_fi 7) with 0 in Hmax.
  vm_compute in Hmax. apply Hmax. reflexivity.
Qed.

Lemma peak_search_excludes_lowest_five_witness :
  let p := peak_search 10 two_peaks_fr two_peaks_fi in
  let bins := Z.shiftr (NUM_SAMPLES 10) 1 in
  let mag := fun j => approx_magnitude (aget two_peaks_fr j) (aget two_peaks_fi j) in
  (forall j, 0 <= j < bins -> aget (pk_fr p) j = mag j) /\
  (forall j, Z.abs (aget two_peaks_fr j) <= 2 ^ 30 ->
     Z.abs (aget two_peaks_fi j) <= 2 ^ 30 ->
     mag j = Z.max (Z.abs (aget two_peaks_fr j)) (Z.abs (aget two_peaks_fi j))
             + Z.min (Z.abs (aget two_peaks_fr j)) (Z.abs (aget two_peaks_fi j))
               * 13107 / 2 ^ 15) /\
  ((exists j, 5 <= j < bins /\ 0 < mag j) ->
     peak_among 5 bins mag (max_fr_dex p) /\
     max_fr p = mag (max_fr_dex p) /\
     forall j, 5 <= j < max_fr_dex p -> mag j < mag (max_fr_dex p)) /\
  ((forall j, 5 <= j < bins -> mag j <= 0) ->
     max_fr_dex p = 0 /\ max_fr p = 0).
Proof.
  apply (peak_search_excludes_lowest_five 10 ltac:(lia) two_peaks_fr two_peaks_fi);
    reflexivity.
Defined.

(** ** The ping-pong handshake *)

Lemma run_snoc tr e s :
  run (tr ++ [e]) s = match run tr s with Some s' => fire e s' | None => None end.
Proof.
  revert s. induction tr as [| e' tr IH]; intros s; cbn.
  - destruct (fire e s); reflexivity.
  - destruct (fire e' s); [apply IH | reflexivity].
Qed.

Lemma to_int32_succ x : to_int32 (to_int32 x + 1) = to_int32 (x + 1).
Proof.
  unfold to_int32, wrap_signed. change (2 ^ (32 - 1)) with (2 ^ 31).
  f_equal.
  replace ((x + 2 ^ 31) mod 2 ^ 32 - 2 ^ 31 + 1 + 2 ^ 31)
    with ((x + 2 ^ 31) mod 2 ^ 32 + 1) by lia.
  rewrite Zplus_mod_idemp_l. f_equal. lia.
Qed.

Lemma turn_S q : turn (S q) = other (turn q).
Proof.
  unfold turn. rewrite Nat.even_succ, <- Nat.negb_even.
  destruct (Nat.even q); reflexivity.
Qed.

Lemma rounds_S q : rounds (S q) = rounds q ++ heartbeat_body (turn q).
Proof.
  unfold rounds. rewrite seq_S, flat_map_app. cbn [flat_map]. rewrite app_nil_r. reflexivity.
Qed.

Lemma beats_snoc tr e :
  beats (tr ++ [e]) =
  beats tr ++ match e with Beat c a => [(c, a)] | _ => [] end.
Proof. unfold beats. rewrite omap_app. destruct e; reflexivity. Qed.

Lemma stmt_eqb_eq a b : stmt_eqb a b = true -> a = b.
Proof. destruct a, b; cbn; congruence. Qed.

Lemma ping_pong_invariant_boot : ping_pong_invariant [] handshake_boot.
Proof.
  exists 0%nat, 0%nat.
  repeat split; try reflexivity; try lia; intros; discriminate.
Qed.

Lemma lines_snoc (ls : list line) (l : line) :
  (forall i k, ls !! i = Some k ->
     line_core k = turn i /\ line_counter k = to_int32 (Z.of_nat i + 1)) ->
  line_core l = turn (length ls) ->
  line_counter l = to_int32 (Z.of_nat (length ls) + 1) ->
  forall i k, (ls ++ [l]) !! i = Some k ->
    line_core k = turn i /\ line_counter k = to_int32 (Z.of_nat i + 1).
Proof.
  intros Hls Hc Hn i k Hk.
  apply lookup_snoc_Some in Hk. destruct Hk as [[_ Hk] | [-> <-]].
  - apply Hls. exact Hk.
  - split; assumption.
Qed.

Lemma ping_pong_invariant_step tr s e s' :
  ping_pong_invariant tr s -> fire e s = Some s' ->
  ping_pong_invariant (tr ++ [e]) s'.
Proof.
  intros (q & r & Hr & Hb & Hpt & Hpo & Hgo & Hgoo & Hcnt & Hreg & Hlen & Hlines) Hf.
  unfold ping_pong_invariant. rewrite beats_snoc, Hb.
  destruct e as [c a | | | f | c].
  - unfold fire in Hf. destruct (stmt_eqb (pt c s) a) eqn:Ha; [| discriminate].
    apply stmt_eqb_eq in Ha.
    assert (Hc : c = turn q \/ c = other (turn q)) by (destruct c, (turn q); auto).
    destruct Hc as [-> | ->].
    + rewrite Hpt in Ha. subst a.
      destruct r as [| [| [| [| [| [| [| r]]]]]]]; try lia;
        cbn [stmt_at nth body_order] in Hf |- *;
        cbn [Nat.leb Nat.eqb] in Hcnt, Hlen, Hgo.
      * (* Wait *)
        unfold PT_SEM_SAFE_WAIT in Hf. rewrite Hgo in Hf. cbn in Hf. inv_some.
        exists q, 1%nat. split; [lia |]. split; [rewrite <- !app_assoc; reflexivity |].
        destruct (turn q); hs_fields; hs_close Hlines.
      * (* Load *)
        inv_some. exists q, 2%nat.
        split; [lia |]. split; [rewrite <- !app_assoc; reflexivity |].
        destruct (turn q); hs_fields; hs_close Hlines.
      * (* Store *)
        inv_some. exists q, 3%nat. specialize (Hreg eq_refl).
        assert (Hnew : to_int32 (reg (turn q) s + 1) = to_int32 (Z.of_nat (q + 1))).
        { rewrite Hreg, Hcnt, to_int32_succ. f_equal. lia. }
        split; [lia |]. split; [rewrite <- !app_assoc; reflexivity |].
        destruct (turn q); hs_fields; hs_close Hlines.
      * (* Print *)
        inv_some. exists q, 4%nat.
        assert (Hnew : forall i k,
                  (console s ++ [mkLine (turn q) (global_counter s)
                                   (isr_core (turn q) s) (fr_max s) (FFT_count s)]) !! i
                  = Some k ->
                  line_core k = turn i /\ line_counter k = to_int32 (Z.of_nat i + 1)).
        { apply lines_snoc; [exact Hlines | |]; cbn [line_core line_counter].
          - rewrite Hlen. f_equal. cbn. lia.
          - rewrite Hcnt, Hlen. cbn. f_equal. lia. }
        split; [lia |]. split; [rewrite <- !app_assoc; reflexivity |].
        destruct (turn q); hs_fields; hs_close Hnew;
          rewrite length_app, Hlen; cbn; lia.
      * (* Reset *)
        inv_some. exists q, 5%nat.
        split; [lia |]. split; [rewrite <- !app_assoc; reflexivity |].
        destruct (turn q); hs_fields; hs_close Hlines.
      * (* Sleep *)
        inv_some. exists q, 6%nat.
        split; [lia |]. split; [rewrite <- !app_assoc; reflexivity |].
        destruct (turn q); hs_fields; hs_close Hlines.
      * (* Signal *)
        inv_some. exists (S q), 0%nat. rewrite turn_S, rounds_S.
        unfold PT_SEM_SAFE_SIGNAL.
        split; [lia |]. split; [rewrite <- !app_assoc; reflexivity |].
        destruct (turn q); hs_fields; hs_close Hlines;
          rewrite Hcnt; do 2 f_equal; lia.
    + (* the other core is at its wait, and its semaphore is not signaled *)
      rewrite Hpo in Ha. subst a. unfold PT_SEM_SAFE_WAIT in Hf.
      rewrite Hgoo in Hf. cbn in Hf. discriminate.
  - (* the transform counter is loaded *)
    cbn in Hf. destruct (reg_fft s); [discriminate |].
    inv_some. exists q, r. rewrite app_nil_r.
    split; [lia |]. split; [reflexivity |].
    destruct (turn q); hs_fields; hs_close Hlines.
  - (* the transform counter is stored *)
    cbn in Hf. destruct (reg_fft s); [| discriminate].
    inv_some. exists q, r. rewrite app_nil_r.
    split; [lia |]. split; [reflexivity |].
    destruct (turn q); hs_fields; hs_close Hlines.
  - (* a frequency is published *)
    cbn in Hf. destruct (reg_fft s); [discriminate |].
    inv_some. exists q, r. rewrite app_nil_r.
    split; [lia |]. split; [reflexivity |].
    destruct (turn q); hs_fields; hs_close Hlines.
  - (* a timer callback *)
    cbn in Hf. inv_some. exists q, r. rewrite app_nil_r.
    split; [lia |]. split; [reflexivity |].
    destruct (turn q), c; hs_fields; hs_close Hlines.
Qed.

Lemma run_invariant tr : forall s,
  run tr handshake_boot = Some s -> ping_pong_invariant tr s.
Proof.
  induction tr as [| e tr IH] using rev_ind; intros s Hrun.
  - cbn in Hrun. inv_some. apply ping_pong_invariant_boot.
  - rewrite run_snoc in Hrun.
    destruct (run tr handshake_boot) as [s0 |] eqn:H0; [| discriminate].
    exact (ping_pong_invariant_step tr s0 e s (IH s0 eq_refl) Hrun).
Qed.

(** Each whole body runs every statement once. *)
Lemma times_rounds a q :
  length (filter (fun b : core * stmt => stmt_eqb (snd b) a = true) (rounds q)) = q.
Proof.
  induction q as [| q IH]; [reflexivity |].
  rewrite rounds_S, filter_app, length_app, IH.
  assert (Hone : length (filter (fun b : core * stmt => stmt_eqb (snd b) a = true)
                          (heartbeat_body (turn q))) = 1%nat)
    by (destruct (turn q), a; reflexivity).
  lia.
Qed.

Lemma times_schedule a q r c tr :
  (r < 7)%nat ->
  beats tr = rounds q ++ take r (heartbeat_body c) ->
  times a tr =
  (q + length (filter (fun x => stmt_eqb x a = true) (take r body_order)))%nat.
Proof.
  intros Hr Hb. unfold times. rewrite Hb, filter_app, length_app, times_rounds.
  f_equal.
  destruct r as [| [| [| [| [| [| [| r]]]]]]]; try lia; destruct a; reflexivity.
Qed.

Lemma times_snoc a tr e :
  times a (tr ++ [e]) =
  (times a tr + match e with
                | Beat _ b => if stmt_eqb b a then 1 else 0
                | _ => 0
                end)%nat.
Proof.
  unfold times. rewrite beats_snoc, filter_app, length_app. f_equal.
  destruct e as [c b | | | f | c]; try reflexivity.
  cbn [filter]. rewrite filter_cons. cbn [snd].
  destruct (stmt_eqb b a); [rewrite decide_True by reflexivity | rewrite decide_False by discriminate];
    reflexivity.
Qed.

(** There are as many lines on the console as reports were run. *)
Lemma console_length tr s :
  run tr handshake_boot = Some s -> length (console s) = times Print tr.
Proof.
  intros Hrun.
  destruct (run_invariant tr s Hrun) as (q & r & Hr & Hb & _ & _ & _ & _ & _ & _ & Hlen & _).
  rewrite Hlen, (times_schedule Print q r _ tr Hr Hb). f_equal.
  destruct r as [| [| [| [| [| [| [| r]]]]]]]; try lia; reflexivity.
Qed.

(** What a heartbeat statement does to the telemetry: only the reset writes
    [FFT_count], only the report writes to the console, and none touches
    [fr_max] or the register of [protothread_fft]. *)
Lemma beat_telemetry c a s s' :
  fire (Beat c a) s = Some s' ->
  fr_max s' = fr_max s /\ reg_fft s' = reg_fft s /\
  FFT_count s' = (if stmt_eqb a Reset then 0 else FFT_count s) /\
  console s' =
    (if stmt_eqb a Print
     then console s ++ [mkLine c (global_counter s) (isr_core c s) (fr_max s) (FFT_count s)]
     else console s).
Proof.
  unfold fire. destruct (stmt_eqb (pt c s) a); [| discriminate].
  destruct a; cbn [stmt_eqb]; intros Hf; try (inv_some; destruct c; repeat split).
  unfold PT_SEM_SAFE_WAIT in Hf. destruct (0 <? go c s); [| discriminate].
  cbn in Hf. inv_some. destruct c; repeat split.
Qed.

Lemma fft_view_snoc tr e : fft_view (tr ++ [e]) = fft_step (fft_view tr) e.
Proof. unfold fft_view. rewrite foldl_app. reflexivity. Qed.

Lemma published_snoc tr e :
  published (tr ++ [e]) = match e with FftMax f => f | _ => published tr end.
Proof. unfold published. rewrite foldl_app. reflexivity. Qed.

(** The telemetry globals against the trace: [fr_max] is the frequency
    published last; the register of [protothread_fft] is in use exactly while
    an increment is under way; [FFT_count] is 0 while no increment was stored
    since the last reset; and as long as no reset fell into an increment,
    [FFT_count] counts the increments stored since the last reset and a loaded
    register holds the current count. *)
Lemma telemetry_invariant tr : forall s,
  run tr handshake_boot = Some s ->
  fr_max s = published tr /\
  (increment_pending tr = false <-> reg_fft s = None) /\
  (transforms_since_reset tr = 0%nat -> FFT_count s = 0) /\
  (torn tr = false ->
     FFT_count s = to_int32 (Z.of_nat (transforms_since_reset tr)) /\
     forall r, reg_fft s = Some r -> r = FFT_count s).
Proof.
  induction tr as [| e tr IH] using rev_ind; intros s Hrun.
  - cbn in Hrun. inv_some. repeat split; intros; discriminate.
  - rewrite run_snoc in Hrun.
    destruct (run tr handshake_boot) as [s0 |] eqn:H0; [| discriminate].
    destruct (IH s0 eq_refl) as (Hmax & Hpend & Hzero & Hexact). clear IH.
    unfold transforms_since_reset, increment_pending, torn in *.
    rewrite fft_view_snoc, published_snoc.
    destruct (fft_view tr) as [[n pending] t]. cbn [fst snd] in *.
    destruct e as [c a | | | f | c].
    + destruct (beat_telemetry c a s0 s Hrun) as (-> & -> & -> & _).
      destruct a; cbn [fft_step stmt_eqb fst snd];
        try (split; [exact Hmax |]; split; [exact Hpend |]; split; assumption).
      split; [exact Hmax |]. split; [exact Hpend |]. split; [reflexivity |].
      intros Ht. apply orb_false_elim in Ht. destruct Ht as [Ht Hp].
      split; [reflexivity |]. intros r Hr.
      apply Hpend in Hp. congruence.
    + cbn in Hrun. destruct (reg_fft s0) eqn:Hreg; [discriminate |]. inv_some.
      cbn [fft_step fst snd]. hs_fields.
      split; [exact Hmax |]. split; [split; discriminate |]. split; [exact Hzero |].
      intros Ht. destruct (Hexact Ht) as [Hc _]. split; [exact Hc |].
      intros r Hr. congruence.
    + cbn in Hrun. destruct (reg_fft s0) as [r |] eqn:Hreg; [| discriminate]. inv_some.
      cbn [fft_step fst snd]. hs_fields.
      split; [exact Hmax |]. split; [split; reflexivity |]. split; [discriminate |].
      intros Ht. destruct (Hexact Ht) as [Hc Hr]. split; [| discriminate].
      rewrite (Hr r eq_refl), Hc, to_int32_succ. f_equal. lia.
    + cbn in Hrun. destruct (reg_fft s0) eqn:Hreg; [discriminate |]. inv_some.
      cbn [fft_step fst snd]. hs_fields. rewrite Hreg.
      split; [reflexivity |]. split; [exact Hpend |].
      split; [exact Hzero | exact Hexact].
    + cbn in Hrun. inv_some. cbn [fft_step fst snd].
      destruct c; hs_fields; (split; [exact Hmax |]; split; [exact Hpend |]; split; assumption).
Qed.

(** Every line on the console was printed by a report of the trace, from the
    globals as they were when the report ran. *)
Lemma console_reports tr : forall s,
  run tr handshake_boot = Some s ->
  forall i l, console s !! i = Some l ->
  exists tr1 tr2 s1,
    tr = tr1 ++ Beat (line_core l) Print :: tr2 /\
    times Print tr1 = i /\
    run tr1 handshake_boot = Some s1 /\
    l = mkLine (line_core l) (global_counter s1) (isr_core (line_core l) s1)
          (fr_max s1) (FFT_count s1).
Proof.
  induction tr as [| e tr IH] using rev_ind; intros s Hrun i l Hl.
  - cbn in Hrun. inv_some. discriminate.
  - rewrite run_snoc in Hrun.
    destruct (run tr handshake_boot) as [s0 |] eqn:H0; [| discriminate].
    assert (Hold : console s0 !! i = Some l ->
              exists tr1 tr2 s1,
                tr ++ [e] = tr1 ++ Beat (line_core l) Print :: tr2 /\
                times Print tr1 = i /\
                run tr1 handshake_boot = Some s1 /\
                l = mkLine (line_core l) (global_counter s1) (isr_core (line_core l) s1)
                      (fr_max s1) (FFT_count s1)).
    { intros Hl0. destruct (IH s0 eq_refl i l Hl0) as (tr1 & tr2 & s1 & -> & Ht & Hr & El).
      exists tr1, (tr2 ++ [e]), s1. rewrite <- app_assoc. repeat split; assumption. }
    destruct e as [c a | | | f | c].
    + destruct (beat_telemetry c a s0 s Hrun) as (_ & _ & _ & Hcon).
      destruct a; cbn [stmt_eqb] in Hcon; rewrite Hcon in Hl; try (apply Hold, Hl).
      apply lookup_snoc_Some in Hl. destruct Hl as [[_ Hl] | [-> <-]]; [apply Hold, Hl |].
      exists tr, [], s0. cbn [line_core].
      repeat split; [symmetry; apply console_length, H0 | exact H0].
    + cbn in Hrun. destruct (reg_fft s0); [discriminate |]. inv_some. apply Hold, Hl.
    + cbn in Hrun. destruct (reg_fft s0); [| discriminate]. inv_some. apply Hold, Hl.
    + cbn in Hrun. destruct (reg_fft s0); [discriminate |]. inv_some. apply Hold, Hl.
    + cbn in Hrun. inv_some. destruct c; apply Hold, Hl.
Qed.

(** C9. In every run of the two heartbeat threads from the state [main]
    leaves (core 0's semaphore signaled, core 1's not), interleaved in any
    way with each other, with the FFT thread and with the timer callbacks:
    at most one thread is past its wait; the heartbeat statements executed so
    far are whole bodies, core 0 and core 1 by turns and core 0 first,
    followed by the started part of the next body, each body being wait,
    increment (load, store), report, reset of the transform counter, sleep,
    signal, in this order; the counter was incremented once per signal (once
    more while a body is between its increment and its signal) and holds the
    number of increments.  Each report printed one line: the console has as
    many lines as reports were run, and the [i]-th line comes from the core
    whose turn it is, carries the count [i + 1] and the values [corenum],
    [fr_max] and [FFT_count] had when that report ran.  [fr_max] is the
    frequency published last.  Each reset zeroes the transform counter:
    [FFT_count] is 0 while no increment was stored since the last reset, and
    it counts the increments stored since the last reset as long as no reset
    fell between the load and the store of an increment. *)
Theorem handshake_strict_alternation (tr : list event) (s : handshake) :
  run tr handshake_boot = Some s ->
  (pt Core0 s = Wait \/ pt Core1 s = Wait) /\
  (exists q r, (r < 7)%nat /\
     beats tr = rounds q ++ take r (heartbeat_body (turn q))) /\
  (times Store tr = times Signal tr \/ times Store tr = S (times Signal tr)) /\
  global_counter s = to_int32 (Z.of_nat (times Store tr)) /\
  length (console s) = times Print tr /\
  (forall i l, console s !! i = Some l ->
     line_core l = turn i /\ line_counter l = to_int32 (Z.of_nat i + 1) /\
     exists tr1 tr2 s1,
       tr = tr1 ++ Beat (turn i) Print :: tr2 /\
       times Print tr1 = i /\
       run tr1 handshake_boot = Some s1 /\
       line_isr_core l = isr_core (turn i) s1 /\
       line_max_f l = fr_max s1 /\
       line_fft_count l = FFT_count s1) /\
  fr_max s = published tr /\
  (transforms_since_reset tr = 0%nat -> FFT_count s = 0) /\
  (torn tr = false -> FFT_count s = to_int32 (Z.of_nat (transforms_since_reset tr))).
Proof.
  intros Hrun.
  destruct (run_invariant tr s Hrun)
    as (q & r & Hr & Hb & Hpt & Hpo & Hgo & Hgoo & Hcnt & Hreg & Hlen & Hlines).
  destruct (telemetry_invariant tr s Hrun) as (Hmax & _ & Hzero & Hexact).
  pose proof (times_schedule Store q r _ tr Hr Hb) as Hst.
  pose proof (times_schedule Signal q r _ tr Hr Hb) as Hsg.
  assert (Hst' : times Store tr = (q + (if (3 <=? r)%nat then 1 else 0))%nat).
  { rewrite Hst. f_equal.
    destruct r as [| [| [| [| [| [| [| r]]]]]]]; try lia; reflexivity. }
  assert (Hsg' : times Signal tr = q).
  { rewrite Hsg.
    assert (Hnone : length (filter (fun x => stmt_eqb x Signal = true)
                              (take r body_order)) = 0%nat)
      by (destruct r as [| [| [| [| [| [| [| r]]]]]]]; try lia; reflexivity).
    lia. }
  split; [| split; [| split; [| split; [| split; [| split; [| split; [| split]]]]]]].
  - destruct (turn q); cbn in Hpo; auto.
  - exists q, r. split; assumption.
  - rewrite Hst', Hsg'. destruct (3 <=? r)%nat; lia.
  - rewrite Hst'. exact Hcnt.
  - apply console_length, Hrun.
  - intros i l Hl. destruct (Hlines i l Hl) as [Hcore Hline].
    split; [exact Hcore |]. split; [exact Hline |].
    destruct (console_reports tr s Hrun i l Hl) as (tr1 & tr2 & s1 & Htr & Ht & Hr1 & El).
    rewrite Hcore in Htr, El.
    exists tr1, tr2, s1. rewrite El. cbn [line_isr_core line_max_f line_fft_count].
    repeat split; assumption.
  - exact Hmax.
  - exact Hzero.
  - intros Ht. apply Hexact, Ht.
Qed.

Lemma handshake_strict_alternation_witness :
  let tr := one_round_trip in
  exists s, run tr handshake_boot = Some s /\
  (pt Core0 s = Wait \/ pt Core1 s = Wait) /\
  (exists q r, (r < 7)%nat /\
     beats tr = rounds q ++ take r (heartbeat_body (turn q))) /\
  (times Store tr = times Signal tr \/ times Store tr = S (times Signal tr)) /\
  global_counter s = to_int32 (Z.of_nat (times Store tr)) /\
  length (console s) = times Print tr /\
  (forall i l, console s !! i = Some l ->
     line_core l = turn i /\ line_counter l = to_int32 (Z.of_nat i + 1) /\
     exists tr1 tr2 s1,
       tr = tr1 ++ Beat (turn i) Print :: tr2 /\
       times Print tr1 = i /\
       run tr1 handshake_boot = Some s1 /\
       line_isr_core l = isr_core (turn i) s1 /\
       line_max_f l = fr_max s1 /\
       line_fft_count l = FFT_count s1) /\
  fr_max s = published tr /\
  (transforms_since_reset tr = 0%nat -> FFT_count s = 0) /\
  (torn tr = false -> FFT_count s = to_int32 (Z.of_nat (transforms_since_reset tr))).
Proof.
  eexists. split; [vm_compute; reflexivity |].
  apply (handshake_strict_alternation one_round_trip). vm_compute. reflexivity.
Defined.

(** * Further properties of the code *)

(** ** The fix15 macros *)

Lemma int2fix15_small a : - 2 ^ 16 <= a < 2 ^ 16 -> int2fix15 a = a * 2 ^ 15.
Proof.
  intros Ha. unfold int2fix15. rewrite Z.shiftl_mul_pow2 by lia.
  apply to_int32_small. unfold int32_range. lia.
Qed.

(** [fix2int15] recovers the integer [int2fix15] encoded and drops any
    fraction added to it, rounding toward minus infinity. *)
Theorem fix2int15_int2fix15 (a f : Z) :
  - 2 ^ 16 <= a < 2 ^ 16 -> 0 <= f < 2 ^ 15 ->
  fix2int15 (int2fix15 a + f) = a.
Proof.
  intros Ha Hf. rewrite int2fix15_small by assumption.
  unfold fix2int15. rewrite Z.shiftr_div_pow2 by lia.
  rewrite Z.div_add_l by lia. rewrite (Z.div_small f) by lia.
  rewrite Z.add_0_r. apply to_int32_small. unfold int32_range. lia.
Qed.

Lemma fix2int15_int2fix15_witness : fix2int15 (int2fix15 (-3) + 1) = -3.
Proof. apply (fix2int15_int2fix15 (-3) 1); lia. Defined.

(** Multiplying by an integer constant is exact while the product fits. *)
Theorem multfix15_by_integer (x n : Z) :
  int32_range x -> - 2 ^ 16 <= n < 2 ^ 16 -> int32_range (n * x) ->
  multfix15 x (int2fix15 n) = n * x.
Proof.
  intros Hx Hn Hnx. rewrite int2fix15_small by assumption.
  rewrite multfix15_floor by (unfold int32_range in *; lia).
  replace (x * (n * 2 ^ 15)) with (n * x * 2 ^ 15) by lia.
  rewrite Z.div_mul by lia. apply to_int32_small. exact Hnx.
Qed.

Lemma multfix15_by_integer_witness : multfix15 (-5) (int2fix15 36) = 36 * (-5).
Proof. apply (multfix15_by_integer (-5) 36); unfold int32_range; lia. Defined.

(** Scaling by a factor between 0 and 1.0 keeps the sign and does not
    increase the magnitude, so it cannot overflow. *)
Theorem multfix15_contracts (a b : Z) :
  int32_range a -> 0 <= b <= 2 ^ 15 ->
  Z.abs (multfix15 a b) <= Z.abs a /\
  (0 <= a -> 0 <= multfix15 a b) /\
  (a <= 0 -> multfix15 a b <= 0).
Proof.
  intros Ha Hb. unfold int32_range in Ha.
  rewrite multfix15_floor by (unfold int32_range; lia).
  assert (Hq : Z.min a 0 <= a * b / 2 ^ 15 <= Z.max a 0).
  { split.
    - apply Z.div_le_lower_bound; [lia | nia].
    - apply Z.lt_succ_r, Z.div_lt_upper_bound; [lia | nia]. }
  rewrite to_int32_small by (unfold int32_range; lia). lia.
Qed.

Lemma multfix15_contracts_witness :
  Z.abs (multfix15 (-7) 16384) <= Z.abs (-7) /\
  (0 <= -7 -> 0 <= multfix15 (-7) 16384) /\
  (-7 <= 0 -> multfix15 (-7) 16384 <= 0).
Proof. apply (multfix15_contracts (-7) 16384); unfold int32_range; lia. Defined.

Lemma divfix_quot_small a b :
  int32_range a -> int32_range b -> b <> 0 ->
  divfix_quot a b = to_int32 (Z.quot (a * 2 ^ 15) b).
Proof.
  intros Ha Hb Hnz. unfold int32_range in Ha, Hb. unfold divfix_quot.
  rewrite (to_int64_small a), (to_int64_small b) by lia.
  rewrite Z.shiftl_mul_pow2 by lia.
  rewrite (to_int64_small (a * 2 ^ 15)) by lia.
  assert (Hq : Z.abs (Z.quot (a * 2 ^ 15) b) <= Z.abs (a * 2 ^ 15)).
  { rewrite <- Z.quot_abs by assumption.
    transitivity (Z.quot (Z.abs (a * 2 ^ 15)) 1).
    - apply Z.quot_le_compat_l; lia.
    - rewrite Z.quot_1_r. lia. }
  rewrite to_int64_small by lia. reflexivity.
Qed.

(** Dividing by 1.0 returns the dividend, and a non-zero value divided by
    itself is 1.0. *)
Theorem divfix_one_and_self (a : Z) :
  int32_range a ->
  divfix a (int2fix15 1) = Value a /\
  (a <> 0 -> divfix a a = Value (int2fix15 1)).
Proof.
  intros Ha. split.
  - change (int2fix15 1) with (2 ^ 15). unfold divfix.
    change (2 ^ 15 =? 0) with false. cbv iota. f_equal.
    rewrite divfix_quot_small by (assumption || unfold int32_range; lia).
    rewrite Z.quot_mul by lia. apply to_int32_small. exact Ha.
  - intros Hnz. unfold divfix.
    destruct (Z.eqb_spec a 0) as [? | _]; [contradiction |]. f_equal.
    rewrite divfix_quot_small by assumption.
    rewrite Z.mul_comm, Z.quot_mul by assumption. reflexivity.
Qed.

Lemma divfix_one_and_self_witness :
  divfix (-98304) (int2fix15 1) = Value (-98304) /\
  (-98304 <> 0 -> divfix (-98304) (-98304) = Value (int2fix15 1)).
Proof. apply (divfix_one_and_self (-98304)). unfold int32_range. lia. Defined.

(** The magnitude estimate is at least the larger of |re| and |im| and its
    square is at most 1.16 times |re|^2 + |im|^2: it overestimates the true
    magnitude by less than 7.8 percent. *)
Theorem approx_magnitude_accuracy (re im : Z) :
  Z.abs re <= 2 ^ 30 -> Z.abs im <= 2 ^ 30 ->
  Z.max (Z.abs re) (Z.abs im) <= approx_magnitude re im /\
  25 * (approx_magnitude re im * approx_magnitude re im) <= 29 * (re * re + im * im).
Proof.
  intros Hre Him.
  rewrite approx_magnitude_alpha_max_beta_min by assumption.
  set (hi := Z.max (Z.abs re) (Z.abs im)).
  set (lo := Z.min (Z.abs re) (Z.abs im)).
  set (q := lo * 13107 / 2 ^ 15).
  assert (Hlo : 0 <= lo <= hi) by lia.
  assert (Hq : 0 <= q /\ 5 * q <= 2 * lo).
  { subst q. split; [apply Z.div_pos; lia |].
    pose proof (Z.mul_div_le (lo * 13107) (2 ^ 15) ltac:(lia)). lia. }
  assert (Hsq : re * re + im * im = hi * hi + lo * lo).
  { subst hi lo. destruct (Z.max_spec (Z.abs re) (Z.abs im)) as [[? ->] | [? ->]];
      destruct (Z.min_spec (Z.abs re) (Z.abs im)) as [[? ->] | [? ->]]; nia. }
  split; [lia |]. rewrite Hsq.
  assert (H1 : (5 * (hi + q)) * (5 * (hi + q)) <= (5 * hi + 2 * lo) * (5 * hi + 2 * lo))
    by (apply Z.square_le_mono_nonneg; lia).
  pose proof (Z.square_nonneg (2 * hi - 5 * lo)) as H2.
  clearbody hi lo q. nia.
Qed.

Lemma approx_magnitude_accuracy_witness :
  Z.max (Z.abs 98304) (Z.abs (-131072)) <= approx_magnitude 98304 (-131072) /\
  25 * (approx_magnitude 98304 (-131072) * approx_magnitude 98304 (-131072))
    <= 29 * (98304 * 98304 + -131072 * -131072).
Proof. apply (approx_magnitude_accuracy 98304 (-131072)); lia. Defined.

(** ** The DDS callbacks over time *)

Lemma lor_disjoint_add k out :
  0 <= out < 2 ^ 12 -> Z.lor (k * 2 ^ 12) out = k * 2 ^ 12 + out.
Proof.
  intros Hout.
  assert (Hland : Z.land (k * 2 ^ 12) out = 0).
  { apply Z.bits_inj'. intros i Hi.
    rewrite Z.land_spec, Z.bits_0, <- Z.shiftl_mul_pow2 by lia.
    destruct (Z.lt_ge_cases i 12).
    - rewrite Z.shiftl_spec_low by lia. reflexivity.
    - rewrite (testbit_above out 12 i) by lia. apply Bool.andb_false_r. }
  rewrite Z.add_nocarry_lxor by exact Hland.
  symmetry. apply Z.lxor_lor. exact Hland.
Qed.

Lemma DAC_config_nibble c : exists k, 0 <= k < 16 /\ DAC_config c = k * 2 ^ 12.
Proof. destruct c; [exists 11 | exists 3]; split; (lia || reflexivity). Qed.

Section DDSOverTime.

Variable sin_table : list Z.
Variable c : core.

Local Abbreviation tick := (repeating_timer_callback sin_table c).

(** What a callback does to the phase accumulator and to the SPI trace. *)
Lemma tick_phase_spi s :
  phase_incr_main (tick s) = phase_incr_main s /\
  phase_accum_main (tick s) =
    (if STATE s =? 0 then to_uint32 (phase_accum_main s + phase_incr_main s)
     else phase_accum_main s) /\
  spi_out (tick s) =
    (if STATE s =? 0 then DAC_data (tick s) :: spi_out s else spi_out s).
Proof.
  unfold repeating_timer_callback. cbv zeta.
  destruct (STATE s =? 0).
  - destruct (to_uint32 (count s + 1) =? BEEP_DURATION); repeat split.
  - destruct (to_uint32 (count s + 1) =? BEEP_REPEAT_INTERVAL); repeat split.
Qed.

(** After any number of callbacks the envelope is where the cycle of
    [CHIRP_CYCLE_TIME] ticks puts it. *)
Lemma envelope_after (n : nat) :
  envelope (Nat.iter n tick boot) = envelope_at (Z.of_nat n mod CHIRP_CYCLE_TIME).
Proof.
  induction n as [| n IH]; [reflexivity |].
  change (Nat.iter (S n) tick boot) with (tick (Nat.iter n tick boot)).
  pose proof (Z.mod_pos_bound (Z.of_nat n) CHIRP_CYCLE_TIME ltac:(dds_consts; lia)) as Hm.
  rewrite (envelope_at_step sin_table c _ _ Hm IH).
  rewrite Nat2Z.inj_succ, <- Z.add_1_r.
  destruct (Z.eq_dec (Z.of_nat n mod CHIRP_CYCLE_TIME + 1) CHIRP_CYCLE_TIME) as [He | Hne].
  - rewrite He.
    replace ((Z.of_nat n + 1) mod CHIRP_CYCLE_TIME) with 0; [reflexivity |].
    dds_consts. Z.div_mod_to_equations. lia.
  - f_equal. dds_consts. Z.div_mod_to_equations. lia.
Qed.

(** The beeps repeat for ever: [CHIRP_CYCLE_TIME] callbacks later the state,
    the counter and the amplitude are the same again, and the state is ACTIVE
    exactly during the first [BEEP_DURATION] ticks of each cycle. *)
Theorem envelope_periodic (n : nat) :
  envelope (Nat.iter (n + Z.to_nat CHIRP_CYCLE_TIME) (repeating_timer_callback sin_table c) boot)
  = envelope (Nat.iter n (repeating_timer_callback sin_table c) boot) /\
  (STATE (Nat.iter n (repeating_timer_callback sin_table c) boot) = 0 <->
   Z.of_nat n mod CHIRP_CYCLE_TIME < BEEP_DURATION).
Proof.
  split.
  - rewrite !envelope_after. f_equal.
    rewrite Nat2Z.inj_add, Z2Nat.id by (dds_consts; lia).
    rewrite <- (Z.mul_1_l CHIRP_CYCLE_TIME) at 1.
    apply Z.mod_add. dds_consts. lia.
  - pose proof (envelope_after n) as He.
    pose proof (Z.mod_pos_bound (Z.of_nat n) CHIRP_CYCLE_TIME ltac:(dds_consts; lia)) as Hm.
    unfold envelope_at in He. dds_consts.
    destruct (Z.of_nat n mod 50000 <? 10000) eqn:H1;
      [| destruct (Z.of_nat n mod 50000 <? 50000) eqn:H2];
      apply envelope_proj in He; destruct He as (-> & _ & _); bool_to_prop; lia.
Qed.

(** In every reachable state: the state is 0 or 1, the counter is below the
    length of the phase it counts, and the amplitude lies between 0 and
    [attack_inc * ATTACK_TIME], which is below [max_amplitude]. *)
Theorem dds_state_invariant (s : dds) :
  reachable sin_table c s ->
  (STATE s = 0 \/ STATE s = 1) /\
  0 <= count s < (if STATE s =? 0 then BEEP_DURATION else BEEP_REPEAT_INTERVAL) /\
  0 <= current_amplitude s <= attack_inc * ATTACK_TIME /\
  attack_inc * ATTACK_TIME < max_amplitude.
Proof.
  intros Hr. destruct (reachable_envelope sin_table c s Hr) as [t [Ht He]].
  unfold envelope_at in He.
  pose proof (ramp_range t) as Hramp. pose proof (ramp_range BEEP_DURATION) as Hend.
  change max_amplitude with 32768. dds_consts.
  destruct (t <? 10000) eqn:H1; [| destruct (t <? 50000) eqn:H2];
    apply envelope_proj in He; destruct He as (-> & -> & ->); bool_to_prop;
    cbn [Z.eqb]; repeat split; try lia; auto.
Qed.

(** The number of words written to the SPI after [n] callbacks:
    [BEEP_DURATION] for each whole cycle, and one per tick of the beep of the
    cycle under way. *)
Theorem spi_words_written (n : nat) :
  Z.of_nat (length (spi_out (Nat.iter n (repeating_timer_callback sin_table c) boot))) =
  BEEP_DURATION * (Z.of_nat n / CHIRP_CYCLE_TIME)
  + Z.min (Z.of_nat n mod CHIRP_CYCLE_TIME) BEEP_DURATION.
Proof.
  induction n as [| n IH]; [reflexivity |].
  change (Nat.iter (S n) tick boot) with (tick (Nat.iter n tick boot)).
  destruct (tick_phase_spi (Nat.iter n tick boot)) as (_ & _ & ->).
  pose proof (envelope_after n) as He.
  pose proof (Z.mod_pos_bound (Z.of_nat n) CHIRP_CYCLE_TIME ltac:(dds_consts; lia)) as Hm.
  unfold envelope_at in He.
  rewrite Nat2Z.inj_succ, <- Z.add_1_r.
  dds_consts.
  destruct (Z.of_nat n mod 50000 <? 10000) eqn:H1;
    [| destruct (Z.of_nat n mod 50000 <? 50000) eqn:H2];
    apply envelope_proj in He; destruct He as (-> & _ & _); bool_to_prop;
    try lia; cbn [Z.eqb length]; try rewrite Nat2Z.inj_succ; rewrite ?IH;
    Z.div_mod_to_equations; lia.
Qed.

(** The tone keeps its phase across the silences: after any number of
    callbacks the accumulator is the increment times the number of samples
    sent so far, modulo [2^32]. *)
Theorem phase_continuity (n : nat) :
  phase_accum_main (Nat.iter n (repeating_timer_callback sin_table c) boot) =
  (phase_incr_init
   * Z.of_nat (length (spi_out (Nat.iter n (repeating_timer_callback sin_table c) boot))))
  mod 2 ^ 32.
Proof.
  assert (H : phase_incr_main (Nat.iter n tick boot) = phase_incr_init /\
              phase_accum_main (Nat.iter n tick boot) =
              (phase_incr_init * Z.of_nat (length (spi_out (Nat.iter n tick boot))))
              mod 2 ^ 32); [| apply H].
  induction n as [| n [IHi IHp]]; [split; reflexivity |].
  change (Nat.iter (S n) tick boot) with (tick (Nat.iter n tick boot)).
  destruct (tick_phase_spi (Nat.iter n tick boot)) as (-> & -> & ->).
  split; [exact IHi |].
  destruct (STATE (Nat.iter n tick boot) =? 0); [| exact IHp].
  rewrite IHi, IHp. cbn [length]. rewrite Nat2Z.inj_succ.
  unfold to_uint32, wrap_unsigned. rewrite Zplus_mod_idemp_l. f_equal. lia.
Qed.

(** In every reachable state the phase accumulator is a 32-bit value, the
    increment is the one [main] set, and the accumulator's top byte indexes
    inside a table of [sine_table_size] entries. *)
Theorem phase_index_in_table (s : dds) :
  length sin_table = Z.to_nat sine_table_size ->
  reachable sin_table c s ->
  0 <= phase_accum_main s < 2 ^ 32 /\
  phase_incr_main s = phase_incr_init /\
  0 <= Z.shiftr (phase_accum_main s) 24 < sine_table_size /\
  sin_table !! Z.to_nat (Z.shiftr (phase_accum_main s) 24)
    = Some (aget sin_table (Z.shiftr (phase_accum_main s) 24)).
Proof.
  intros Hlen Hr.
  assert (Hph : 0 <= phase_accum_main s < 2 ^ 32 /\ phase_incr_main s = phase_incr_init).
  { induction Hr as [| s Hr [IH1 IH2]]; [split; [cbn; lia | reflexivity] |].
    destruct (tick_phase_spi s) as (-> & -> & _). split; [| exact IH2].
    destruct (STATE s =? 0); [| exact IH1].
    unfold to_uint32, wrap_unsigned. apply Z.mod_pos_bound. lia. }
  destruct Hph as [Hph Hinc].
  assert (Hidx : 0 <= Z.shiftr (phase_accum_main s) 24 < sine_table_size).
  { rewrite Z.shiftr_div_pow2 by lia. change sine_table_size with 256. split.
    - apply Z.div_pos; lia.
    - apply Z.div_lt_upper_bound; lia. }
  repeat split; try lia; try assumption.
  unfold aget.
  destruct (lookup_lt_is_Some_2 sin_table (Z.to_nat (Z.shiftr (phase_accum_main s) 24)))
    as [v Hv]; [rewrite Hlen; lia |].
  rewrite Hv. reflexivity.
Qed.

(** With the sine table within the bound [main] gives it, every sample of a
    running program fits the 12 data bits of the DAC word, so the word is the
    channel configuration plus the sample: the sample never reaches the four
    configuration bits. *)
Theorem dac_sample_in_12_bits (s : dds) :
  sine_bounded sin_table ->
  reachable sin_table c s ->
  STATE s = 0 ->
  let s' := repeating_timer_callback sin_table c s in
  2048 - 938 <= DAC_output s' <= 2048 + 937 /\
  DAC_data s' = DAC_config c + DAC_output s' /\
  Z.shiftr (DAC_data s') 12 = Z.shiftr (DAC_config c) 12.
Proof.
  intros Htbl Hr Hs. cbv zeta.
  destruct (reachable_active_amplitude sin_table c s Hr Hs) as [h [Ha Hh]].
  set (sine := aget sin_table
                 (Z.shiftr (to_uint32 (phase_accum_main s + phase_incr_main s)) 24)).
  assert (Hsine : - (2047 * 32768) <= sine <= 2047 * 32768).
  { subst sine. unfold aget.
    destruct (sin_table !! _) as [v |] eqn:Hv; cbn; [| lia].
    exact (proj1 (Forall_lookup _ _) Htbl _ _ Hv). }
  assert (Hout : DAC_output (tick s) =
            to_int32 (fix2int15 (multfix15 (multfix15 (current_amplitude s) scale_out) sine)
                      + 2048)
            /\ DAC_data (tick s) =
               to_uint16
                 (Z.lor (DAC_config c)
                    (Z.land
                       (to_int32
                          (fix2int15
                             (multfix15 (multfix15 (current_amplitude s) scale_out) sine)
                           + 2048)) 0xffff))).
  { unfold repeating_timer_callback. rewrite Hs. change (0 =? 0) with true.
    cbv zeta iota. fold sine.
    destruct (to_uint32 (count s + 1) =? BEEP_DURATION);
      cbn [DAC_output DAC_data]; split; reflexivity. }
  assert (Hmul : multfix15 (multfix15 (current_amplitude s) scale_out) sine
                 = h * sine / 2 ^ 15).
  { rewrite Ha, scale_out_eq.
    rewrite (multfix15_floor (2 * h)) by (unfold int32_range; lia).
    replace (2 * h * 16384) with (h * 2 ^ 15) by lia.
    rewrite Z.div_mul by lia.
    rewrite (to_int32_small h) by (unfold int32_range; lia).
    rewrite multfix15_floor by (unfold int32_range; lia).
    apply to_int32_small, div_pow15_range. nia. }
  assert (Hfix : - 938 <= fix2int15 (h * sine / 2 ^ 15) <= 937).
  { unfold fix2int15. rewrite Z.shiftr_div_pow2, Z.div_div by lia.
    assert (- 938 <= h * sine / (2 ^ 15 * 2 ^ 15) <= 937).
    { split.
      - apply Z.div_le_lower_bound; [lia | nia].
      - apply Z.lt_succ_r, Z.div_lt_upper_bound; [lia | nia]. }
    rewrite to_int32_small by (unfold int32_range; lia). assumption. }
  destruct Hout as [Hout Hdata]. rewrite <- Hout in Hdata.
  rewrite Hmul in Hout.
  rewrite to_int32_small in Hout by (unfold int32_range; lia).
  assert (Hword : DAC_data (tick s) = DAC_config c + DAC_output (tick s)).
  { rewrite Hdata, dac_word by apply DAC_config_range.
    rewrite Z.mod_small by lia.
    destruct (DAC_config_nibble c) as [k [Hk ->]].
    apply lor_disjoint_add. lia. }
  split; [lia |]. split; [exact Hword |].
  rewrite Hword. destruct (DAC_config_nibble c) as [k [Hk ->]].
  rewrite !Z.shiftr_div_pow2 by lia.
  rewrite Z.div_add_l, Z.div_mul by lia.
  rewrite (Z.div_small (DAC_output (tick s))) by lia. lia.
Qed.

End DDSOverTime.

Lemma square_table_bounded : sine_bounded square_table.
Proof.
  apply Forall_app; split; apply Forall_replicate; lia.
Qed.

Lemma dds_state_invariant_witness :
  let s := end_of_first_beep in
  (STATE s = 0 \/ STATE s = 1) /\
  0 <= count s < (if STATE s =? 0 then BEEP_DURATION else BEEP_REPEAT_INTERVAL) /\
  0 <= current_amplitude s <= attack_inc * ATTACK_TIME /\
  attack_inc * ATTACK_TIME < max_amplitude.
Proof.
  apply (dds_state_invariant square_table Core0 end_of_first_beep).
  apply reachable_iter.
Defined.

Lemma phase_index_in_table_witness :
  let s := end_of_first_beep in
  0 <= phase_accum_main s < 2 ^ 32 /\
  phase_incr_main s = phase_incr_init /\
  0 <= Z.shiftr (phase_accum_main s) 24 < sine_table_size /\
  square_table !! Z.to_nat (Z.shiftr (phase_accum_main s) 24)
    = Some (aget square_table (Z.shiftr (phase_accum_main s) 24)).
Proof.
  apply (phase_index_in_table square_table Core0 end_of_first_beep).
  - reflexivity.
  - apply reachable_iter.
Defined.

Lemma dac_sample_in_12_bits_witness :
  let s := Nat.iter 5 (repeating_timer_callback_core_1 square_table) boot in
  let s' := repeating_timer_callback_core_1 square_table s in
  2048 - 938 <= DAC_output s' <= 2048 + 937 /\
  DAC_data s' = DAC_config Core1 + DAC_output s' /\
  Z.shiftr (DAC_data s') 12 = Z.shiftr (DAC_config Core1) 12.
Proof.
  apply (dac_sample_in_12_bits square_table Core1
           (Nat.iter 5 (repeating_timer_callback_core_1 square_table) boot)).
  - apply square_table_bounded.
  - apply reachable_iter.
  - reflexivity.
Defined.

(** ** The two channels *)

Lemma dac_word_low_bits c out :
  Z.land (to_uint16 (Z.lor (DAC_config c) (Z.land out 0xffff))) 0x7fff
  = Z.lor 0x3000 (Z.land (out mod 2 ^ 16) 0x7fff).
Proof.
  rewrite dac_word by apply DAC_config_range.
  rewrite Z.land_lor_distr_l. destruct c; reflexivity.
Qed.


(** ** Bit reversal, twice *)

(** Reversing the 16 bits of an [unsigned short] twice gives it back. *)
Theorem reverse16_involutive (m : Z) :
  0 <= m < 2 ^ 16 -> reverse16 (reverse16 m) = m.
Proof.
  intros Hm. apply Z.bits_inj'. intros i Hi.
  destruct (Z.lt_ge_cases i 16).
  - rewrite !reverse16_bit by lia. f_equal. lia.
  - rewrite (testbit_above _ 16 i (reverse16_range _)) by lia.
    symmetry. apply (testbit_above m 16 i); lia.
Qed.

Lemma reverse16_involutive_witness : reverse16 (reverse16 0x1234) = 0x1234.
Proof. apply (reverse16_involutive 0x1234). lia. Defined.

(** Two arrays of the same length with the same cells are the same array. *)
Lemma aget_ext (a b : list Z) :
  length a = length b ->
  (forall i, 0 <= i < Z.of_nat (length a) -> aget a i = aget b i) ->
  a = b.
Proof.
  intros Hlen Hcells. apply list_eq. intros n.
  destruct (lt_dec n (length a)) as [Hn | Hn].
  - destruct (lookup_lt_is_Some_2 a n Hn) as [x Hx].
    destruct (lookup_lt_is_Some_2 b n ltac:(lia)) as [y Hy].
    specialize (Hcells (Z.of_nat n) ltac:(lia)). unfold aget in Hcells.
    rewrite Nat2Z.id, Hx, Hy in Hcells. cbn in Hcells. congruence.
  - rewrite !lookup_ge_None_2 by lia. reflexivity.
Qed.

Section BitReversalTwice.

Variable lg : Z.
Hypothesis lg_range : 1 <= lg <= 16.

(** The phase leaves both arrays at their length, cell [i] holding what cell
    [bit_reversed i] held. *)
Lemma bit_reversal_result (fr fi : list Z) :
  Z.of_nat (length fr) = NUM_SAMPLES lg ->
  Z.of_nat (length fi) = NUM_SAMPLES lg ->
  length (fst (FFTfix_bit_reversal lg fr fi)) = length fr /\
  length (snd (FFTfix_bit_reversal lg fr fi)) = length fi /\
  forall i, 0 <= i < NUM_SAMPLES lg ->
    aget (fst (FFTfix_bit_reversal lg fr fi)) i = aget fr (bit_reversed lg i) /\
    aget (snd (FFTfix_bit_reversal lg fr fi)) i = aget fi (bit_reversed lg i).
Proof.
  intros Hfr Hfi. pose proof (NUM_SAMPLES_pos lg lg_range) as HN.
  pose proof (for_loop_invariant (reversal_invariant lg fr fi) (bit_reversal_step lg)
                (Z.to_nat (NUM_SAMPLES_M_1 lg - 1)) 1 (fr, fi)
                (reversal_invariant_start lg lg_range fr fi)) as Hloop.
  assert (Hcount : Z.of_nat (Z.to_nat (NUM_SAMPLES_M_1 lg - 1)) = NUM_SAMPLES lg - 2)
    by (unfold NUM_SAMPLES_M_1; lia).
  rewrite Hcount in Hloop.
  destruct Hloop as (Hl1 & Hl2 & Hcells).
  { intros i t Hi. apply reversal_invariant_step; assumption || lia. }
  fold (FFTfix_bit_reversal lg fr fi) in Hl1, Hl2, Hcells.
  replace (1 + (NUM_SAMPLES lg - 2)) with (NUM_SAMPLES lg - 1) in Hcells by lia.
  split; [exact Hl1 |]. split; [exact Hl2 |].
  intros i Hi. rewrite <- (source_after_end lg lg_range i Hi). apply Hcells. exact Hi.
Qed.

(** Running the bit-reversal phase on its own result restores both arrays. *)
Theorem bit_reversal_twice (fr fi : list Z) :
  Z.of_nat (length fr) = NUM_SAMPLES lg ->
  Z.of_nat (length fi) = NUM_SAMPLES lg ->
  FFTfix_bit_reversal lg (fst (FFTfix_bit_reversal lg fr fi))
    (snd (FFTfix_bit_reversal lg fr fi)) = (fr, fi).
Proof.
  intros Hfr Hfi.
  destruct (bit_reversal_result fr fi Hfr Hfi) as (Hl1 & Hl2 & Hone).
  set (r := FFTfix_bit_reversal lg fr fi) in *.
  destruct (bit_reversal_result (fst r) (snd r) ltac:(lia) ltac:(lia))
    as (Hl3 & Hl4 & Htwo).
  set (r2 := FFTfix_bit_reversal lg (fst r) (snd r)) in *.
  assert (Hcell : forall i, 0 <= i < NUM_SAMPLES lg ->
            aget (fst r2) i = aget fr i /\ aget (snd r2) i = aget fi i).
  { intros i Hi. pose proof (bit_reversed_range lg lg_range i) as Hri.
    destruct (Htwo i Hi) as [-> ->]. destruct (Hone _ Hri) as [-> ->].
    rewrite bit_reversed_involutive by assumption. split; reflexivity. }
  rewrite (surjective_pairing r2). f_equal; apply aget_ext; try congruence.
  - intros i Hi. apply Hcell. lia.
  - intros i Hi. apply Hcell. lia.
Qed.

End BitReversalTwice.

Lemma bit_reversal_twice_witness :
  FFTfix_bit_reversal 3
    (fst (FFTfix_bit_reversal 3 [10; 11; 12; 13; 14; 15; 16; 17] [0; 1; 2; 3; 4; 5; 6; 7]))
    (snd (FFTfix_bit_reversal 3 [10; 11; 12; 13; 14; 15; 16; 17] [0; 1; 2; 3; 4; 5; 6; 7]))
  = ([10; 11; 12; 13; 14; 15; 16; 17], [0; 1; 2; 3; 4; 5; 6; 7]).
Proof. apply (bit_reversal_twice 3 ltac:(lia)); reflexivity. Defined.

(** ** The Danielson-Lanczos passes of [FFTfix] *)

Lemma for_loop_preserves {St : Type} (P : St -> Prop) (body : Z -> St -> St) :
  (forall i s, P s -> P (body i s)) ->
  forall n i s, P s -> P (for_loop n i body s).
Proof.
  intros Hbody n. induction n as [| n IH]; intros i s Hs; [exact Hs |].
  cbn [for_loop]. apply IH, Hbody, Hs.
Qed.

Lemma for_stride_preserves {St : Type} (P : St -> Prop) (body : Z -> St -> St) :
  (forall i s, P s -> P (body i s)) ->
  forall fuel i hi step s, P s -> P (for_stride fuel i hi step body s).
Proof.
  intros Hbody fuel. induction fuel as [| fuel IH]; intros i hi step s Hs; [exact Hs |].
  cbn [for_stride]. destruct (i <? hi); [apply IH, Hbody, Hs | exact Hs].
Qed.

Lemma for_loop_ext {St : Type} (f g : Z -> St -> St) :
  forall n i0 s,
  (forall i t, i0 <= i -> f i t = g i t) ->
  for_loop n i0 f s = for_loop n i0 g s.
Proof.
  intros n. induction n as [| n IH]; intros i0 s Hfg; [reflexivity |].
  cbn [for_loop]. rewrite Hfg by lia. apply IH. intros i t Hi. apply Hfg. lia.
Qed.

(** A loop that strides by at least 1 over [[i, hi)] is through within
    [hi - i] rounds: more fuel changes nothing. *)
Lemma for_stride_more_fuel {St : Type} (body : Z -> St -> St) (hi step : Z) :
  1 <= step ->
  forall fuel extra i s,
  hi - i <= Z.of_nat fuel ->
  for_stride (fuel + extra) i hi step body s = for_stride fuel i hi step body s.
Proof.
  intros Hstep fuel. induction fuel as [| fuel IH]; intros extra i s Hfuel.
  - cbn [Nat.add for_stride]. destruct extra; [reflexivity |].
    cbn [for_stride]. destruct (Z.ltb_spec i hi); [lia | reflexivity].
  - cbn [Nat.add for_stride]. destruct (Z.ltb_spec i hi); [| reflexivity].
    apply IH. lia.
Qed.

(** Whatever every butterfly keeps, the whole of the passes keeps. *)
Lemma danielson_lanczos_preserves (P : list Z * list Z -> Prop) lg Sinewave :
  (forall L wr wi i a, P a -> P (butterfly L wr wi i a)) ->
  forall inner passes L k a,
  P a -> P (danielson_lanczos lg Sinewave inner passes L k a).
Proof.
  intros Hb inner passes.
  induction passes as [| passes IH]; intros L k a Ha; [exact Ha |].
  cbn [danielson_lanczos]. destruct (L <? NUM_SAMPLES lg); [| exact Ha].
  apply IH. apply for_loop_preserves; [| exact Ha].
  intros m s Hs. unfold butterfly_group. apply for_stride_preserves; [| exact Hs].
  intros i t Ht. apply Hb, Ht.
Qed.

Lemma bit_reversal_preserves (P : list Z * list Z -> Prop) lg :
  (forall m a, P a -> P (bit_reversal_step lg m a)) ->
  forall fr fi, P (fr, fi) -> P (FFTfix_bit_reversal lg fr fi).
Proof.
  intros Hstep fr fi H. unfold FFTfix_bit_reversal.
  apply for_loop_preserves; assumption.
Qed.

Lemma FFTfix_lengths lg Sinewave fr fi :
  length (fst (FFTfix lg Sinewave fr fi)) = length fr /\
  length (snd (FFTfix lg Sinewave fr fi)) = length fi.
Proof.
  unfold FFTfix.
  apply (danielson_lanczos_preserves
           (fun a => length (fst a) = length fr /\ length (snd a) = length fi)).
  - intros L wr wi i a [H1 H2]. unfold butterfly. cbn [fst snd].
    rewrite !length_aset. split; assumption.
  - apply (bit_reversal_preserves
           (fun a => length (fst a) = length fr /\ length (snd a) = length fi)).
    + intros m a [H1 H2]. unfold bit_reversal_step.
      destruct (bit_reversed lg m <=? m); [split; assumption |].
      cbn [fst snd]. rewrite !length_aset. split; assumption.
    + split; reflexivity.
Qed.

Lemma aget_all_zero a i : all_zero a -> aget a i = 0.
Proof.
  intros Ha. unfold aget. destruct (a !! Z.to_nat i) as [v |] eqn:E; [| reflexivity].
  exact (proj1 (Forall_lookup _ a) Ha _ _ E).
Qed.

Lemma aset_all_zero a i : all_zero a -> all_zero (aset a i 0).
Proof. intros Ha. unfold aset. apply Forall_insert; [exact Ha | reflexivity]. Qed.

Lemma multfix15_0_r a : multfix15 a 0 = 0.
Proof. unfold multfix15. change (to_int64 0) with 0. rewrite Z.mul_0_r. reflexivity. Qed.

Lemma multfix15_0_l b : multfix15 0 b = 0.
Proof. unfold multfix15. change (to_int64 0) with 0. rewrite Z.mul_0_l. reflexivity. Qed.

Lemma FFTfix_zeros lg Sinewave fr fi :
  all_zero fr -> all_zero fi ->
  all_zero (fst (FFTfix lg Sinewave fr fi)) /\
  all_zero (snd (FFTfix lg Sinewave fr fi)).
Proof.
  intros Hfr Hfi. unfold FFTfix.
  apply (danielson_lanczos_preserves (fun a => all_zero (fst a) /\ all_zero (snd a))).
  - intros L wr wi i a [H1 H2]. unfold butterfly. cbn [fst snd].
    rewrite !(aget_all_zero (fst a)), !(aget_all_zero (snd a)) by assumption.
    rewrite !multfix15_0_r. change (Z.shiftr 0 1) with 0.
    change (to_int32 (0 - 0)) with 0. change (to_int32 (0 + 0)) with 0.
    change (to_int32 (0 - 0)) with 0. change (to_int32 (0 + 0)) with 0.
    split; apply aset_all_zero, aset_all_zero; assumption.
  - apply (bit_reversal_preserves (fun a => all_zero (fst a) /\ all_zero (snd a))).
    + intros m a [H1 H2]. unfold bit_reversal_step.
      destruct (bit_reversed lg m <=? m); [split; assumption |].
      cbn [fst snd].
      rewrite !(aget_all_zero (fst a)), !(aget_all_zero (snd a)) by assumption.
      split; apply aset_all_zero, aset_all_zero; assumption.
    + split; assumption.
Qed.

(** Silence in, silence out: on two arrays of zeros [FFTfix] leaves two arrays
    of zeros and changes no length, whatever the sine table holds. *)
Theorem FFTfix_zero lg Sinewave fr fi :
  all_zero fr -> all_zero fi ->
  FFTfix lg Sinewave fr fi = (fr, fi).
Proof.
  intros Hfr Hfi.
  destruct (FFTfix_lengths lg Sinewave fr fi) as [Hl1 Hl2].
  destruct (FFTfix_zeros lg Sinewave fr fi Hfr Hfi) as [Hz1 Hz2].
  rewrite (surjective_pairing (FFTfix lg Sinewave fr fi)).
  f_equal; apply aget_ext; try assumption; intros i _; rewrite !aget_all_zero by assumption;
    reflexivity.
Qed.

Lemma FFTfix_zero_witness :
  FFTfix 3 [0; 3; 5; 3; 0; -3; -5; -3] (replicate 8 0) (replicate 8 0)
  = (replicate 8 0, replicate 8 0).
Proof. apply FFTfix_zero; apply Forall_replicate; reflexivity. Defined.

Section Fuel.

Variable lg : Z.
Hypothesis lg_range : 1 <= lg <= 16.
Variable Sinewave : list Z.

Lemma doubled_length (j : Z) :
  0 <= j < lg -> to_int32 (Z.shiftl (2 ^ j) 1) = 2 ^ (j + 1).
Proof.
  intros Hj. rewrite Z.shiftl_mul_pow2 by lia. rewrite <- Z.pow_add_r by lia.
  apply to_int32_small. unfold int32_range.
  assert (0 < 2 ^ (j + 1)) by (apply Z.pow_pos_nonneg; lia).
  assert (2 ^ (j + 1) <= 2 ^ 16) by (apply Z.pow_le_mono_r; lia). lia.
Qed.

Lemma butterfly_group_more_fuel (e : nat) (j k m : Z) a :
  0 <= j < lg -> 0 <= m ->
  butterfly_group lg Sinewave (Z.to_nat (NUM_SAMPLES lg) + e) (2 ^ j) k m a =
  butterfly_group lg Sinewave (Z.to_nat (NUM_SAMPLES lg)) (2 ^ j) k m a.
Proof.
  intros Hj Hm. unfold butterfly_group. rewrite doubled_length by exact Hj.
  pose proof (NUM_SAMPLES_pos lg lg_range).
  apply for_stride_more_fuel.
  - assert (0 < 2 ^ (j + 1)) by (apply Z.pow_pos_nonneg; lia). lia.
  - lia.
Qed.

Lemma danielson_lanczos_more_fuel (e1 e2 : nat) :
  forall (p : nat) (j k : Z) a,
  0 <= j -> j + Z.of_nat p = lg ->
  danielson_lanczos lg Sinewave (Z.to_nat (NUM_SAMPLES lg) + e1) (p + e2) (2 ^ j) k a =
  danielson_lanczos lg Sinewave (Z.to_nat (NUM_SAMPLES lg)) p (2 ^ j) k a.
Proof.
  induction p as [| p IH]; intros j k a Hj Hp.
  - cbn [Nat.add danielson_lanczos]. destruct e2; [reflexivity |].
    cbn [danielson_lanczos]. replace j with lg by lia.
    unfold NUM_SAMPLES.
    destruct (Z.ltb_spec (2 ^ lg) (2 ^ lg)); [lia | reflexivity].
  - cbn [Nat.add danielson_lanczos].
    assert (HL : 2 ^ j < NUM_SAMPLES lg).
    { unfold NUM_SAMPLES. apply Z.pow_lt_mono_r; lia. }
    destruct (Z.ltb_spec (2 ^ j) (NUM_SAMPLES lg)); [| lia].
    rewrite doubled_length by lia.
    rewrite (for_loop_ext
               (butterfly_group lg Sinewave (Z.to_nat (NUM_SAMPLES lg) + e1) (2 ^ j) k)
               (butterfly_group lg Sinewave (Z.to_nat (NUM_SAMPLES lg)) (2 ^ j) k)).
    + apply IH; lia.
    + intros m t Hm. apply butterfly_group_more_fuel; lia.
Qed.

(** [FFTfix] terminates within the rounds the model gives it: with any number
    of further rounds for the inner loops and of further passes for the
    [while] loop, the result is the same. *)
Theorem FFTfix_enough_fuel (e1 e2 : nat) fr fi :
  danielson_lanczos lg Sinewave (Z.to_nat (NUM_SAMPLES lg) + e1) (Z.to_nat lg + e2)
    1 (lg - 1) (FFTfix_bit_reversal lg fr fi)
  = FFTfix lg Sinewave fr fi.
Proof.
  unfold FFTfix. change 1 with (2 ^ 0) at 1 3.
  apply danielson_lanczos_more_fuel; lia.
Qed.

End Fuel.

Lemma FFTfix_enough_fuel_witness :
  danielson_lanczos 3 [0; 3; 5; 3; 0; -3; -5; -3] (Z.to_nat (NUM_SAMPLES 3) + 5)
    (Z.to_nat 3 + 2) 1 (3 - 1) (FFTfix_bit_reversal 3 [1; 2; 3; 4; 5; 6; 7; 8] (replicate 8 0))
  = FFTfix 3 [0; 3; 5; 3; 0; -3; -5; -3] [1; 2; 3; 4; 5; 6; 7; 8] (replicate 8 0).
Proof. apply (FFTfix_enough_fuel 3 ltac:(lia)). Defined.

(** ** [FFTfix] stays inside its arrays *)

Lemma for_loop_rel {A B : Type} (R : A -> B -> Prop)
    (f : Z -> A -> A) (g : Z -> B -> B) :
  forall n i0 s t,
  R s t ->
  (forall i s t, i0 <= i < i0 + Z.of_nat n -> R s t -> R (f i s) (g i t)) ->
  R (for_loop n i0 f s) (for_loop n i0 g t).
Proof.
  intros n. induction n as [| n IH]; intros i0 s t Hst Hstep; [exact Hst |].
  cbn [for_loop]. apply IH.
  - apply Hstep; [lia | exact Hst].
  - intros i s' t' Hi. apply Hstep. lia.
Qed.

Lemma for_stride_rel {A B : Type} (R : A -> B -> Prop) (I : Z -> Prop)
    (f : Z -> A -> A) (g : Z -> B -> B) (hi step : Z) :
  (forall i, I i -> i < hi -> I (i + step)) ->
  (forall i s t, I i -> i < hi -> R s t -> R (f i s) (g i t)) ->
  forall fuel i s t, I i -> R s t ->
  R (for_stride fuel i hi step f s) (for_stride fuel i hi step g t).
Proof.
  intros Hnext Hstep fuel.
  induction fuel as [| fuel IH]; intros i s t Hi Hst; [exact Hst |].
  cbn [for_stride]. destruct (Z.ltb_spec i hi); [| exact Hst].
  apply IH; [apply Hnext | apply Hstep]; assumption.
Qed.

Lemma aget_app_l (a x : list Z) i :
  0 <= i < Z.of_nat (length a) -> aget (a ++ x) i = aget a i.
Proof. intros Hi. unfold aget. rewrite lookup_app_l by lia. reflexivity. Qed.

Lemma aset_app_l (a x : list Z) i v :
  0 <= i < Z.of_nat (length a) -> aset (a ++ x) i v = aset a i v ++ x.
Proof. intros Hi. unfold aset. apply insert_app_l. lia. Qed.

Section InBounds.

Variable lg : Z.
Hypothesis lg_range : 1 <= lg <= 16.
Variables Sinewave z x y : list Z.
Hypothesis Sinewave_length : Z.of_nat (length Sinewave) = NUM_SAMPLES lg.

Local Abbreviation N := (NUM_SAMPLES lg).

(** The second run is the first one with [x] and [y] behind the arrays. *)
Local Abbreviation padded :=
  (fun s t : list Z * list Z =>
     t = (fst s ++ x, snd s ++ y) /\
     Z.of_nat (length (fst s)) = N /\ Z.of_nat (length (snd s)) = N).

Lemma bit_reversal_step_padded m s t :
  1 <= m < N - 1 -> padded s t ->
  padded (bit_reversal_step lg m s) (bit_reversal_step lg m t).
Proof.
  intros Hm (-> & Hl1 & Hl2).
  pose proof (bit_reversed_range lg lg_range m) as Hr.
  unfold bit_reversal_step. destruct (bit_reversed lg m <=? m); [repeat split; assumption |].
  cbn [fst snd]. rewrite !length_aset.
  split; [| split; assumption].
  rewrite !aget_app_l by lia.
  rewrite (aset_app_l (fst s)), (aset_app_l (snd s)) by lia.
  rewrite !aset_app_l by (rewrite length_aset; lia). reflexivity.
Qed.

Lemma butterfly_padded L wr wi i s t :
  0 <= L -> 0 <= i -> i + L < N -> padded s t ->
  padded (butterfly L wr wi i s) (butterfly L wr wi i t).
Proof.
  intros HL Hi Hj (-> & Hl1 & Hl2).
  unfold butterfly. cbn [fst snd]. rewrite !length_aset.
  split; [| split; assumption].
  rewrite !aget_app_l by lia.
  rewrite (aset_app_l (fst s)), (aset_app_l (snd s)) by lia.
  rewrite !aset_app_l by (rewrite length_aset; lia). reflexivity.
Qed.

Lemma pass_sizes j :
  0 <= j < lg ->
  0 < 2 ^ j /\ 2 ^ (j + 1) = 2 * 2 ^ j /\
  0 < 2 ^ (lg - 1 - j) /\ N = 2 ^ (lg - 1 - j) * 2 ^ (j + 1) /\ N <= 2 ^ 16.
Proof.
  intros Hj. unfold NUM_SAMPLES.
  split; [apply Z.pow_pos_nonneg; lia |].
  split; [rewrite Z.pow_add_r by lia; lia |].
  split; [apply Z.pow_pos_nonneg; lia |].
  split; [rewrite <- Z.pow_add_r by lia; f_equal; lia |].
  apply Z.pow_le_mono_r; lia.
Qed.

Lemma butterfly_group_padded inner j m s t :
  0 <= j < lg -> 0 <= m < 2 ^ j -> padded s t ->
  padded (butterfly_group lg Sinewave inner (2 ^ j) (lg - 1 - j) m s)
         (butterfly_group lg (Sinewave ++ z) inner (2 ^ j) (lg - 1 - j) m t).
Proof.
  intros Hj Hm Hst. destruct (pass_sizes j Hj) as (HL & H2L & Hc & HN & HN16).
  unfold butterfly_group.
  set (c := 2 ^ (lg - 1 - j)) in *. set (L := 2 ^ j) in *.
  assert (Hidx : to_int32 (Z.shiftl m (lg - 1 - j)) = m * c).
  { rewrite Z.shiftl_mul_pow2 by lia. fold c.
    apply to_int32_small. unfold int32_range. nia. }
  rewrite Hidx.
  assert (Hquarter : 0 <= Z.quot N 4 /\ 2 * Z.quot N 4 <= c * L).
  { rewrite Z.quot_div_nonneg by lia. rewrite HN, H2L.
    replace (c * (2 * L)) with (2 * (c * L)) by ring.
    assert (Hu : 0 <= c * L) by nia. revert Hu.
    generalize (c * L). intros u Hu. Z.div_mod_to_equations. lia. }
  assert (Hstep : to_int32 (Z.shiftl L 1) = 2 * L).
  { rewrite Z.shiftl_mul_pow2 by lia. change (2 ^ 1) with 2. rewrite Z.mul_comm.
    apply to_int32_small. unfold int32_range. nia. }
  rewrite Hstep.
  assert (Hmc : 0 <= m * c /\ m * c + c <= c * L) by nia.
  rewrite !aget_app_l by nia.
  apply (for_stride_rel padded (fun i => exists q, 0 <= q /\ i = m + q * (2 * L))).
  - intros i (q & Hq & ->) _. exists (q + 1). split; [lia | ring].
  - intros i s' t' (q & Hq & ->) Hlt Hst'.
    apply butterfly_padded; [lia | nia | | exact Hst'].
    assert (q + 1 <= c) by nia. nia.
  - exists 0. split; [lia | ring].
  - exact Hst.
Qed.

Lemma danielson_lanczos_padded inner :
  forall (p : nat) j s t,
  0 <= j <= lg -> padded s t ->
  padded (danielson_lanczos lg Sinewave inner p (2 ^ j) (lg - 1 - j) s)
         (danielson_lanczos lg (Sinewave ++ z) inner p (2 ^ j) (lg - 1 - j) t).
Proof.
  induction p as [| p IH]; intros j s t Hj Hst; [exact Hst |].
  cbn [danielson_lanczos].
  destruct (Z.ltb_spec (2 ^ j) N) as [Hlt | Hge]; [| exact Hst].
  assert (Hj' : 0 <= j < lg).
  { split; [lia |]. apply (Z.pow_lt_mono_r_iff 2); [lia | lia | exact Hlt]. }
  destruct (pass_sizes j Hj') as (HL & H2L & _ & _ & HN16).
  assert (Hstep : to_int32 (Z.shiftl (2 ^ j) 1) = 2 ^ (j + 1)).
  { rewrite Z.shiftl_mul_pow2 by lia. change (2 ^ 1) with 2.
    rewrite H2L, Z.mul_comm. apply to_int32_small. unfold int32_range. lia. }
  rewrite Hstep. replace (lg - 1 - j - 1) with (lg - 1 - (j + 1)) by lia.
  apply IH; [lia |].
  apply (for_loop_rel padded); [exact Hst |].
  intros m s' t' Hm Hst'. apply butterfly_group_padded; [exact Hj' | lia | exact Hst'].
Qed.

(** [FFTfix] reads and writes the first [NUM_SAMPLES] cells of its three
    arrays only: with anything behind them, it computes the same transform and
    leaves what lies behind [fr] and [fi] as it was. *)
Theorem FFTfix_in_bounds (fr fi : list Z) :
  Z.of_nat (length fr) = NUM_SAMPLES lg ->
  Z.of_nat (length fi) = NUM_SAMPLES lg ->
  FFTfix lg (Sinewave ++ z) (fr ++ x) (fi ++ y) =
  (fst (FFTfix lg Sinewave fr fi) ++ x, snd (FFTfix lg Sinewave fr fi) ++ y).
Proof.
  intros Hfr Hfi. pose proof (NUM_SAMPLES_pos lg lg_range) as HN.
  unfold FFTfix. change 1 with (2 ^ 0) at 1 3 5.
  replace (lg - 1) with (lg - 1 - 0) by lia.
  apply danielson_lanczos_padded; [lia |].
  unfold FFTfix_bit_reversal. apply (for_loop_rel padded).
  - repeat split; assumption.
  - intros m s t Hm. apply bit_reversal_step_padded. unfold NUM_SAMPLES_M_1 in Hm. lia.
Qed.

End InBounds.

Lemma FFTfix_in_bounds_witness :
  FFTfix 2 ([0; 32767; 0; -32767] ++ [9]) ([100; 200; 300; 400] ++ [7; 7])
    (replicate 4 0 ++ [8]) =
  (fst (FFTfix 2 [0; 32767; 0; -32767] [100; 200; 300; 400] (replicate 4 0)) ++ [7; 7],
   snd (FFTfix 2 [0; 32767; 0; -32767] [100; 200; 300; 400] (replicate 4 0)) ++ [8]).
Proof.
  apply (FFTfix_in_bounds 2 ltac:(lia) [0; 32767; 0; -32767] [9] [7; 7] [8]);
    reflexivity.
Defined.

(** ** No overflow in [FFTfix] *)

Lemma cells_within_aget B a i : 0 <= B -> cells_within B a -> Z.abs (aget a i) <= B.
Proof.
  intros HB Ha. unfold aget. destruct (a !! Z.to_nat i) as [v |] eqn:E; cbn; [| lia].
  exact (proj1 (Forall_lookup _ a) Ha _ _ E).
Qed.

Lemma aget_cells_within B a :
  (forall i, 0 <= i -> Z.abs (aget a i) <= B) -> cells_within B a.
Proof.
  intros H. apply Forall_lookup. intros n v E.
  specialize (H (Z.of_nat n) ltac:(lia)). unfold aget in H.
  rewrite Nat2Z.id, E in H. exact H.
Qed.

Lemma aget_aset_cases a i v k :
  aget (aset a i v) k = v \/ aget (aset a i v) k = aget a k.
Proof.
  unfold aget, aset.
  destruct (decide (Z.to_nat i = Z.to_nat k)) as [E | E].
  - destruct (decide (Z.to_nat i < length a)%nat) as [Hi | Hi].
    + left. rewrite <- E, list_lookup_insert_eq by exact Hi. reflexivity.
    + right. rewrite list_insert_ge by lia. reflexivity.
  - right. rewrite list_lookup_insert_ne by exact E. reflexivity.
Qed.

Lemma butterfly_growth_inflates B : 0 <= B -> B <= butterfly_growth B.
Proof. intros HB. unfold butterfly_growth. Z.div_mod_to_equations. lia. Qed.

Lemma butterfly_growth_iter_inflates (p : nat) B :
  0 <= B -> B <= Nat.iter p butterfly_growth B.
Proof.
  intros HB. induction p as [| p IH]; [cbn; lia |].
  change (Nat.iter (S p) butterfly_growth B)
    with (butterfly_growth (Nat.iter p butterfly_growth B)).
  pose proof (butterfly_growth_inflates (Nat.iter p butterfly_growth B) ltac:(lia)). lia.
Qed.

(** A halved trigonometric value times a cell within [B] is within
    [(B+1)/2]. *)
Lemma multfix15_half w v B :
  Z.abs w <= 2 ^ 14 -> Z.abs v <= B -> B < 2 ^ 31 ->
  Z.abs (multfix15 w v) <= (B + 1) / 2.
Proof.
  intros Hw Hv HB.
  rewrite multfix15_floor by (unfold int32_range; lia).
  assert (Hp : Z.abs (w * v) <= 2 ^ 14 * B).
  { rewrite Z.abs_mul. apply Z.mul_le_mono_nonneg; lia. }
  assert (Hq : Z.abs (w * v / 2 ^ 15) <= (B + 1) / 2).
  { generalize dependent (w * v). intros p Hp. Z.div_mod_to_equations. lia. }
  rewrite to_int32_small; [exact Hq |].
  unfold int32_range. revert Hq. generalize (w * v / 2 ^ 15). intros q.
  Z.div_mod_to_equations. lia.
Qed.

Lemma halved_within v B : Z.abs v <= B -> Z.abs (Z.shiftr v 1) <= (B + 1) / 2.
Proof.
  intros Hv. rewrite Z.shiftr_div_pow2 by lia. change (2 ^ 1) with 2.
  Z.div_mod_to_equations. lia.
Qed.

Lemma for_stride_invariant {St : Type} (P : Z -> St -> Prop)
    (body : Z -> St -> St) (hi step : Z) :
  (forall i s, i < hi -> P i s -> P (i + step) (body i s)) ->
  forall fuel i s, P i s -> exists i', P i' (for_stride fuel i hi step body s).
Proof.
  intros Hstep fuel. induction fuel as [| fuel IH]; intros i s Hs; [exists i; exact Hs |].
  cbn [for_stride]. destruct (Z.ltb_spec i hi); [| exists i; exact Hs].
  apply IH, Hstep; assumption.
Qed.

Section Headroom.

Variable lg : Z.
Hypothesis lg_range : 1 <= lg <= 16.
Variable Sinewave : list Z.
Hypothesis Sinewave_within : cells_within (2 ^ 15) Sinewave.

Local Abbreviation N := (NUM_SAMPLES lg).

(** Every cell from 0 on is within [B]. *)
Local Abbreviation within := (fun (B : Z) (a : list Z * list Z) =>
  forall k, 0 <= k -> Z.abs (aget (fst a) k) <= B /\ Z.abs (aget (snd a) k) <= B).

Section Pass.

Variables B L : Z.
Hypothesis B_nonneg : 0 <= B.
Hypothesis B_fits : butterfly_growth B < 2 ^ 31.
Hypothesis L_range : 1 <= L < 2 ^ 30.

Local Abbreviation B' := (butterfly_growth B).

(** The cells the loops have yet to combine, at [m] and [i]. *)
Local Abbreviation untouched := (fun m i k : Z =>
  m < k mod L \/ (k mod L = m /\ i <= k)).

Lemma butterfly_within wr wi m i a :
  Z.abs wr <= 2 ^ 14 -> Z.abs wi <= 2 ^ 14 ->
  0 <= i -> i mod L = m ->
  within B' a ->
  (forall k, 0 <= k -> untouched m i k ->
     Z.abs (aget (fst a) k) <= B /\ Z.abs (aget (snd a) k) <= B) ->
  within B' (butterfly L wr wi i a) /\
  (forall k, 0 <= k -> untouched m (i + 2 * L) k ->
     Z.abs (aget (fst (butterfly L wr wi i a)) k) <= B /\
     Z.abs (aget (snd (butterfly L wr wi i a)) k) <= B).
Proof.
  intros Hwr Hwi Hi Him Hall Hun.
  assert (HBB : B < 2 ^ 31) by (pose proof (butterfly_growth_inflates B B_nonneg); lia).
  assert (Hmod : (i + L) mod L = m).
  { rewrite <- Him. replace (i + L) with (i + 1 * L) by ring. apply Z.mod_add. lia. }
  destruct (Hun i Hi ltac:(right; lia)) as [Hxr Hxi].
  destruct (Hun (i + L) ltac:(lia) ltac:(right; lia)) as [Hyr Hyi].
  unfold butterfly.
  set (yr := aget (fst a) (i + L)) in *. set (yi := aget (snd a) (i + L)) in *.
  set (xr := aget (fst a) i) in *. set (xi := aget (snd a) i) in *.
  pose proof (multfix15_half wr yr B Hwr Hyr HBB) as H1.
  pose proof (multfix15_half wi yi B Hwi Hyi HBB) as H2.
  pose proof (multfix15_half wr yi B Hwr Hyi HBB) as H3.
  pose proof (multfix15_half wi yr B Hwi Hyr HBB) as H4.
  pose proof (halved_within xr B Hxr) as H5.
  pose proof (halved_within xi B Hxi) as H6.
  apply Z.abs_le in H1, H2, H3, H4, H5, H6.
  clear Hwr Hwi Hxr Hxi Hyr Hyi.
  set (m1 := multfix15 wr yr) in *. set (m2 := multfix15 wi yi) in *.
  set (m3 := multfix15 wr yi) in *. set (m4 := multfix15 wi yr) in *.
  set (qr := Z.shiftr xr 1) in *. set (qi := Z.shiftr xi 1) in *.
  unfold butterfly_growth in B_fits.
  set (h := (B + 1) / 2) in *.
  rewrite (to_int32_small (m1 - m2)), (to_int32_small (m3 + m4))
    by (unfold int32_range; lia).
  rewrite !to_int32_small by (unfold int32_range; lia).
  cbn [fst snd]. split.
  - intros k Hk. destruct (Hall k Hk) as [Hkr Hki]. unfold butterfly_growth. fold h.
    split.
    + destruct (aget_aset_cases (aset (fst a) (i + L) (qr - (m1 - m2))) i (qr + (m1 - m2)) k)
        as [-> | ->]; [apply Z.abs_le; lia |].
      destruct (aget_aset_cases (fst a) (i + L) (qr - (m1 - m2)) k) as [-> | ->];
        [apply Z.abs_le; lia | exact Hkr].
    + destruct (aget_aset_cases (aset (snd a) (i + L) (qi - (m3 + m4))) i (qi + (m3 + m4)) k)
        as [-> | ->]; [apply Z.abs_le; lia |].
      destruct (aget_aset_cases (snd a) (i + L) (qi - (m3 + m4)) k) as [-> | ->];
        [apply Z.abs_le; lia | exact Hki].
  - intros k Hk Hu.
    assert (Hki : k <> i) by (intros ->; destruct Hu; lia).
    assert (Hkj : k <> i + L) by (intros ->; destruct Hu; lia).
    rewrite !aget_aset_ne by lia.
    apply Hun; [exact Hk |]. destruct Hu as [Hu | Hu]; [left; exact Hu | right; lia].
Qed.

Lemma butterfly_group_within inner k m a :
  0 <= m < L ->
  within B' a ->
  (forall j, 0 <= j -> m <= j mod L ->
     Z.abs (aget (fst a) j) <= B /\ Z.abs (aget (snd a) j) <= B) ->
  within B' (butterfly_group lg Sinewave inner L k m a) /\
  (forall j, 0 <= j -> m + 1 <= j mod L ->
     Z.abs (aget (fst (butterfly_group lg Sinewave inner L k m a)) j) <= B /\
     Z.abs (aget (snd (butterfly_group lg Sinewave inner L k m a)) j) <= B).
Proof.
  intros Hm Hall Hun. unfold butterfly_group.
  set (idx := to_int32 (Z.shiftl m k)).
  assert (Hwr : Z.abs (Z.shiftr (aget Sinewave (idx + Z.quot N 4)) 1) <= 2 ^ 14).
  { apply (halved_within _ (2 ^ 15)), cells_within_aget; [lia | exact Sinewave_within]. }
  assert (Hwi : Z.abs (Z.shiftr (to_int32 (- aget Sinewave idx)) 1) <= 2 ^ 14).
  { pose proof (cells_within_aget (2 ^ 15) Sinewave idx ltac:(lia) Sinewave_within) as Hs.
    rewrite to_int32_small by (unfold int32_range; lia).
    apply (halved_within _ (2 ^ 15)). lia. }
  assert (Hstep : to_int32 (Z.shiftl L 1) = 2 * L).
  { rewrite Z.shiftl_mul_pow2 by lia. change (2 ^ 1) with 2. rewrite Z.mul_comm.
    apply to_int32_small. unfold int32_range. lia. }
  rewrite Hstep.
  destruct (for_stride_invariant
              (fun i s => 0 <= i /\ i mod L = m /\ within B' s /\
                 forall j, 0 <= j -> untouched m i j ->
                   Z.abs (aget (fst s) j) <= B /\ Z.abs (aget (snd s) j) <= B)
              (butterfly L (Z.shiftr (aget Sinewave (idx + Z.quot N 4)) 1)
                 (Z.shiftr (to_int32 (- aget Sinewave idx)) 1))
              N (2 * L)) with (fuel := inner) (i := m) (s := a)
    as (i' & _ & _ & Hall' & Hun').
  - intros i s _ (Hi & Him & Hs & Hu).
    destruct (butterfly_within _ _ m i s Hwr Hwi Hi Him Hs Hu) as [Hs' Hu'].
    split; [lia |]. split; [| split; assumption].
    rewrite <- Him. apply Z.mod_add. lia.
  - split; [lia |]. split; [apply Z.mod_small; lia |]. split; [exact Hall |].
    intros j Hj Hu. apply Hun; [exact Hj |]. destruct Hu; lia.
  - split; [exact Hall' |]. intros j Hj Hu. apply Hun'; [exact Hj |]. left. lia.
Qed.

Lemma pass_within inner k a :
  within B a ->
  within B' (for_loop (Z.to_nat L) 0 (butterfly_group lg Sinewave inner L k) a).
Proof.
  intros Ha. pose proof (butterfly_growth_inflates B B_nonneg) as Hinf.
  refine (proj1 (for_loop_invariant
           (fun m s => within B' s /\
              forall j, 0 <= j -> m <= j mod L ->
                Z.abs (aget (fst s) j) <= B /\ Z.abs (aget (snd s) j) <= B)
           (butterfly_group lg Sinewave inner L k) (Z.to_nat L) 0 a _ _)).
  - split; [| intros j Hj _; apply Ha, Hj].
    intros j Hj. destruct (Ha j Hj). lia.
  - intros m s Hm [Hs Hu]. apply butterfly_group_within; [lia | exact Hs | exact Hu].
Qed.

End Pass.

Lemma danielson_lanczos_within inner :
  forall (p : nat) L k a B,
  0 <= B -> Nat.iter p butterfly_growth B < 2 ^ 31 ->
  within B a ->
  within (Nat.iter p butterfly_growth B) (danielson_lanczos lg Sinewave inner p L k a).
Proof.
  assert (HN : N <= 2 ^ 16) by (unfold NUM_SAMPLES; apply Z.pow_le_mono_r; lia).
  induction p as [| p IH]; intros L k a B HB Hfit Ha; [exact Ha |].
  pose proof (butterfly_growth_inflates B HB) as Hinf.
  rewrite Nat.iter_succ_r in Hfit |- *.
  pose proof (butterfly_growth_iter_inflates p (butterfly_growth B) ltac:(lia)) as Hinf'.
  cbn [danielson_lanczos]. destruct (Z.ltb_spec L N) as [Hlt | Hge].
  - apply IH; [lia | exact Hfit |].
    destruct (Z.le_gt_cases 1 L) as [HL | HL].
    + apply pass_within; [exact HB | lia | lia | exact Ha].
    + replace (Z.to_nat L) with O by lia. cbn [for_loop].
      intros j Hj. destruct (Ha j Hj). lia.
  - intros j Hj. destruct (Ha j Hj). lia.
Qed.

Lemma FFTfix_within (fr fi : list Z) (B : Z) :
  0 <= B -> cells_within B fr -> cells_within B fi ->
  Nat.iter (Z.to_nat lg) butterfly_growth B < 2 ^ 31 ->
  cells_within (Nat.iter (Z.to_nat lg) butterfly_growth B) (fst (FFTfix lg Sinewave fr fi)) /\
  cells_within (Nat.iter (Z.to_nat lg) butterfly_growth B) (snd (FFTfix lg Sinewave fr fi)).
Proof.
  intros HB Hfr Hfi Hfit.
  assert (Hrev : cells_within B (fst (FFTfix_bit_reversal lg fr fi)) /\
                 cells_within B (snd (FFTfix_bit_reversal lg fr fi))).
  { apply (bit_reversal_preserves
             (fun a => cells_within B (fst a) /\ cells_within B (snd a)));
      [| split; assumption].
    intros m a [H1 H2]. unfold bit_reversal_step.
    destruct (bit_reversed lg m <=? m); [split; assumption |].
    cbn [fst snd]. unfold aset.
    split; apply Forall_insert; try apply Forall_insert;
      try assumption; apply cells_within_aget; assumption. }
  destruct Hrev as [Hr1 Hr2].
  pose proof (danielson_lanczos_within (Z.to_nat N) (Z.to_nat lg) 1 (lg - 1)
                (FFTfix_bit_reversal lg fr fi) B HB Hfit) as Hdl.
  fold (FFTfix lg Sinewave fr fi) in Hdl.
  split; apply aget_cells_within; intros i Hi; apply Hdl; try exact Hi;
    intros j Hj; split; apply cells_within_aget; assumption.
Qed.

(** While the bound [B] on the cells of [fr] and [fi], grown by half (and
    rounding) once per pass, fits [int], every cell [FFTfix] leaves is within
    the grown bound: the transform cannot overflow. *)
Theorem FFTfix_headroom (fr fi : list Z) (B : Z) (i : Z) :
  0 <= B -> cells_within B fr -> cells_within B fi ->
  Nat.iter (Z.to_nat lg) butterfly_growth B < 2 ^ 31 ->
  B <= Nat.iter (Z.to_nat lg) butterfly_growth B /\
  Z.abs (aget (fst (FFTfix lg Sinewave fr fi)) i)
    <= Nat.iter (Z.to_nat lg) butterfly_growth B /\
  Z.abs (aget (snd (FFTfix lg Sinewave fr fi)) i)
    <= Nat.iter (Z.to_nat lg) butterfly_growth B.
Proof.
  intros HB Hfr Hfi Hfit.
  pose proof (butterfly_growth_iter_inflates (Z.to_nat lg) B HB) as Hinf.
  destruct (FFTfix_within fr fi B HB Hfr Hfi Hfit) as [H1 H2].
  split; [exact Hinf |].
  split; apply cells_within_aget; assumption || lia.
Qed.

End Headroom.

Lemma FFTfix_headroom_witness :
  400 <= Nat.iter (Z.to_nat 2) butterfly_growth 400 /\
  Z.abs (aget (fst (FFTfix 2 [0; 32767; 0; -32767] [100; 200; 300; 400] (replicate 4 0))) 1)
    <= Nat.iter (Z.to_nat 2) butterfly_growth 400 /\
  Z.abs (aget (snd (FFTfix 2 [0; 32767; 0; -32767] [100; 200; 300; 400] (replicate 4 0))) 1)
    <= Nat.iter (Z.to_nat 2) butterfly_growth 400.
Proof.
  apply (FFTfix_headroom 2 ltac:(lia) [0; 32767; 0; -32767]).
  - repeat constructor; cbn; lia.
  - lia.
  - repeat constructor; cbn; lia.
  - repeat constructor; cbn; lia.
  - vm_compute. reflexivity.
Defined.

(** ** One epoch of [protothread_fft] *)

Lemma lookup_aget (a : list Z) (n : nat) (v : Z) :
  a !! n = Some v -> aget a (Z.of_nat n) = v.
Proof. intros E. unfold aget. rewrite Nat2Z.id, E. reflexivity. Qed.

Lemma aget_beyond (a : list Z) i : Z.of_nat (length a) <= i -> aget a i = 0.
Proof. intros Hi. unfold aget. rewrite lookup_ge_None_2 by lia. reflexivity. Qed.

(** An 8-bit sample times a window value between 0 and 1. *)
Lemma windowed_sample s w :
  0 <= s <= 255 -> 0 <= w <= 2 ^ 15 -> multfix15 (int2fix15 s) w = s * w.
Proof.
  intros Hs Hw. rewrite int2fix15_small by lia.
  rewrite multfix15_floor by (unfold int32_range; nia).
  replace (s * 2 ^ 15 * w) with (s * w * 2 ^ 15) by ring.
  rewrite Z.div_mul by lia. apply to_int32_small. unfold int32_range. nia.
Qed.

Section Epoch.

Variable lg : Z.
Hypothesis lg_range : 1 <= lg <= 16.
Variables Sinewave window sample_array fr fi : list Z.
Hypothesis fr_length : Z.of_nat (length fr) = NUM_SAMPLES lg.
Hypothesis fi_length : Z.of_nat (length fi) = NUM_SAMPLES lg.

Local Abbreviation N := (NUM_SAMPLES lg).
Local Abbreviation bins := (Z.shiftr (NUM_SAMPLES lg) 1).
Local Abbreviation copied := (window_copy lg window sample_array fr fi).
Local Abbreviation transformed := (FFTfix lg Sinewave (fst copied) (snd copied)).

(** The copy loop leaves the lengths alone, the windowed samples in [fr] and
    zeros in [fi], whatever the two arrays held. *)
Lemma window_copy_cells :
  length (fst copied) = length fr /\ length (snd copied) = length fi /\
  forall i, 0 <= i < N ->
    aget (fst copied) i = multfix15 (int2fix15 (aget sample_array i)) (aget window i) /\
    aget (snd copied) i = 0.
Proof.
  pose proof (NUM_SAMPLES_pos lg lg_range) as HN.
  pose proof (for_loop_invariant
    (fun I (a : list Z * list Z) =>
       length (fst a) = length fr /\ length (snd a) = length fi /\
       forall i, 0 <= i < I ->
         aget (fst a) i = multfix15 (int2fix15 (aget sample_array i)) (aget window i) /\
         aget (snd a) i = 0)
    (fun i a =>
       (aset (fst a) i (multfix15 (int2fix15 (aget sample_array i)) (aget window i)),
        aset (snd a) i 0))
    (Z.to_nat N) 0 (fr, fi)) as Hloop.
  rewrite Z2Nat.id, Z.add_0_l in Hloop by lia.
  apply Hloop.
  - cbn [fst snd]. repeat split; lia.
  - intros i a Hi (Hl1 & Hl2 & Hcells). cbn [fst snd]. rewrite !length_aset.
    split; [exact Hl1 |]. split; [exact Hl2 |].
    intros k Hk. destruct (Z.eq_dec k i) as [-> | Hne].
    + rewrite !aget_aset_eq by lia. split; reflexivity.
    + rewrite !aget_aset_ne by lia. apply Hcells. lia.
Qed.

(** Windowing is exact: for 8-bit samples and a window between 0 and 1 in
    fix15, cell [i] of [fr] gets the integer product of sample and window
    value, cell [i] of [fi] gets 0, and nothing overflows. *)
Theorem window_copy_exact (i : Z) :
  0 <= i < NUM_SAMPLES lg ->
  0 <= aget sample_array i <= 255 ->
  0 <= aget window i <= 2 ^ 15 ->
  aget (fst (window_copy lg window sample_array fr fi)) i
    = aget sample_array i * aget window i /\
  aget (snd (window_copy lg window sample_array fr fi)) i = 0.
Proof.
  intros Hi Hs Hw. destruct window_copy_cells as (_ & _ & Hcells).
  destruct (Hcells i Hi) as [-> ->]. split; [| reflexivity].
  apply windowed_sample; assumption.
Qed.

Lemma transformed_length :
  Z.of_nat (length (fst transformed)) = N /\ Z.of_nat (length (snd transformed)) = N.
Proof.
  destruct window_copy_cells as (Hl1 & Hl2 & _).
  destruct (FFTfix_lengths lg Sinewave (fst copied) (snd copied)) as [H1 H2].
  rewrite H1, H2, Hl1, Hl2. split; assumption.
Qed.

(** An epoch on an all-zero sample buffer reports no peak: [max_fr_dex] and
    [max_fr] stay 0, whatever the tables hold and the arrays held. *)
Theorem fft_epoch_silence :
  (forall i, 0 <= i < NUM_SAMPLES lg -> aget sample_array i = 0) ->
  max_fr_dex (fft_epoch lg Sinewave window sample_array fr fi) = 0 /\
  max_fr (fft_epoch lg Sinewave window sample_array fr fi) = 0.
Proof.
  intros Hzero. destruct window_copy_cells as (Hl1 & Hl2 & Hcells).
  assert (Hz : all_zero (fst copied) /\ all_zero (snd copied)).
  { split; apply Forall_lookup; intros n v E;
      pose proof (lookup_lt_Some _ _ _ E) as Hn;
      destruct (Hcells (Z.of_nat n) ltac:(lia)) as [H1 H2];
      rewrite <- (lookup_aget _ _ _ E).
    - rewrite H1, Hzero by lia. apply multfix15_0_l.
    - exact H2. }
  destruct Hz as [Hz1 Hz2].
  destruct (FFTfix_zeros lg Sinewave _ _ Hz1 Hz2) as [Ht1 Ht2].
  destruct transformed_length as [Hn1 Hn2].
  destruct (search_invariant_end lg ltac:(lia) _ _ Hn1 Hn2)
    as (_ & _ & _ & _ & [(Hd & Hm & _) | (Hd & Hm & Hpos & _)]).
  - split; assumption.
  - unfold fft_epoch. cbv zeta. exfalso. rewrite Hm in Hpos.
    rewrite !aget_all_zero in Hpos by assumption.
    vm_compute in Hpos. discriminate.
Qed.

(** At the shipped sizes nothing overflows from the samples to the peak: for
    8-bit samples, a window between 0 and 1 and a sine table between -1 and 1,
    while the bound [255.0] grown over the passes stays within [2^30] (it
    does for [LOG2_NUM_SAMPLES = 10]), every bin below [NUM_SAMPLES/2] ends as
    max + 0.4 min of the absolute values of its transformed cell, none of the
    bins from 5 on exceeds [max_fr], and [max_fr] is 0 with [max_fr_dex = 0]
    or the positive value of bin [max_fr_dex], which is 5 or more. *)
Theorem fft_epoch_no_overflow :
  (forall i, 0 <= i < NUM_SAMPLES lg -> 0 <= aget sample_array i <= 255) ->
  (forall i, 0 <= i < NUM_SAMPLES lg -> 0 <= aget window i <= 2 ^ 15) ->
  cells_within (2 ^ 15) Sinewave ->
  Nat.iter (Z.to_nat lg) butterfly_growth (255 * 2 ^ 15) <= 2 ^ 30 ->
  let a := FFTfix lg Sinewave (fst (window_copy lg window sample_array fr fi))
             (snd (window_copy lg window sample_array fr fi)) in
  let p := fft_epoch lg Sinewave window sample_array fr fi in
  let mag := fun j =>
    Z.max (Z.abs (aget (fst a) j)) (Z.abs (aget (snd a) j))
    + Z.min (Z.abs (aget (fst a) j)) (Z.abs (aget (snd a) j)) * 13107 / 2 ^ 15 in
  (forall j, 0 <= j < Z.shiftr (NUM_SAMPLES lg) 1 -> aget (pk_fr p) j = mag j) /\
  (forall j, 5 <= j < Z.shiftr (NUM_SAMPLES lg) 1 -> aget (pk_fr p) j <= max_fr p) /\
  ((max_fr_dex p = 0 /\ max_fr p = 0) \/
   (5 <= max_fr_dex p < Z.shiftr (NUM_SAMPLES lg) 1 /\
    max_fr p = aget (pk_fr p) (max_fr_dex p) /\ 0 < max_fr p)).
Proof.
  intros Hs Hw HS Hfit. cbv zeta.
  destruct window_copy_cells as (Hl1 & Hl2 & Hcells).
  assert (Hc : cells_within (255 * 2 ^ 15) (fst copied) /\
               cells_within (255 * 2 ^ 15) (snd copied)).
  { split; apply aget_cells_within; intros i Hi;
      (destruct (Z.lt_ge_cases i N) as [Hlt | Hge];
       [| rewrite aget_beyond by lia; lia]);
      destruct (Hcells i ltac:(lia)) as [H1 H2].
    - rewrite H1, windowed_sample by (apply Hs || apply Hw; lia).
      specialize (Hs i ltac:(lia)). specialize (Hw i ltac:(lia)). nia.
    - rewrite H2. lia. }
  destruct Hc as [Hc1 Hc2].
  destruct (FFTfix_within lg lg_range Sinewave HS _ _ (255 * 2 ^ 15) ltac:(lia) Hc1 Hc2
              ltac:(lia))
    as [Ht1 Ht2].
  assert (Hbound : forall j,
            Z.abs (aget (fst transformed) j) <= 2 ^ 30 /\
            Z.abs (aget (snd transformed) j) <= 2 ^ 30).
  { intros j.
    pose proof (butterfly_growth_iter_inflates (Z.to_nat lg) (255 * 2 ^ 15) ltac:(lia))
      as Hinf.
    split; (etransitivity; [| exact Hfit]); apply cells_within_aget; (lia || assumption). }
  destruct transformed_length as [Hn1 Hn2].
  destruct (search_invariant_end lg ltac:(lia) _ _ Hn1 Hn2)
    as (_ & _ & Hdone & _ & Hbest).
  fold (fft_epoch lg Sinewave window sample_array fr fi) in Hdone, Hbest.
  assert (Hmag : forall j, 0 <= j < bins ->
            aget (pk_fr (fft_epoch lg Sinewave window sample_array fr fi)) j
            = approx_magnitude (aget (fst transformed) j) (aget (snd transformed) j))
    by (intros j Hj; apply Hdone, Hj).
  split; [| split].
  - intros j Hj. rewrite (Hmag j Hj).
    apply approx_magnitude_alpha_max_beta_min; apply Hbound.
  - intros j Hj. rewrite (Hmag j ltac:(lia)).
    destruct Hbest as [(_ & -> & Hle) | (_ & _ & _ & _ & Hle)]; apply Hle; exact Hj.
  - destruct Hbest as [(Hd & Hm & _) | (Hd & Hm & Hpos & _)].
    + left. split; assumption.
    + right. split; [exact Hd |]. split; [| exact Hpos].
      rewrite (Hmag (max_fr_dex (fft_epoch lg Sinewave window sample_array fr fi))
                 ltac:(lia)). exact Hm.
Qed.

End Epoch.

Lemma shipped_headroom :
  Nat.iter (Z.to_nat 10) butterfly_growth (255 * 2 ^ 15) <= 2 ^ 30.
Proof. vm_compute. discriminate. Qed.


Lemma window_copy_exact_witness :
  aget (fst (window_copy 3 [0; 4800; 16384; 27968; 32768; 27968; 16384; 4800]
               [128; 200; 255; 200; 128; 56; 0; 56] (replicate 8 7) (replicate 8 7))) 2
    = 255 * 16384 /\
  aget (snd (window_copy 3 [0; 4800; 16384; 27968; 32768; 27968; 16384; 4800]
               [128; 200; 255; 200; 128; 56; 0; 56] (replicate 8 7) (replicate 8 7))) 2
    = 0.
Proof.
  apply (window_copy_exact 3 ltac:(lia) [0; 4800; 16384; 27968; 32768; 27968; 16384; 4800]
           [128; 200; 255; 200; 128; 56; 0; 56] (replicate 8 7) (replicate 8 7)
           eq_refl eq_refl 2).
  - unfold NUM_SAMPLES. lia.
  - vm_compute. split; discriminate.
  - vm_compute. split; discriminate.
Defined.

Lemma fft_epoch_silence_witness :
  max_fr_dex (fft_epoch 3 [0; 23170; 32767; 23170; 0; -23170; -32767; -23170]
                [0; 4800; 16384; 27968; 32768; 27968; 16384; 4800]
                (replicate 8 0) (replicate 8 7) (replicate 8 7)) = 0 /\
  max_fr (fft_epoch 3 [0; 23170; 32767; 23170; 0; -23170; -32767; -23170]
            [0; 4800; 16384; 27968; 32768; 27968; 16384; 4800]
            (replicate 8 0) (replicate 8 7) (replicate 8 7)) = 0.
Proof.
  apply (fft_epoch_silence 3 ltac:(lia)); try reflexivity.
  intros i Hi. change (NUM_SAMPLES 3) with 8 in Hi.
  assert (H : i = 0 \/ i = 1 \/ i = 2 \/ i = 3 \/ i = 4 \/ i = 5 \/ i = 6 \/ i = 7) by lia.
  repeat destruct H as [-> | H]; try subst i; reflexivity.
Defined.

Lemma fft_epoch_no_overflow_witness :
  (max_fr_dex (fft_epoch 3 [0; 23170; 32767; 23170; 0; -23170; -32767; -23170]
                 [0; 4800; 16384; 27968; 32768; 27968; 16384; 4800]
                 [128; 200; 255; 200; 128; 56; 0; 56] (replicate 8 7) (replicate 8 7)) = 0 /\
   max_fr (fft_epoch 3 [0; 23170; 32767; 23170; 0; -23170; -32767; -23170]
             [0; 4800; 16384; 27968; 32768; 27968; 16384; 4800]
             [128; 200; 255; 200; 128; 56; 0; 56] (replicate 8 7) (replicate 8 7)) = 0) \/
  (5 <= max_fr_dex (fft_epoch 3 [0; 23170; 32767; 23170; 0; -23170; -32767; -23170]
                      [0; 4800; 16384; 27968; 32768; 27968; 16384; 4800]
                      [128; 200; 255; 200; 128; 56; 0; 56] (replicate 8 7) (replicate 8 7))
     < Z.shiftr (NUM_SAMPLES 3) 1 /\
   max_fr (fft_epoch 3 [0; 23170; 32767; 23170; 0; -23170; -32767; -23170]
             [0; 4800; 16384; 27968; 32768; 27968; 16384; 4800]
             [128; 200; 255; 200; 128; 56; 0; 56] (replicate 8 7) (replicate 8 7))
   = aget (pk_fr (fft_epoch 3 [0; 23170; 32767; 23170; 0; -23170; -32767; -23170]
                    [0; 4800; 16384; 27968; 32768; 27968; 16384; 4800]
                    [128; 200; 255; 200; 128; 56; 0; 56] (replicate 8 7) (replicate 8 7)))
       (max_fr_dex (fft_epoch 3 [0; 23170; 32767; 23170; 0; -23170; -32767; -23170]
                      [0; 4800; 16384; 27968; 32768; 27968; 16384; 4800]
                      [128; 200; 255; 200; 128; 56; 0; 56] (replicate 8 7) (replicate 8 7))) /\
   0 < max_fr (fft_epoch 3 [0; 23170; 32767; 23170; 0; -23170; -32767; -23170]
                 [0; 4800; 16384; 27968; 32768; 27968; 16384; 4800]
                 [128; 200; 255; 200; 128; 56; 0; 56] (replicate 8 7) (replicate 8 7))).
Proof.
  refine (proj2 (proj2 (fft_epoch_no_overflow 3 ltac:(lia)
           [0; 23170; 32767; 23170; 0; -23170; -32767; -23170]
           [0; 4800; 16384; 27968; 32768; 27968; 16384; 4800]
           [128; 200; 255; 200; 128; 56; 0; 56] (replicate 8 7) (replicate 8 7)
           eq_refl eq_refl _ _ _ _))).
  - intros i Hi. change (NUM_SAMPLES 3) with 8 in Hi.
    assert (H : i = 0 \/ i = 1 \/ i = 2 \/ i = 3 \/ i = 4 \/ i = 5 \/ i = 6 \/ i = 7) by lia.
    repeat destruct H as [-> | H]; try subst i; vm_compute; split; discriminate.
  - intros i Hi. change (NUM_SAMPLES 3) with 8 in Hi.
    assert (H : i = 0 \/ i = 1 \/ i = 2 \/ i = 3 \/ i = 4 \/ i = 5 \/ i = 6 \/ i = 7) by lia.
    repeat destruct H as [-> | H]; try subst i; vm_compute; split; discriminate.
  - repeat constructor; vm_compute; discriminate.
  - vm_compute. discriminate.
Defined.

(** The height of a spectrum bar is 36 pixels per unit of magnitude, rounded
    down, and not negative, for magnitudes up to [2^31 / 36]. *)
Theorem bar_height_scale (mag : Z) :
  0 <= mag -> 36 * mag < 2 ^ 31 ->
  bar_height mag = 36 * mag / 2 ^ 15 /\ 0 <= bar_height mag.
Proof.
  intros H0 Hfit. unfold bar_height.
  rewrite int2fix15_small by lia.
  rewrite multfix15_floor by (unfold int32_range; lia).
  replace (mag * (36 * 2 ^ 15)) with (36 * mag * 2 ^ 15) by ring.
  rewrite Z.div_mul by lia.
  rewrite (to_int32_small (36 * mag)) by (unfold int32_range; lia).
  unfold fix2int15. rewrite Z.shiftr_div_pow2 by lia.
  assert (Hq : 0 <= 36 * mag / 2 ^ 15 <= 36 * mag).
  { split; [apply Z.div_pos; lia |]. apply Z.div_le_upper_bound; lia. }
  rewrite to_int32_small by (unfold int32_range; lia).
  split; [reflexivity | lia].
Qed.

Lemma bar_height_scale_witness :
  bar_height (3 * 32768) = 36 * (3 * 32768) / 2 ^ 15 /\ 0 <= bar_height (3 * 32768).
Proof. apply (bar_height_scale (3 * 32768)); lia. Defined.

(** ** The two semaphores *)

(** The two semaphores and the two heartbeat threads hold one token between
    them: in every reachable state each semaphore is 0 or 1, and either
    exactly one semaphore is signaled and both threads stand at their wait,
    or neither is and exactly one thread is past its wait. *)
Theorem one_token (tr : list event) (s : handshake) :
  run tr handshake_boot = Some s ->
  0 <= core_0_go s <= 1 /\ 0 <= core_1_go s <= 1 /\
  ((core_0_go s + core_1_go s = 1 /\ pt_0 s = Wait /\ pt_1 s = Wait) \/
   (core_0_go s + core_1_go s = 0 /\
    ((pt_0 s <> Wait /\ pt_1 s = Wait) \/ (pt_0 s = Wait /\ pt_1 s <> Wait)))).
Proof.
  intros Hrun.
  destruct (run_invariant tr s Hrun)
    as (q & r & Hr & _ & Hpt & Hpo & Hgo & Hgoo & _).
  destruct (turn q); cbn [go pt other] in Hpt, Hpo, Hgo, Hgoo;
    destruct r as [| [| [| [| [| [| [| r]]]]]]]; try lia;
    cbn [Nat.eqb stmt_at nth body_order] in Hgo, Hpt;
    rewrite Hgo, Hgoo, Hpt, Hpo;
    (split; [lia |]; split; [lia |]);
    solve [ left; repeat split; reflexivity
          | right; split; [reflexivity |]; left; split; [discriminate | reflexivity]
          | right; split; [reflexivity |]; right; split; [reflexivity | discriminate] ].
Qed.

Lemma one_token_witness :
  0 <= core_0_go (set_pt Core0 Load (set_go Core0 0 handshake_boot)) <= 1 /\
  0 <= core_1_go (set_pt Core0 Load (set_go Core0 0 handshake_boot)) <= 1 /\
  ((core_0_go (set_pt Core0 Load (set_go Core0 0 handshake_boot))
    + core_1_go (set_pt Core0 Load (set_go Core0 0 handshake_boot)) = 1 /\
    pt_0 (set_pt Core0 Load (set_go Core0 0 handshake_boot)) = Wait /\
    pt_1 (set_pt Core0 Load (set_go Core0 0 handshake_boot)) = Wait) \/
   (core_0_go (set_pt Core0 Load (set_go Core0 0 handshake_boot))
    + core_1_go (set_pt Core0 Load (set_go Core0 0 handshake_boot)) = 0 /\
    ((pt_0 (set_pt Core0 Load (set_go Core0 0 handshake_boot)) <> Wait /\
      pt_1 (set_pt Core0 Load (set_go Core0 0 handshake_boot)) = Wait) \/
     (pt_0 (set_pt Core0 Load (set_go Core0 0 handshake_boot)) = Wait /\
      pt_1 (set_pt Core0 Load (set_go Core0 0 handshake_boot)) <> Wait)))).
Proof. apply (one_token [Beat Core0 Wait]). vm_compute. reflexivity. Defined.

(** The handshake cannot deadlock and leaves no choice: in every reachable
    state exactly one heartbeat statement can run next. *)
Theorem no_deadlock (tr : list event) (s : handshake) :
  run tr handshake_boot = Some s ->
  exists c a, fire (Beat c a) s <> None /\
    forall c' a', fire (Beat c' a') s <> None -> c' = c /\ a' = a.
Proof.
  intros Hrun.
  destruct (run_invariant tr s Hrun)
    as (q & r & Hr & _ & Hpt & Hpo & Hgo & Hgoo & _).
  exists (turn q), (stmt_at r).
  assert (Hwait : forall a', fire (Beat (other (turn q)) a') s = None).
  { intros a'. cbn [fire]. rewrite Hpo.
    destruct a'; cbn [stmt_eqb]; try reflexivity.
    unfold PT_SEM_SAFE_WAIT. rewrite Hgoo. reflexivity. }
  split.
  - cbn [fire]. rewrite Hpt.
    destruct r as [| [| [| [| [| [| [| r]]]]]]]; try lia;
      cbn [stmt_at nth body_order stmt_eqb]; try discriminate.
    unfold PT_SEM_SAFE_WAIT. rewrite Hgo. cbn. discriminate.
  - intros c' a' Hen.
    assert (Hc : c' = turn q).
    { destruct (turn q), c'; try reflexivity; exfalso; apply Hen, Hwait. }
    subst c'. split; [reflexivity |].
    cbn [fire] in Hen. rewrite Hpt in Hen.
    destruct (stmt_eqb (stmt_at r) a') eqn:E; [| exfalso; apply Hen; reflexivity].
    symmetry. apply stmt_eqb_eq, E.
Qed.

Lemma no_deadlock_witness :
  exists c a, fire (Beat c a) (set_pt Core0 Load (set_go Core0 0 handshake_boot)) <> None /\
    forall c' a',
      fire (Beat c' a') (set_pt Core0 Load (set_go Core0 0 handshake_boot)) <> None ->
      c' = c /\ a' = a.
Proof. apply (no_deadlock [Beat Core0 Wait]). vm_compute. reflexivity. Defined.

(** * C3: one epoch on a pure tone *)

(** ** Machine words *)

Lemma sem_bounds x : - 2 ^ 62 <= sem x < 2 ^ 62.
Proof.
  unfold sem. pose proof (Sint63.to_Z_bounded x) as H.
  rewrite Sint63.to_Z_min, Sint63.to_Z_max in H.
  change (wB / 2) with (2 ^ 62) in H. lia.
Qed.

Lemma sem_phi x : 0 <= sem x -> Uint63.to_Z x = sem x.
Proof.
  intros H. pose proof (sem_bounds x) as Hb. unfold sem in *.
  rewrite <- Sint63.to_Z_mod_Uint63to_Z. apply Z.mod_small.
  change wB with (2 ^ 63). lia.
Qed.

Lemma sem_of_Z z : - 2 ^ 62 <= z < 2 ^ 62 -> sem (Uint63.of_Z z) = z.
Proof.
  intros H. unfold sem. rewrite Sint63.of_Z_spec. apply Sint63.cmod_small.
  change (wB / 2) with (2 ^ 62). lia.
Qed.

Lemma sem_inj x y : sem x = sem y -> x = y.
Proof. apply Sint63.to_Z_inj. Qed.

Lemma sem_add a b :
  - 2 ^ 62 <= sem a + sem b < 2 ^ 62 -> sem (PrimInt63.add a b) = sem a + sem b.
Proof.
  intros H. unfold sem in *. apply Sint63.to_Z_add.
  rewrite Sint63.to_Z_min, Sint63.to_Z_max. change (wB / 2) with (2 ^ 62). lia.
Qed.

Lemma sem_sub a b :
  - 2 ^ 62 <= sem a - sem b < 2 ^ 62 -> sem (PrimInt63.sub a b) = sem a - sem b.
Proof.
  intros H. unfold sem in *. apply Sint63.to_Z_sub.
  rewrite Sint63.to_Z_min, Sint63.to_Z_max. change (wB / 2) with (2 ^ 62). lia.
Qed.

Lemma sem_mul a b :
  - 2 ^ 62 <= sem a * sem b < 2 ^ 62 -> sem (PrimInt63.mul a b) = sem a * sem b.
Proof.
  intros H. unfold sem in *. apply Sint63.to_Z_mul.
  rewrite Sint63.to_Z_min, Sint63.to_Z_max. change (wB / 2) with (2 ^ 62). lia.
Qed.

Lemma sem_asr a p :
  0 <= sem p -> sem (PrimInt63.asr a p) = Z.shiftr (sem a) (sem p).
Proof.
  intros Hp. unfold sem in *. rewrite Sint63.asr_spec, Z.shiftr_div_pow2 by exact Hp.
  reflexivity.
Qed.

Lemma sem_lsl a p :
  0 <= sem a -> 0 <= sem p -> sem a * 2 ^ sem p < 2 ^ 62 ->
  sem (PrimInt63.lsl a p) = sem a * 2 ^ sem p.
Proof.
  intros Ha Hp Hfit.
  assert (Hphi : Uint63.to_Z (PrimInt63.lsl a p) = sem a * 2 ^ sem p).
  { rewrite Uint63.lsl_spec, (sem_phi a Ha), (sem_phi p Hp).
    apply Z.mod_small. change wB with (2 ^ 63).
    assert (0 < 2 ^ sem p) by (apply Z.pow_pos_nonneg; lia). nia. }
  unfold sem at 1. rewrite Sint63.to_Z_cmodwB, Hphi. apply Sint63.cmod_small.
  change (wB / 2) with (2 ^ 62).
  assert (0 < 2 ^ sem p) by (apply Z.pow_pos_nonneg; lia). nia.
Qed.

Lemma sem_mod a b :
  0 <= sem a -> 0 < sem b -> sem (PrimInt63.mod a b) = sem a mod sem b.
Proof.
  intros Ha Hb.
  assert (Hphi : Uint63.to_Z (PrimInt63.mod a b) = sem a mod sem b)
    by (rewrite Uint63.mod_spec, (sem_phi a Ha), (sem_phi b ltac:(lia)); reflexivity).
  pose proof (Z.mod_pos_bound (sem a) (sem b) Hb) as Hm.
  pose proof (sem_bounds b) as Hbb.
  unfold sem at 1. rewrite Sint63.to_Z_cmodwB, Hphi. apply Sint63.cmod_small.
  change (wB / 2) with (2 ^ 62). lia.
Qed.

Lemma sem_ltsb a b : PrimInt63.ltsb a b = (sem a <? sem b).
Proof.
  unfold sem. destruct (Sint63.ltbP a b) as [H | H]; symmetry.
  - apply Z.ltb_lt, H.
  - apply Z.ltb_ge. lia.
Qed.

Lemma sem_lesb a b : PrimInt63.lesb a b = (sem a <=? sem b).
Proof.
  unfold sem. destruct (Sint63.lebP a b) as [H | H]; symmetry.
  - apply Z.leb_le, H.
  - apply Z.leb_gt. lia.
Qed.

Lemma wrap32_spec x : sem (wrap32 x) = to_int32 (sem x).
Proof.
  unfold wrap32. rewrite sem_asr by (vm_compute; discriminate).
  change (sem 31%uint63) with 31.
  assert (Hshift : sem (PrimInt63.lsl x 31%uint63) = 2 ^ 31 * to_int32 (sem x)).
  { unfold sem at 1. rewrite Sint63.to_Z_cmodwB, Uint63.lsl_spec.
    change (Uint63.to_Z 31%uint63) with 31.
    rewrite <- Sint63.to_Z_mod_Uint63to_Z. fold (sem x).
    rewrite Zmult_mod_idemp_l, Sint63.cmod_mod.
    unfold Sint63.cmod, to_int32, wrap_signed.
    change wB with (2 ^ 31 * 2 ^ 32). change (2 ^ 31 * 2 ^ 32 / 2) with (2 ^ 31 * 2 ^ 31).
    change (2 ^ (32 - 1)) with (2 ^ 31).
    replace (sem x * 2 ^ 31 + 2 ^ 31 * 2 ^ 31) with (2 ^ 31 * (sem x + 2 ^ 31)) by ring.
    rewrite Zmult_mod_distr_l. ring. }
  rewrite Hshift, Z.shiftr_div_pow2 by lia.
  rewrite Z.mul_comm, Z.div_mul by lia. reflexivity.
Qed.

Lemma mul15_spec a b :
  - 2 ^ 62 <= sem a * sem b < 2 ^ 62 ->
  sem (mul15 a b) = multfix15 (sem a) (sem b).
Proof.
  intros H. pose proof (sem_bounds a). pose proof (sem_bounds b).
  unfold mul15, multfix15.
  rewrite wrap32_spec, sem_asr by (vm_compute; discriminate).
  change (sem 15%uint63) with 15. rewrite sem_mul by exact H.
  rewrite (to_int64_small (sem a)), (to_int64_small (sem b)) by lia.
  rewrite to_int64_small by lia. reflexivity.
Qed.

Lemma abs32_spec x : int32_range (sem x) -> sem (abs32 x) = abs_int (sem x).
Proof.
  unfold int32_range. intros H. unfold abs32, abs_int.
  rewrite wrap32_spec, sem_ltsb. change (sem 0%uint63) with 0. f_equal.
  destruct (Z.ltb_spec (sem x) 0).
  - rewrite sem_sub; change (sem 0%uint63) with 0; lia.
  - lia.
Qed.

Lemma put_set t i v : put t i v = PArray.set t i v.
Proof. unfold put. rewrite Uint63.eqb_refl. reflexivity. Qed.

(** ** Arrays of words *)

Lemma rep_get t l i : rep t l -> 0 <= sem i -> sem (PArray.get t i) = aget l (sem i).
Proof. intros (_ & _ & _ & H). apply H. Qed.

Lemma rep_int32 t l z : rep t l -> int32_range (aget l z).
Proof.
  intros (_ & _ & H & _). unfold aget.
  destruct (l !! Z.to_nat z) as [v |] eqn:E; cbn.
  - exact (proj1 (Forall_lookup _ l) H _ _ E).
  - unfold int32_range. lia.
Qed.

Lemma rep_in_bounds t l i :
  rep t l -> 0 <= sem i ->
  PrimInt63.ltb i (PArray.length t) = (sem i <? Z.of_nat (length l)).
Proof.
  intros (Hlen & _) Hi.
  assert (Hl : 0 <= sem (PArray.length t)) by lia.
  destruct (Uint63.ltbP i (PArray.length t)) as [H | H];
    rewrite (sem_phi i Hi), (sem_phi _ Hl), Hlen in H; symmetry.
  - apply Z.ltb_lt, H.
  - apply Z.ltb_ge. lia.
Qed.

Lemma rep_put t l i v :
  rep t l -> 0 <= sem i -> int32_range (sem v) ->
  rep (put t i v) (aset l (sem i) (sem v)).
Proof.
  intros Hrep Hi Hv. pose proof Hrep as (Hlen & Hdef & Hall & Hcells).
  rewrite put_set. unfold rep.
  rewrite PArray.length_set, PArray.default_set, length_aset.
  split; [exact Hlen |]. split; [exact Hdef |].
  split; [unfold aset; apply Forall_insert; assumption |].
  intros j Hj.
  destruct (Z.eq_dec (sem i) (sem j)) as [E | E].
  - apply sem_inj in E. subst j.
    pose proof (rep_in_bounds t l i Hrep Hi) as Hin.
    destruct (Z.ltb_spec (sem i) (Z.of_nat (length l))) as [Hlt | Hge].
    + rewrite PArray.get_set_same by exact Hin.
      rewrite aget_aset_eq by lia. reflexivity.
    + rewrite PArray.get_out_of_bounds
        by (rewrite PArray.length_set; exact Hin).
      rewrite PArray.default_set, Hdef.
      rewrite aget_beyond by (rewrite length_aset; lia). reflexivity.
  - rewrite PArray.get_set_other by (intros ->; apply E; reflexivity).
    rewrite aget_aset_ne by lia. apply Hcells, Hj.
Qed.

Lemma make_default (size a : int) : PArray.default (PArray.make size a) = a.
Proof.
  assert (Hirr : PrimInt63.ltb (PArray.length (PArray.make size a))
                   (PArray.length (PArray.make size a)) = false).
  { destruct (Uint63.ltbP (PArray.length (PArray.make size a))
                (PArray.length (PArray.make size a))) as [H | H]; [lia | reflexivity]. }
  rewrite <- (PArray.get_out_of_bounds _ _ _ Hirr). apply PArray.get_make.
Qed.

Lemma rep_make n :
  0 <= n <= 4194303 ->
  rep (PArray.make (Uint63.of_Z n) 0%uint63) (replicate (Z.to_nat n) 0).
Proof.
  intros Hn. unfold rep.
  assert (Hs : sem (Uint63.of_Z n) = n) by (apply sem_of_Z; lia).
  rewrite PArray.length_make, length_replicate.
  assert (Hleb : PrimInt63.leb (Uint63.of_Z n) PArray.max_length = true).
  { apply Uint63.leb_spec. rewrite sem_phi by lia. rewrite Hs.
    change (Uint63.to_Z PArray.max_length) with 4194303. lia. }
  rewrite Hleb, Hs. split; [lia |]. split; [apply make_default |].
  split; [apply Forall_replicate; unfold int32_range; lia |].
  intros i Hi. rewrite PArray.get_make. change (sem 0%uint63) with 0.
  unfold aget. destruct (replicate (Z.to_nat n) 0 !! Z.to_nat (sem i)) as [v |] eqn:E;
    [| reflexivity].
  apply lookup_replicate in E. cbn. symmetry. apply E.
Qed.

Lemma fill_rep l : forall l0 t i,
  rep t (l0 ++ replicate (length l) 0) ->
  sem i = Z.of_nat (length l0) ->
  Forall int32_range l ->
  Z.of_nat (length l0 + length l) < 2 ^ 40 ->
  rep (fill l i t) (l0 ++ l).
Proof.
  induction l as [| x l IH]; intros l0 t i Hrep Hi Hall Hlen.
  - cbn [fill]. cbn in Hrep. exact Hrep.
  - cbn [fill]. inversion Hall as [| ? ? Hx Hl]. subst.
    replace (l0 ++ x :: l) with ((l0 ++ [x]) ++ l) by (rewrite <- app_assoc; reflexivity).
    unfold int32_range in Hx.
    apply IH.
    + pose proof (rep_put t _ i (Uint63.of_Z x) Hrep ltac:(lia)) as Hput.
      rewrite sem_of_Z in Hput by lia. specialize (Hput Hx).
      cbn [length replicate] in Hput. unfold aset in Hput.
      rewrite Hi, Nat2Z.id in Hput.
      rewrite insert_app_r_alt in Hput by lia.
      rewrite Nat.sub_diag in Hput. cbn [insert list_insert] in Hput.
      rewrite <- app_assoc. exact Hput.
    + rewrite length_app. cbn [length].
      rewrite sem_add; change (sem 1%uint63) with 1; rewrite Hi; lia.
    + exact Hl.
    + rewrite length_app. cbn [length] in *. lia.
Qed.

Lemma word_array_rep l :
  Forall int32_range l -> Z.of_nat (length l) <= 4194303 -> rep (word_array l) l.
Proof.
  intros Hall Hlen. unfold word_array.
  apply (fill_rep l [] _ 0%uint63); [| reflexivity | exact Hall | cbn; lia].
  cbn [app]. rewrite <- (Nat2Z.id (length l)) at 2. apply rep_make. lia.
Qed.

(** ** Loops on words *)

Lemma word_loop_sim {A B : Type} (R : A -> B -> Prop)
    (f : int -> A -> A) (g : Z -> B -> B) :
  forall n i a b,
  0 <= sem i -> sem i + Z.of_nat n < 2 ^ 62 ->
  R a b ->
  (forall j a b, sem i <= sem j < sem i + Z.of_nat n -> R a b -> R (f j a) (g (sem j) b)) ->
  R (word_loop n i f a) (for_loop n (sem i) g b).
Proof.
  intros n. induction n as [| n IH]; intros i a b Hi Hfit Hab Hstep; [exact Hab |].
  cbn [word_loop for_loop].
  assert (Hnext : sem (PrimInt63.add i 1%uint63) = sem i + 1)
    by (rewrite sem_add; change (sem 1%uint63) with 1; lia).
  rewrite <- Hnext. apply IH.
  - lia.
  - lia.
  - apply Hstep; [lia | exact Hab].
  - intros j a' b' Hj. apply Hstep. lia.
Qed.

Lemma word_stride_sim {A B : Type} (R : A -> B -> Prop)
    (f : int -> A -> A) (g : Z -> B -> B) (hi step : int) :
  0 <= sem step -> sem hi + sem step < 2 ^ 62 ->
  (forall j a b, 0 <= sem j < sem hi -> R a b -> R (f j a) (g (sem j) b)) ->
  forall fuel i a b,
  0 <= sem i -> R a b ->
  R (word_stride fuel i hi step f a) (for_stride fuel (sem i) (sem hi) (sem step) g b).
Proof.
  intros Hs Hfit Hstep fuel.
  induction fuel as [| fuel IH]; intros i a b Hi Hab; [exact Hab |].
  cbn [word_stride for_stride]. rewrite sem_ltsb.
  destruct (Z.ltb_spec (sem i) (sem hi)); [| exact Hab].
  assert (Hnext : sem (PrimInt63.add i step) = sem i + sem step)
    by (rewrite sem_add; lia).
  rewrite <- Hnext. apply IH; [lia |]. apply Hstep; [lia | exact Hab].
Qed.

(** ** The mirror computes what the model computes *)

Lemma rep2_put_fst a b i v :
  rep2 a b -> 0 <= sem i -> int32_range (sem v) ->
  rep2 (put (fst a) i v, snd a) (aset (fst b) (sem i) (sem v), snd b).
Proof. intros [H1 H2] Hi Hv. split; [apply rep_put; assumption | exact H2]. Qed.

Lemma wrap32_int32 x : int32_range (sem (wrap32 x)).
Proof. rewrite wrap32_spec. apply to_int32_range. Qed.

Lemma mul15_int32 a b : int32_range (sem (mul15 a b)).
Proof. unfold mul15. apply wrap32_int32. Qed.

Lemma bit_reversal_step_sim R m a b :
  rep R (map (bit_reversed 10) (seqZ 0 1024)) ->
  rep2 a b -> 0 <= sem m < 1024 ->
  rep2 (bit_reversal_step_w R m a) (bit_reversal_step 10 (sem m) b).
Proof.
  intros HR [Hfr Hfi] Hm.
  assert (Hmr : sem (PArray.get R m) = bit_reversed 10 (sem m)).
  { rewrite (rep_get _ _ _ HR) by lia. unfold aget.
    rewrite list_lookup_fmap, lookup_seqZ_lt by lia. cbn.
    f_equal. lia. }
  pose proof (bit_reversed_range 10 ltac:(lia) (sem m)) as Hr.
  unfold bit_reversal_step_w, bit_reversal_step.
  rewrite sem_lesb, Hmr.
  destruct (bit_reversed 10 (sem m) <=? sem m); [split; assumption |].
  cbn [fst snd]. rewrite <- Hmr in *.
  assert (Hcell : forall t l i, rep t l -> 0 <= sem i -> int32_range (sem (PArray.get t i))).
  { intros t l i Ht Hi. rewrite (rep_get t l i Ht Hi). apply (rep_int32 t l _ Ht). }
  split.
  - rewrite <- (rep_get _ _ m Hfr), <- (rep_get _ _ (PArray.get R m) Hfr) by lia.
    apply rep_put; [apply rep_put | |]; try lia; try assumption;
      apply (Hcell _ _ _ Hfr); lia.
  - rewrite <- (rep_get _ _ m Hfi), <- (rep_get _ _ (PArray.get R m) Hfi) by lia.
    apply rep_put; [apply rep_put | |]; try lia; try assumption;
      apply (Hcell _ _ _ Hfi); lia.
Qed.

Lemma FFTfix_bit_reversal_sim R fr fi lr li :
  rep R (map (bit_reversed 10) (seqZ 0 1024)) ->
  rep fr lr -> rep fi li ->
  rep2 (FFTfix_bit_reversal_w R fr fi) (FFTfix_bit_reversal 10 lr li).
Proof.
  intros HR Hfr Hfi. unfold FFTfix_bit_reversal_w, FFTfix_bit_reversal.
  change (Z.to_nat (NUM_SAMPLES_M_1 10 - 1)) with (Z.to_nat 1022).
  apply (word_loop_sim rep2 _ _ (Z.to_nat 1022) 1%uint63);
    change (sem 1%uint63) with 1; try lia.
  - split; assumption.
  - intros j a b Hj Hab. apply bit_reversal_step_sim; [exact HR | exact Hab | lia].
Qed.

Lemma rep_put_at t l i v z V :
  rep t l -> sem i = z -> 0 <= z -> sem v = V -> int32_range V ->
  rep (put t i v) (aset l z V).
Proof. intros Hrep <- Hz <- HV. apply rep_put; assumption. Qed.

Lemma rep_get_at t l i z :
  rep t l -> sem i = z -> 0 <= z -> sem (PArray.get t i) = aget l z.
Proof. intros Hrep <- Hz. apply rep_get; assumption. Qed.

Lemma mul15_small w y :
  Z.abs (sem w) <= 2 ^ 15 -> int32_range (sem y) ->
  sem (mul15 w y) = multfix15 (sem w) (sem y).
Proof.
  unfold int32_range. intros Hw Hy. apply mul15_spec.
  assert (Z.abs (sem w * sem y) <= 2 ^ 15 * 2 ^ 31).
  { rewrite Z.abs_mul. apply Z.mul_le_mono_nonneg; lia. }
  lia.
Qed.

Lemma mul15_small_r y w :
  int32_range (sem y) -> Z.abs (sem w) <= 2 ^ 15 ->
  sem (mul15 y w) = multfix15 (sem y) (sem w).
Proof.
  unfold int32_range. intros Hy Hw. apply mul15_spec.
  assert (Z.abs (sem y * sem w) <= 2 ^ 31 * 2 ^ 15).
  { rewrite Z.abs_mul. apply Z.mul_le_mono_nonneg; lia. }
  lia.
Qed.

Lemma sem_add32 x y :
  int32_range (sem x) -> int32_range (sem y) ->
  sem (PrimInt63.add x y) = sem x + sem y.
Proof. unfold int32_range. intros Hx Hy. apply sem_add. lia. Qed.

Lemma sem_sub32 x y :
  int32_range (sem x) -> int32_range (sem y) ->
  sem (PrimInt63.sub x y) = sem x - sem y.
Proof. unfold int32_range. intros Hx Hy. apply sem_sub. lia. Qed.

Lemma sem_half x :
  sem (PrimInt63.asr x 1%uint63) = Z.shiftr (sem x) 1.
Proof. apply sem_asr. vm_compute. discriminate. Qed.

Lemma half_int32 x : int32_range x -> int32_range (Z.shiftr x 1).
Proof.
  unfold int32_range. intros Hx. rewrite Z.shiftr_div_pow2 by lia.
  change (2 ^ 1) with 2. Z.div_mod_to_equations. lia.
Qed.

Lemma half_small x : Z.abs x <= 2 ^ 15 -> Z.abs (Z.shiftr x 1) <= 2 ^ 15.
Proof.
  intros Hx. rewrite Z.shiftr_div_pow2 by lia.
  change (2 ^ 1) with 2. Z.div_mod_to_equations. lia.
Qed.

Lemma butterfly_sim L wr wi i a b :
  rep2 a b -> 0 <= sem i < 1024 -> 0 <= sem L <= 1024 ->
  Z.abs (sem wr) <= 2 ^ 15 -> Z.abs (sem wi) <= 2 ^ 15 ->
  rep2 (butterfly_w L wr wi i a) (butterfly (sem L) (sem wr) (sem wi) (sem i) b).
Proof.
  intros [Hfr Hfi] Hi HL Hwr Hwi.
  unfold butterfly_w, butterfly. cbv zeta.
  assert (Hj : sem (PrimInt63.add i L) = sem i + sem L) by (apply sem_add; lia).
  set (j := PrimInt63.add i L) in *.
  pose proof (rep_get_at _ _ j _ Hfr Hj ltac:(lia)) as Hyr.
  pose proof (rep_get_at _ _ j _ Hfi Hj ltac:(lia)) as Hyi.
  pose proof (rep_get_at _ _ i _ Hfr eq_refl ltac:(lia)) as Hxr.
  pose proof (rep_get_at _ _ i _ Hfi eq_refl ltac:(lia)) as Hxi.
  pose proof (rep_int32 _ _ (sem i + sem L) Hfr) as Byr.
  pose proof (rep_int32 _ _ (sem i + sem L) Hfi) as Byi.
  pose proof (rep_int32 _ _ (sem i) Hfr) as Bxr.
  pose proof (rep_int32 _ _ (sem i) Hfi) as Bxi.
  rewrite <- Hyr in Byr. rewrite <- Hyi in Byi. rewrite <- Hxr in Bxr. rewrite <- Hxi in Bxi.
  rewrite <- Hyr, <- Hyi, <- Hxr, <- Hxi.
  set (yr := PArray.get (fst a) j) in *. set (yi := PArray.get (snd a) j) in *.
  set (xr := PArray.get (fst a) i) in *. set (xi := PArray.get (snd a) i) in *.
  rewrite <- !mul15_small by assumption.
  rewrite <- (sem_sub32 (mul15 wr yr) (mul15 wi yi)) by apply mul15_int32.
  rewrite <- (sem_add32 (mul15 wr yi) (mul15 wi yr)) by apply mul15_int32.
  rewrite <- !wrap32_spec, <- !sem_half.
  set (tr := wrap32 (PrimInt63.sub (mul15 wr yr) (mul15 wi yi))).
  set (ti := wrap32 (PrimInt63.add (mul15 wr yi) (mul15 wi yr))).
  assert (Bqr : int32_range (sem (PrimInt63.asr xr 1%uint63)))
    by (rewrite sem_half; apply half_int32, Bxr).
  assert (Bqi : int32_range (sem (PrimInt63.asr xi 1%uint63)))
    by (rewrite sem_half; apply half_int32, Bxi).
  set (qr := PrimInt63.asr xr 1%uint63) in *.
  set (qi := PrimInt63.asr xi 1%uint63) in *.
  rewrite <- (sem_sub32 qr tr), <- (sem_sub32 qi ti), <- (sem_add32 qr tr), <- (sem_add32 qi ti)
    by (assumption || apply wrap32_int32).
  rewrite <- !wrap32_spec.
  split; cbn [fst snd].
  - apply rep_put_at; [apply rep_put_at | | | |];
      try reflexivity; try lia; try apply wrap32_int32; assumption.
  - apply rep_put_at; [apply rep_put_at | | | |];
      try reflexivity; try lia; try apply wrap32_int32; assumption.
Qed.

Lemma pow2_pass j : 0 <= j <= 10 -> 1 <= 2 ^ j <= 1024.
Proof.
  intros Hj. split.
  - assert (0 < 2 ^ j) by (apply Z.pow_pos_nonneg; lia). lia.
  - change 1024 with (2 ^ 10). apply Z.pow_le_mono_r; lia.
Qed.

Lemma sem_double L j :
  0 <= j <= 10 -> sem L = 2 ^ j ->
  sem (PrimInt63.lsl L 1%uint63) = 2 ^ (j + 1) /\
  to_int32 (Z.shiftl (sem L) 1) = 2 ^ (j + 1).
Proof.
  intros Hj HL. pose proof (pow2_pass j Hj) as Hp.
  assert (E : 2 ^ (j + 1) = 2 ^ j * 2) by (rewrite Z.pow_add_r by lia; reflexivity).
  split.
  - rewrite sem_lsl; change (sem 1%uint63) with 1; rewrite ?HL; change (2 ^ 1) with 2; lia.
  - rewrite Z.shiftl_mul_pow2, HL by lia. change (2 ^ 1) with 2.
    rewrite to_int32_small by (unfold int32_range; lia). lia.
Qed.

Lemma butterfly_group_sim S Sl inner L k m a b j :
  rep S Sl -> cells_within (2 ^ 15) Sl ->
  0 <= j < 10 -> sem L = 2 ^ j -> sem k = 9 - j -> 0 <= sem m < 2 ^ j ->
  rep2 a b ->
  rep2 (butterfly_group_w S inner L k m a)
       (butterfly_group 10 Sl inner (sem L) (sem k) (sem m) b).
Proof.
  intros HS Hsmall Hj HL Hk Hm Hab.
  pose proof (pow2_pass j ltac:(lia)) as Hp.
  pose proof (pow2_pass (9 - j) ltac:(lia)) as Hq.
  assert (Hprod : 2 ^ j * 2 ^ (9 - j) = 512)
    by (rewrite <- Z.pow_add_r by lia; replace (j + (9 - j)) with 9 by lia; reflexivity).
  assert (Hidx : 0 <= sem m * 2 ^ (9 - j) < 512) by nia.
  unfold butterfly_group_w, butterfly_group. cbv zeta.
  change (Z.quot (NUM_SAMPLES 10) 4) with 256. change (NUM_SAMPLES 10) with 1024.
  assert (Hsh : sem (PrimInt63.lsl m k) = sem m * 2 ^ (9 - j))
    by (rewrite sem_lsl; rewrite ?Hk; lia).
  assert (Hsh' : to_int32 (Z.shiftl (sem m) (sem k)) = sem m * 2 ^ (9 - j)).
  { rewrite Hk, Z.shiftl_mul_pow2 by lia. apply to_int32_small. unfold int32_range. lia. }
  rewrite Hsh', <- Hsh.
  set (idx := PrimInt63.lsl m k) in *.
  assert (Hidx256 : sem (PrimInt63.add idx 256%uint63) = sem idx + 256)
    by (apply sem_add; change (sem 256%uint63) with 256; lia).
  rewrite <- (rep_get_at _ _ _ _ HS Hidx256) by lia.
  rewrite <- (rep_get_at _ _ idx _ HS eq_refl) by lia.
  assert (Bwr : Z.abs (sem (PArray.get S (PrimInt63.add idx 256%uint63))) <= 2 ^ 15).
  { rewrite (rep_get_at _ _ _ _ HS Hidx256) by lia.
    apply cells_within_aget; [lia | exact Hsmall]. }
  assert (Bwi : Z.abs (sem (PArray.get S idx)) <= 2 ^ 15).
  { rewrite (rep_get_at _ _ idx _ HS eq_refl) by lia.
    apply cells_within_aget; [lia | exact Hsmall]. }
  set (sr := PArray.get S (PrimInt63.add idx 256%uint63)) in *.
  set (si := PArray.get S idx) in *.
  assert (Hneg : sem (PrimInt63.sub 0%uint63 si) = - sem si)
    by (rewrite sem_sub; change (sem 0%uint63) with 0; lia).
  rewrite <- Hneg, <- wrap32_spec, <- !sem_half.
  destruct (sem_double L j ltac:(lia) HL) as [Hstep Hstep'].
  rewrite Hstep', <- Hstep.
  change 1024 with (sem 1024%uint63) at 1.
  apply word_stride_sim.
  - rewrite Hstep. lia.
  - rewrite Hstep. change (sem 1024%uint63) with 1024.
    assert (2 ^ (j + 1) <= 2 ^ 11) by (apply Z.pow_le_mono_r; lia). lia.
  - intros i a' b' Hi Hab'. change (sem 1024%uint63) with 1024 in Hi.
    apply butterfly_sim; [exact Hab' | exact Hi | lia | |].
    + rewrite sem_half. apply half_small, Bwr.
    + rewrite sem_half. apply half_small.
      rewrite wrap32_spec, Hneg, to_int32_small by (unfold int32_range; lia). lia.
  - lia.
  - exact Hab.
Qed.

Lemma danielson_lanczos_sim S Sl inner :
  rep S Sl -> cells_within (2 ^ 15) Sl ->
  forall (passes : nat) L k a b j,
  0 <= j <= 10 -> sem L = 2 ^ j -> sem k = 9 - j ->
  rep2 a b ->
  rep2 (danielson_lanczos_w S inner passes L k a)
       (danielson_lanczos 10 Sl inner passes (sem L) (sem k) b).
Proof.
  intros HS Hsmall passes.
  induction passes as [| passes IH]; intros L k a b j Hj HL Hk Hab; [exact Hab |].
  cbn [danielson_lanczos_w danielson_lanczos].
  rewrite sem_ltsb. change (sem 1024%uint63) with 1024. change (NUM_SAMPLES 10) with 1024.
  destruct (Z.ltb_spec (sem L) 1024) as [Hlt | Hge]; [| exact Hab].
  assert (Hj' : 0 <= j < 10).
  { split; [lia |]. rewrite HL in Hlt. change 1024 with (2 ^ 10) in Hlt.
    apply (Z.pow_lt_mono_r_iff 2); lia. }
  pose proof (pow2_pass j Hj) as Hp.
  destruct (sem_double L j Hj HL) as [Hstep Hstep'].
  rewrite Hstep', <- Hstep.
  assert (Hk' : sem (PrimInt63.sub k 1%uint63) = sem k - 1)
    by (apply sem_sub; change (sem 1%uint63) with 1; lia).
  rewrite <- Hk'.
  apply (IH _ _ _ _ (j + 1)); [lia | exact Hstep | lia |].
  change 0 with (sem 0%uint63) at 1.
  apply word_loop_sim; change (sem 0%uint63) with 0; try lia.
  - exact Hab.
  - intros m a' b' Hm Hab'.
    apply (butterfly_group_sim S Sl inner L k m a' b' j); try assumption. lia.
Qed.

Lemma FFTfix_sim S Sl R fr fi lr li :
  rep S Sl -> cells_within (2 ^ 15) Sl ->
  rep R (map (bit_reversed 10) (seqZ 0 1024)) ->
  rep fr lr -> rep fi li ->
  rep2 (FFTfix_w S R fr fi) (FFTfix 10 Sl lr li).
Proof.
  intros HS Hsmall HR Hfr Hfi. unfold FFTfix_w, FFTfix.
  change (Z.to_nat (NUM_SAMPLES 10)) with (Z.to_nat 1024).
  change 1 with (sem 1%uint63) at 1. change (10 - 1) with (sem 9%uint63).
  apply (danielson_lanczos_sim S Sl _ HS Hsmall _ _ _ _ _ 0); try reflexivity; try lia.
  apply FFTfix_bit_reversal_sim; assumption.
Qed.

Lemma rep_zeros :
  rep (PArray.make 1024%uint63 0%uint63) (replicate (Z.to_nat 1024) 0).
Proof. apply (rep_make 1024). lia. Qed.

Lemma window_copy_sim W Wl smp sl :
  rep W Wl -> cells_within (2 ^ 15) Wl ->
  rep smp sl -> (forall z, 0 <= aget sl z <= 255) ->
  rep2 (window_copy_w W smp)
       (window_copy 10 Wl sl (replicate (Z.to_nat 1024) 0) (replicate (Z.to_nat 1024) 0)).
Proof.
  intros HW Hsmall Hsmp Hbyte. unfold window_copy_w, window_copy.
  change (Z.to_nat (NUM_SAMPLES 10)) with (Z.to_nat 1024).
  change 0 with (sem 0%uint63) at 1.
  apply (word_loop_sim rep2); change (sem 0%uint63) with 0; try lia.
  - split; apply rep_zeros.
  - intros i a b Hi [Hfr Hfi]. cbn [fst snd].
    pose proof (Hbyte (sem i)) as Hs.
    pose proof (cells_within_aget (2 ^ 15) Wl (sem i) ltac:(lia) Hsmall) as Hw.
    rewrite <- (rep_get _ _ i Hsmp) in Hs |- * by lia.
    rewrite <- (rep_get _ _ i HW) in Hw |- * by lia.
    assert (Hsh : sem (PrimInt63.lsl (PArray.get smp i) 15%uint63)
                  = Z.shiftl (sem (PArray.get smp i)) 15).
    { rewrite Z.shiftl_mul_pow2 by lia.
      rewrite sem_lsl; change (sem 15%uint63) with 15; lia. }
    unfold int2fix15. rewrite <- Hsh, <- wrap32_spec.
    rewrite <- mul15_small_r by (apply wrap32_int32 || exact Hw).
    split.
    + apply rep_put; [exact Hfr | lia | apply mul15_int32].
    + apply (rep_put_at _ _ _ 0%uint63); try reflexivity; try lia; try assumption.
      unfold int32_range. lia.
Qed.

(** The copy overwrites every cell: what the arrays held does not matter. *)
Lemma window_copy_fresh Wl sl fr fi :
  Z.of_nat (length fr) = 1024 -> Z.of_nat (length fi) = 1024 ->
  window_copy 10 Wl sl fr fi =
  window_copy 10 Wl sl (replicate (Z.to_nat 1024) 0) (replicate (Z.to_nat 1024) 0).
Proof.
  intros Hfr Hfi.
  destruct (window_copy_cells 10 ltac:(lia) Wl sl fr fi Hfr Hfi) as (H1 & H2 & Hc).
  destruct (window_copy_cells 10 ltac:(lia) Wl sl (replicate (Z.to_nat 1024) 0)
              (replicate (Z.to_nat 1024) 0) eq_refl eq_refl) as (H1' & H2' & Hc').
  rewrite length_replicate in H1', H2'.
  rewrite (surjective_pairing (window_copy 10 Wl sl fr fi)).
  rewrite (surjective_pairing (window_copy 10 Wl sl (replicate _ 0) (replicate _ 0))).
  f_equal; apply aget_ext; try lia; intros i Hi.
  - destruct (Hc i) as [-> _]; [change (NUM_SAMPLES 10) with 1024; lia |].
    destruct (Hc' i) as [-> _]; [change (NUM_SAMPLES 10) with 1024; lia |]. reflexivity.
  - destruct (Hc i) as [_ ->]; [change (NUM_SAMPLES 10) with 1024; lia |].
    destruct (Hc' i) as [_ ->]; [change (NUM_SAMPLES 10) with 1024; lia |]. reflexivity.
Qed.

Lemma sem_if (c : bool) x y : sem (if c then x else y) = if c then sem x else sem y.
Proof. destruct c; reflexivity. Qed.

Lemma magnitude_step_sim i w p :
  rep_peak w p -> 0 <= sem i ->
  rep_peak (magnitude_step_w i w) (magnitude_step (sem i) p).
Proof.
  destruct w as [[[fr0 fi0] mx] dex]. intros (Hfr & Hfi & Hmx & Hdex) Hi.
  cbn [fst snd] in Hfr, Hfi, Hmx, Hdex.
  unfold magnitude_step_w, magnitude_step. cbv zeta.
  assert (Hcell : forall t l, rep t l -> int32_range (sem (PArray.get t i))).
  { intros t l Ht. rewrite (rep_get t l i Ht Hi). apply (rep_int32 t l _ Ht). }
  (* the two absolute values *)
  assert (Hfr1 : rep (put fr0 i (abs32 (PArray.get fr0 i)))
                   (aset (pk_fr p) (sem i) (abs_int (aget (pk_fr p) (sem i))))).
  { rewrite <- (rep_get _ _ i Hfr Hi), <- abs32_spec by apply (Hcell _ _ Hfr).
    apply rep_put; [exact Hfr | exact Hi | apply wrap32_int32]. }
  assert (Hfi1 : rep (put fi0 i (abs32 (PArray.get fi0 i)))
                   (aset (pk_fi p) (sem i) (abs_int (aget (pk_fi p) (sem i))))).
  { rewrite <- (rep_get _ _ i Hfi Hi), <- abs32_spec by apply (Hcell _ _ Hfi).
    apply rep_put; [exact Hfi | exact Hi | apply wrap32_int32]. }
  set (fr1 := put fr0 i (abs32 (PArray.get fr0 i))) in *.
  set (fi1 := put fi0 i (abs32 (PArray.get fi0 i))) in *.
  set (lr1 := aset (pk_fr p) (sem i) (abs_int (aget (pk_fr p) (sem i)))) in *.
  set (li1 := aset (pk_fi p) (sem i) (abs_int (aget (pk_fi p) (sem i)))) in *.
  pose proof (rep_get _ _ i Hfr1 Hi) as Ea. pose proof (rep_get _ _ i Hfi1 Hi) as Eb.
  pose proof (Hcell _ _ Hfr1) as Ba. pose proof (Hcell _ _ Hfi1) as Bb.
  rewrite <- Ea, <- Eb.
  set (a := PArray.get fr1 i) in *. set (b := PArray.get fi1 i) in *.
  (* the magnitude *)
  assert (Hmax : sem (if PrimInt63.ltsb b a then a else b) = max_macro (sem a) (sem b)).
  { rewrite sem_if, sem_ltsb. unfold max_macro. rewrite Z.gtb_ltb. reflexivity. }
  assert (Hmin : sem (if PrimInt63.ltsb a b then a else b) = min_macro (sem a) (sem b)).
  { rewrite sem_if, sem_ltsb. reflexivity. }
  assert (Bmax : int32_range (sem (if PrimInt63.ltsb b a then a else b)))
    by (destruct (PrimInt63.ltsb b a); assumption).
  assert (Bmin : int32_range (sem (if PrimInt63.ltsb a b then a else b)))
    by (destruct (PrimInt63.ltsb a b); assumption).
  rewrite <- Hmax, <- Hmin, zero_point_4_eq.
  change 13107 with (sem 13107%uint63).
  rewrite <- mul15_small_r by (exact Bmin || (vm_compute; discriminate)).
  rewrite <- sem_add32 by (exact Bmax || apply mul15_int32).
  rewrite <- wrap32_spec.
  set (v := wrap32 (PrimInt63.add (if PrimInt63.ltsb b a then a else b)
                      (mul15 (if PrimInt63.ltsb a b then a else b) 13107%uint63))).
  assert (Hfr2 : rep (put fr1 i v) (aset lr1 (sem i) (sem v)))
    by (apply rep_put; [exact Hfr1 | exact Hi | apply wrap32_int32]).
  rewrite <- (rep_get _ _ i Hfr2 Hi).
  rewrite <- Hmx, <- !sem_ltsb. change 4 with (sem 4%uint63). rewrite <- sem_ltsb.
  destruct (PrimInt63.ltsb mx (PArray.get (put fr1 i v) i) && PrimInt63.ltsb 4%uint63 i);
    (split; [| split; [| split]]); cbn [fst snd pk_fr pk_fi max_fr max_fr_dex];
    assumption || reflexivity.
Qed.

Lemma peak_search_sim fr fi lr li :
  rep fr lr -> rep fi li ->
  rep_peak (peak_search_w fr fi) (peak_search 10 lr li).
Proof.
  intros Hfr Hfi. unfold peak_search_w, peak_search.
  change (Z.to_nat (Z.shiftr (NUM_SAMPLES 10) 1)) with (Z.to_nat 512).
  change 0 with (sem 0%uint63) at 1.
  apply (word_loop_sim rep_peak); change (sem 0%uint63) with 0; try lia.
  - (split; [| split; [| split]]); cbn [fst snd pk_fr pk_fi max_fr max_fr_dex];
      assumption || reflexivity.
  - intros i w p Hi Hwp. apply magnitude_step_sim; [exact Hwp | lia].
Qed.

(** The mirror of an epoch computes the peak the model computes, for 8-bit
    samples, a sine table within 1.0 and a window within 1.0. *)
Lemma fft_epoch_w_correct S Sl W Wl R smp sl fr fi :
  rep S Sl -> cells_within (2 ^ 15) Sl ->
  rep W Wl -> cells_within (2 ^ 15) Wl ->
  rep R (map (bit_reversed 10) (seqZ 0 1024)) ->
  rep smp sl -> (forall z, 0 <= aget sl z <= 255) ->
  Z.of_nat (length fr) = 1024 -> Z.of_nat (length fi) = 1024 ->
  rep_peak (fft_epoch_w S W R smp) (fft_epoch 10 Sl Wl sl fr fi).
Proof.
  intros HS HSs HW HWs HR Hsmp Hbyte Hfr Hfi.
  unfold fft_epoch_w, fft_epoch. cbv zeta.
  rewrite (window_copy_fresh Wl sl fr fi Hfr Hfi).
  destruct (window_copy_sim W Wl smp sl HW HWs Hsmp Hbyte) as [Hc1 Hc2].
  destruct (FFTfix_sim S Sl R _ _ _ _ HS HSs HR Hc1 Hc2) as [Ht1 Ht2].
  apply peak_search_sim; assumption.
Qed.

(** ** The tables and the tone *)

Lemma cells_within_check B l :
  forallb (fun v => Z.abs v <=? B) l = true -> cells_within B l.
Proof.
  induction l as [| v l IH]; cbn [forallb]; intros H; [constructor |].
  apply andb_true_iff in H as [Hv Hl].
  constructor; [apply Z.leb_le, Hv | apply IH, Hl].
Qed.

Lemma cells_within_int32 B l : B < 2 ^ 31 -> cells_within B l -> Forall int32_range l.
Proof.
  intros HB H. apply (Forall_impl _ _ _ H). intros v Hv. apply Z.abs_le in Hv.
  unfold int32_range. lia.
Qed.

Lemma Sinewave_cells : cells_within (2 ^ 15) Sinewave_table.
Proof. apply cells_within_check. vm_compute. reflexivity. Qed.

Lemma window_cells : cells_within (2 ^ 15) window_table.
Proof. apply cells_within_check. vm_compute. reflexivity. Qed.

Lemma Sinewave_rep : rep Sinewave_w Sinewave_table.
Proof.
  assert (E : Sinewave_w = word_array Sinewave_table) by (vm_compute; reflexivity).
  rewrite E. apply word_array_rep.
  - apply (cells_within_int32 (2 ^ 15)); [lia | exact Sinewave_cells].
  - vm_compute. discriminate.
Qed.

Lemma window_rep : rep window_w window_table.
Proof.
  assert (E : window_w = word_array window_table) by (vm_compute; reflexivity).
  rewrite E. apply word_array_rep.
  - apply (cells_within_int32 (2 ^ 15)); [lia | exact window_cells].
  - vm_compute. discriminate.
Qed.

Lemma reversed_rep : rep reversed_w (map (bit_reversed 10) (seqZ 0 1024)).
Proof.
  assert (E : reversed_w = word_array (map (bit_reversed 10) (seqZ 0 1024)))
    by (vm_compute; reflexivity).
  rewrite E. apply word_array_rep.
  - apply (cells_within_int32 (2 ^ 15)); [lia |].
    apply cells_within_check. vm_compute. reflexivity.
  - vm_compute. discriminate.
Qed.

Lemma aget_map_seqZ (F : Z -> Z) n j : 0 <= j < n -> aget (map F (seqZ 0 n)) j = F j.
Proof.
  intros Hj. unfold aget. rewrite list_lookup_fmap, lookup_seqZ_lt by lia.
  cbn. f_equal. lia.
Qed.

(** A loop that stores [F i] in cell [i] tabulates [F]. *)
Lemma for_loop_tabulate (F : Z -> Z) (n : nat) :
  for_loop n 0 (fun i t => aset t i (F i)) (replicate n 0) = map F (seqZ 0 (Z.of_nat n)).
Proof.
  pose proof (for_loop_invariant
    (fun i t => length t = n /\ forall j, 0 <= j < i -> aget t j = F j)
    (fun i t => aset t i (F i)) n 0 (replicate n 0)) as H.
  destruct H as [Hlen Hcells].
  - split; [apply length_replicate | intros j Hj; lia].
  - intros i t Hi [Hl Hc]. split; [rewrite length_aset; exact Hl |].
    intros j Hj. destruct (Z.eq_dec j i) as [-> | Hne].
    + apply aget_aset_eq. lia.
    + rewrite aget_aset_ne by lia. apply Hc. lia.
  - apply aget_ext.
    + rewrite Hlen, length_fmap, length_seqZ. lia.
    + intros i Hi. rewrite Hcells, aget_map_seqZ by lia. reflexivity.
Qed.

Lemma scaled_sine_bound a s :
  0 <= a <= 127 * 2 ^ 15 -> Z.abs s <= 2 ^ 15 ->
  - (127 * 2 ^ 30) <= a * s <= 127 * 2 ^ 30.
Proof. intros Ha Hs. apply Z.abs_le in Hs. nia. Qed.

(** Up to amplitude 127.0 the samples of a tone fit the 8-bit buffer. *)
Lemma pure_tone_byte a k z : 0 <= a <= 127 * 2 ^ 15 -> 0 <= aget (pure_tone a k) z <= 255.
Proof.
  intros Ha. unfold aget, pure_tone. rewrite list_lookup_fmap.
  destruct (seqZ 0 1024 !! Z.to_nat z) as [i |]; cbn [fmap option_fmap option_map default];
    [| lia].
  pose proof (scaled_sine_bound a _ Ha
                (cells_within_aget (2 ^ 15) Sinewave_table ((k * i) mod 1024)
                   ltac:(lia) Sinewave_cells)) as Hb.
  revert Hb. generalize (a * aget Sinewave_table ((k * i) mod 1024)). intros x Hx.
  unfold id. rewrite Z.shiftr_div_pow2 by lia.
  change (2 ^ 30) with 1073741824 in *. change (2 ^ 29) with 536870912.
  Z.div_mod_to_equations. lia.
Qed.

Lemma pure_tone_rep a k :
  0 <= sem a <= 127 * 2 ^ 15 -> 0 <= sem k < 1024 ->
  rep (pure_tone_w a k) (pure_tone (sem a) (sem k)).
Proof.
  intros Ha Hk. unfold pure_tone_w, pure_tone.
  match goal with
  | |- rep _ (map ?F _) =>
      rewrite <- (for_loop_tabulate F (Z.to_nat 1024) : _ = map F (seqZ 0 1024))
  end.
  apply (word_loop_sim rep _ _ (Z.to_nat 1024) 0%uint63);
    change (sem 0%uint63) with 0; try lia.
  - apply rep_zeros.
  - intros i t l Hi Hrep.
    assert (Hki : sem (PrimInt63.mul k i) = sem k * sem i) by (apply sem_mul; nia).
    assert (Hidx : sem (PrimInt63.mod (PrimInt63.mul k i) 1024%uint63)
                   = (sem k * sem i) mod 1024).
    { rewrite sem_mod, Hki; [reflexivity | rewrite Hki; nia | vm_compute; reflexivity]. }
    pose proof (Z.mod_pos_bound (sem k * sem i) 1024 ltac:(lia)) as Hm.
    assert (Hs : sem (PArray.get Sinewave_w (PrimInt63.mod (PrimInt63.mul k i) 1024%uint63))
                 = aget Sinewave_table ((sem k * sem i) mod 1024)).
    { rewrite (rep_get _ _ _ Sinewave_rep), Hidx by (rewrite Hidx; lia). reflexivity. }
    pose proof (scaled_sine_bound (sem a) _ Ha
                  (cells_within_aget (2 ^ 15) Sinewave_table ((sem k * sem i) mod 1024)
                     ltac:(lia) Sinewave_cells)) as Hb.
    rewrite <- Hs in Hb |- *.
    set (s := PArray.get Sinewave_w (PrimInt63.mod (PrimInt63.mul k i) 1024%uint63)) in *.
    assert (Hprod : sem (PrimInt63.mul a s) = sem a * sem s) by (apply sem_mul; lia).
    assert (Hsum : sem (PrimInt63.add (PrimInt63.mul a s) 536870912%uint63)
                   = sem a * sem s + 2 ^ 29).
    { rewrite sem_add, Hprod; [reflexivity |].
      rewrite Hprod. change (sem 536870912%uint63) with (2 ^ 29). lia. }
    assert (Hsh : sem (PrimInt63.asr (PrimInt63.add (PrimInt63.mul a s) 536870912%uint63)
                         30%uint63)
                  = Z.shiftr (sem a * sem s + 2 ^ 29) 30).
    { rewrite sem_asr, Hsum by (vm_compute; discriminate). reflexivity. }
    assert (Hq : -127 <= Z.shiftr (sem a * sem s + 2 ^ 29) 30 <= 127).
    { revert Hb. generalize (sem a * sem s). intros x Hx.
      rewrite Z.shiftr_div_pow2 by lia.
      change (2 ^ 30) with 1073741824 in *. change (2 ^ 29) with 536870912.
      Z.div_mod_to_equations. lia. }
    apply rep_put_at; [exact Hrep | reflexivity | lia | | unfold int32_range; lia].
    rewrite sem_add, Hsh; change (sem 128%uint63) with 128; [reflexivity |].
    rewrite Hsh. lia.
Qed.

(** ** The epoch of a tone, by evaluation *)

Lemma tone_peak_model a k fr fi :
  0 <= sem a <= 127 * 2 ^ 15 -> 0 <= sem k < 1024 ->
  Z.of_nat (length fr) = 1024 -> Z.of_nat (length fi) = 1024 ->
  max_fr_dex (fft_epoch 10 Sinewave_table window_table (pure_tone (sem a) (sem k)) fr fi)
  = sem (tone_peak_w a k).
Proof.
  intros Ha Hk Hfr Hfi.
  destruct (fft_epoch_w_correct Sinewave_w Sinewave_table window_w window_table reversed_w
              (pure_tone_w a k) (pure_tone (sem a) (sem k)) fr fi
              Sinewave_rep Sinewave_cells window_rep window_cells reversed_rep
              (pure_tone_rep a k Ha Hk) (fun z => pure_tone_byte _ _ z Ha) Hfr Hfi)
    as (_ & _ & _ & Hdex).
  symmetry. exact Hdex.
Qed.

Lemma all_from_spec (f : int -> bool) n :
  forall k0 k, all_from f n k0 = true ->
  0 <= sem k0 -> sem k0 + Z.of_nat n < 2 ^ 62 ->
  sem k0 <= sem k < sem k0 + Z.of_nat n ->
  f k = true.
Proof.
  induction n as [| n IH]; intros k0 k Hall H0 Hfit Hk; [lia |].
  cbn [all_from] in Hall. apply andb_true_iff in Hall as [Hhere Hrest].
  assert (Hnext : sem (PrimInt63.add k0 1%uint63) = sem k0 + 1)
    by (apply sem_add; change (sem 1%uint63) with 1; lia).
  destruct (Z.eq_dec (sem k) (sem k0)) as [E | E].
  - apply sem_inj in E. subst k. exact Hhere.
  - apply (IH (PrimInt63.add k0 1%uint63)); [exact Hrest | lia | lia | lia].
Qed.

Lemma found_by_correct (peak : int -> int) k : found_by peak k = true -> peak k = k.
Proof. apply Uint63.eqb_correct. Qed.

Lemma tone_bins_model a fr fi :
  all_from (found_by (tone_peak_w a)) 507 5%uint63 = true ->
  0 <= sem a <= 127 * 2 ^ 15 ->
  Z.of_nat (length fr) = 1024 -> Z.of_nat (length fi) = 1024 ->
  forall k, 5 <= k < 512 ->
  max_fr_dex (fft_epoch 10 Sinewave_table window_table (pure_tone (sem a) k) fr fi) = k.
Proof.
  intros Hall Ha Hfr Hfi k Hk.
  assert (Ek : sem (Uint63.of_Z k) = k) by (apply sem_of_Z; lia).
  assert (Hk' : 0 <= sem (Uint63.of_Z k) < 1024) by (rewrite Ek; lia).
  assert (H5 : sem 5%uint63 <= sem (Uint63.of_Z k) < sem 5%uint63 + Z.of_nat 507)
    by (rewrite Ek; change (sem 5%uint63) with 5; lia).
  pose proof (tone_peak_model a (Uint63.of_Z k) fr fi Ha Hk' Hfr Hfi) as Hpeak.
  rewrite Ek in Hpeak. rewrite Hpeak.
  rewrite (found_by_correct (tone_peak_w a) (Uint63.of_Z k)
             (all_from_spec (found_by (tone_peak_w a)) 507 5%uint63 (Uint63.of_Z k) Hall
                ltac:(vm_compute; discriminate) ltac:(vm_compute; reflexivity) H5)).
  exact Ek.
Qed.

Lemma tone_of_1_count : all_from (found_by (tone_peak_w 32768%uint63)) 507 5%uint63 = true.
Proof. vm_compute. reflexivity. Qed.

Lemma tone_of_64_counts : all_from (found_by (tone_peak_w 2097152%uint63)) 507 5%uint63 = true.
Proof. vm_compute. reflexivity. Qed.

Lemma tone_of_127_counts : all_from (found_by (tone_peak_w 4161536%uint63)) 507 5%uint63 = true.
Proof. vm_compute. reflexivity. Qed.

(** A tone of 0.4 counts is lost in the rounding to 8 bits: the buffer is
    flat, and the epoch reports the last bin it looks at. *)
Lemma faint_tone_flat : pure_tone 13107 200 = replicate (Z.to_nat 1024) 128.
Proof. vm_compute. reflexivity. Qed.

Lemma faint_tone_peak fr fi :
  Z.of_nat (length fr) = 1024 -> Z.of_nat (length fi) = 1024 ->
  max_fr_dex (fft_epoch 10 Sinewave_table window_table (pure_tone 13107 200) fr fi) = 511.
Proof.
  intros Hfr Hfi.
  transitivity (sem (tone_peak_w 13107%uint63 200%uint63)).
  - exact (tone_peak_model 13107%uint63 200%uint63 fr fi
             ltac:(vm_compute; split; discriminate)
             ltac:(vm_compute; split; [discriminate | reflexivity]) Hfr Hfi).
  - vm_compute. reflexivity.
Qed.



